(** * EmberGL: the rendering core behind the example sketches

    The example sketches (00_HelloRect ... 08_TightMem) are client code of a
    tile based, deferred software rasterizer.  This development embeds

    - the shaders and configuration structs that the sketches define
      (translated from the sketches themselves), and
    - the engine entry points the sketches call ([draw_rect],
      [fast_draw_rect], [dispatch_pso], [commit], [clear_depth]), whose
      bodies live in the library headers and are modelled from the
      specification.

    Conventions: C++ integers are [Z]; [float] is an abstract scalar type
    with its operations (class [Float]), instantiated with exact rationals
    where a concrete evaluation is wanted; arrays are lists read with [!!]
    and updated with [<[ i := x ]>]. *)

From Stdlib Require Import ZArith QArith Qabs Qround Qfield Lia Bool.
From stdpp Require Import base list sorting.

#[local] Open Scope Z_scope.

(* ===================================================================== *)
(** * Part I: definitions                                                 *)
(* ===================================================================== *)

(** ** Scalars and small vectors (egl_math) *)

(** The [float] operations the shaders use.  The shaders are written
    against this interface, so what they are proved to do holds for any
    arithmetic behind it. *)
Class Float (F : Type) := {
  fadd : F -> F -> F;
  fmul : F -> F -> F;
  fdiv : F -> F -> F;
  fabs : F -> F;
  f_of_Z : Z -> F;
}.

(** Exact rational arithmetic as an instance. *)
#[export] Instance Float_Q : Float Q := {
  fadd := Qplus;
  fmul := Qmult;
  fdiv := Qdiv;
  fabs := Qabs;
  f_of_Z := inject_Z;
}.

Record vec2 (F : Type) := mk_vec2 { v2x : F; v2y : F }.
Record vec3 (F : Type) := mk_vec3 { v3x : F; v3y : F; v3z : F }.
Arguments mk_vec2 {F} _ _.
Arguments v2x {F} _.
Arguments v2y {F} _.
Arguments mk_vec3 {F} _ _ _.
Arguments v3x {F} _.
Arguments v3y {F} _.
Arguments v3z {F} _.

(** [v*s] and [a+b] on [vec2f]. *)
Definition vec2_scale `{Float F} (v : vec2 F) (s : F) : vec2 F :=
  mk_vec2 (fmul (v2x v) s) (fmul (v2y v) s).
Definition vec2_add `{Float F} (a b : vec2 F) : vec2 F :=
  mk_vec2 (fadd (v2x a) (v2x b)) (fadd (v2y a) (v2y b)).

(** The interpolation line every pixel shader of the sketches starts with:
    [v0_.a*bc_.x+v1_.a*bc_.y+v2_.a*bc_.z]. *)
Definition interp1 `{Float F} (a0 a1 a2 : F) (bc : vec3 F) : F :=
  fadd (fadd (fmul a0 (v3x bc)) (fmul a1 (v3y bc))) (fmul a2 (v3z bc)).
Definition interp2 `{Float F} (a0 a1 a2 : vec2 F) (bc : vec3 F) : vec2 F :=
  vec2_add (vec2_add (vec2_scale a0 (v3x bc)) (vec2_scale a1 (v3y bc)))
           (vec2_scale a2 (v3z bc)).

(** ** Pixel output of a pixel shader (rasterizer_pixel_out) *)

(** Modelled from the spec: [rasterizer_pixel_out<PSC>] is declared in the
    library headers.  Section 4.3 step 3: the color a pixel shader hands
    over is combined with the destination pixel of render target 0 by the
    blend function of the render state.  [po_exports] records the
    [export_rt0] calls of one shader invocation, oldest first. *)
Record rasterizer_pixel_out (P : Type) := mk_pixel_out {
  po_blendfunc : P -> P -> P;   (* source color, destination pixel *)
  po_rt0 : P;                   (* the destination pixel of this fragment *)
  po_exports : list P;
}.
Arguments mk_pixel_out {P} _ _ _.
Arguments po_blendfunc {P} _.
Arguments po_rt0 {P} _.
Arguments po_exports {P} _.

Definition export_rt0 {P} (c : P) (po : rasterizer_pixel_out P)
  : rasterizer_pixel_out P :=
  {| po_blendfunc := po_blendfunc po;
     po_rt0 := po_blendfunc po c (po_rt0 po);
     po_exports := po_exports po ++ [c] |}.

(** What a fragment starts from: the destination pixel, nothing exported. *)
Definition pixel_out_begin {P} (blend : P -> P -> P) (dst : P)
  : rasterizer_pixel_out P :=
  mk_pixel_out blend dst [].

(** ** 03_MultiDispatch: ps_color *)

Module MultiDispatch.
Section Shaders.
Context {F : Type} `{Float F}.
(** [color_rgbaf] and the tile pixel type; [to_rt0] is the conversion
    [export_rt0] applies to a [color_rgbaf] argument (pixel format layer,
    in the library headers). *)
Context {color_rgbaf P : Type} (to_rt0 : color_rgbaf -> P).

(** [ps_color::psin]: only the position. *)
Record ps_color_psin := { pc_pos : F * F * F * F }.

(** [struct ps_color {... color_rgbaf color;}]. *)
Record ps_color := { color : color_rgbaf }.

(** [ps_color::exec]: "output the color set for the pixel shader". *)
Definition ps_color_exec (sh : ps_color)
    (psout : rasterizer_pixel_out P)
    (v0 v1 v2 : ps_color_psin) (bc : vec3 F) (prim_idx : Z)
  : rasterizer_pixel_out P :=
  export_rt0 (to_rt0 (color sh)) psout.

(** [ps_ndotl::psin] and [ps_ndotl::exec]:
    [psout_.export_rt0(color*abs(ndotl))]. *)
Record ps_ndotl_psin := { pn_pos : F * F * F * F; ndotl : F }.
Record ps_ndotl := { ndotl_color : color_rgbaf }.
Context (color_scale : color_rgbaf -> F -> color_rgbaf).

Definition ps_ndotl_exec (sh : ps_ndotl)
    (psout : rasterizer_pixel_out P)
    (v0 v1 v2 : ps_ndotl_psin) (bc : vec3 F) (prim_idx : Z)
  : rasterizer_pixel_out P :=
  let n := interp1 (ndotl v0) (ndotl v1) (ndotl v2) bc in
  export_rt0 (to_rt0 (color_scale (ndotl_color sh) (fabs n))) psout.
End Shaders.
End MultiDispatch.

(** ** 05_Speedometer: the gauge needle shaders *)

Module Speedometer.

(** [pixel<pixfmt_r5g5b5a1>]: three 5 bit channels and a 1 bit alpha. *)
Record pixel_r5g5b5a1 := mk_r5g5b5a1 { c_r : Z; c_g : Z; c_b : Z; c_a : Z }.

(** [static const uint8_t s_needle_indices[12]]. *)
Definition s_needle_indices : list Z := [0; 1; 2; 1; 3; 2; 4; 5; 6; 5; 7; 6].

Section Shaders.
Context {F : Type} `{Float F}.
(** The texture resource and the point sampler
    [sampler2d<pixfmt_r5g5b5a1, texfilter_point>] are library types; the
    sketch only calls [sample]. *)
Context {texture : Type}.
Context (s_smp_gauge_needle_sample : texture -> vec2 F -> pixel_r5g5b5a1).
Context (s_tex_gauge_needle : texture).

(** [struct vertex_needle { ... vec2f pos; }]. *)
Record vertex_needle := { vn_pos : vec2 F }.

(** [ps_gauge_needle::psin]. *)
Record psin := { pos : vec2 F; uv : vec2 F }.


(** [ps_gauge_needle::exec]. *)
Definition ps_gauge_needle_exec
    (psout : rasterizer_pixel_out pixel_r5g5b5a1)
    (v0 v1 v2 : psin) (bc : vec3 F) (prim_idx : Z)
  : rasterizer_pixel_out pixel_r5g5b5a1 :=
  if prim_idx <? 2 then
    let uv' := interp2 (uv v0) (uv v1) (uv v2) bc in
    let smp := s_smp_gauge_needle_sample s_tex_gauge_needle uv' in
    if negb (c_a smp =? 0) then export_rt0 smp psout else psout
  else psout.

(** [tshader_gauge::exec] for a display of the tile's own format: a tile
    pixel with alpha set is the needle, anything else shows the
    background, sampled at the pixel centre. *)
Context {D : Type} (of_r5g5b5a1 : pixel_r5g5b5a1 -> D).
Context (s_smp_gauge_bg_sample : texture -> vec2 F -> D).
Context (s_tex_gauge_bg : texture).
Context (fb_width fb_height : Z).

Definition tshader_gauge_exec (rt0 : list pixel_r5g5b5a1)
    (src_px_offs : nat) (x y : Z) (res : D) : D :=
  match rt0 !! src_px_offs with
  | Some smp =>
      if negb (c_a smp =? 0) then of_r5g5b5a1 smp
      else
        let half := fdiv (f_of_Z 1) (f_of_Z 2) in
        s_smp_gauge_bg_sample s_tex_gauge_bg
          (mk_vec2 (fdiv (fadd (f_of_Z x) half) (f_of_Z fb_width))
                   (fdiv (fadd (f_of_Z y) half) (f_of_Z fb_height)))
  | None => res
  end.
End Shaders.
End Speedometer.

(** ** 04_TexCube: textured cube *)

Module TexCube.
Section Shaders.
Context {F : Type} `{Float F}.
Context {texture color_rgbaf P : Type}.
Context (sampler_sample : texture -> vec2 F -> color_rgbaf).
Context (to_rt0 : color_rgbaf -> P).

(** [ps_tex::psin]. *)
Record ps_tex_psin := { pt_w : F; pt_uv : vec2 F }.

(** The first line of [ps_tex::exec]: the interpolated UV. *)
Definition ps_tex_uv (v0 v1 v2 : ps_tex_psin) (bc : vec3 F) : vec2 F :=
  interp2 (pt_uv v0) (pt_uv v1) (pt_uv v2) bc.

(** [ps_tex::exec]: sample the texture at the interpolated UV. *)
Definition ps_tex_exec (tex : texture)
    (psout : rasterizer_pixel_out P)
    (v0 v1 v2 : ps_tex_psin) (bc : vec3 F) (prim_idx : Z)
  : rasterizer_pixel_out P :=
  export_rt0 (to_rt0 (sampler_sample tex (ps_tex_uv v0 v1 v2 bc))) psout.
End Shaders.
End TexCube.

(** ** Results of engine calls *)

(** The capacities of section 7 (a). *)
Inductive e_limit :=
| limit_dispatches
| limit_clusters
| limit_cluster_strips
| limit_ptv_buffer.

(** An engine call either returns, stops with the diagnostic of the limit
    that was hit, or has no defined behaviour. *)
Inductive outcome (A : Type) :=
| Ok (a : A)
| Fatal (l : e_limit)
| Undefined.
Arguments Ok {A} _.
Arguments Fatal {A} _.
Arguments Undefined {A}.

Definition obind {A B} (m : outcome A) (f : A -> outcome B) : outcome B :=
  match m with
  | Ok a => f a
  | Fatal l => Fatal l
  | Undefined => Undefined
  end.

Notation "'do' x <- m ; k" := (obind m (fun x => k))
  (at level 10, x name, m at level 100, k at level 200).

(** A loop whose body may stop the frame. *)
Fixpoint ofold {A B} (f : A -> B -> outcome A) (l : list B) (a : A)
  : outcome A :=
  match l with
  | [] => Ok a
  | b :: l' => do a' <- f a b; ofold f l' a'
  end.

(** The three build flavours of egl_core.h. *)
Inductive e_build := EGL_DEBUG | EGL_RELEASE | EGL_RETAIL.

Definition checks_enabled (b : e_build) : bool :=
  match b with
  | EGL_RETAIL => false
  | _ => true
  end.

(** A capacity check in front of a buffer write.  Debug and release builds
    stop with the diagnostic; a retail build has no check, runs into the
    write behind the end of the buffer, and nothing is defined from there
    on. *)
Definition capacity_check {A} (b : e_build) (l : e_limit) (fits : bool)
    (k : outcome A) : outcome A :=
  if fits then k
  else if checks_enabled b then Fatal l else Undefined.

(** ** The display device and the immediate mode path *)

(** Modelled from the spec: the device classes ([graphics_device_ili9341]
    and the like) are in the library.  Section 6: a device exposes the frame
    buffer dimensions and a pixel write primitive.  The frame buffer is
    kept row by row. *)
Record graphics_device (D : Type) := mk_device {
  fb_width : Z;
  fb_height : Z;
  fb : list D;
}.
Arguments mk_device {D} _ _ _.
Arguments fb_width {D} _.
Arguments fb_height {D} _.
Arguments fb {D} _.

Definition device_wf {D} (dev : graphics_device D) : Prop :=
  0 <= fb_width dev /\ 0 <= fb_height dev /\
  length (fb dev) = Z.to_nat (fb_width dev * fb_height dev).

Definition on_screen {D} (dev : graphics_device D) (x y : Z) : bool :=
  (0 <=? x) && (x <? fb_width dev) && (0 <=? y) && (y <? fb_height dev).

Definition fb_index {D} (dev : graphics_device D) (x y : Z) : nat :=
  Z.to_nat (y * fb_width dev + x).

Definition fb_get {D} (dev : graphics_device D) (x y : Z) : option D :=
  if on_screen dev x y then fb dev !! fb_index dev x y else None.

(** The pixel write primitive.  A write outside the display is not defined
    (section 7 (c)). *)
Definition fb_put {D} (dev : graphics_device D) (x y : Z) (v : D)
  : outcome (graphics_device D) :=
  if on_screen dev x y then
    Ok (mk_device (fb_width dev) (fb_height dev)
                  (<[fb_index dev x y := v]> (fb dev)))
  else Undefined.

Section Immediate.
Context {D : Type}.
(** An immediate mode pixel shader, [exec(res_, x_, y_)], as the value it
    stores into [res_]. *)
Context (shader : Z -> Z -> D).

(** One row: [n] pixels from [x] on. *)
Fixpoint draw_span (y x : Z) (n : nat) (dev : graphics_device D)
  : outcome (graphics_device D) :=
  match n with
  | O => Ok dev
  | S n' => do dev' <- fb_put dev x y (shader x y); draw_span y (x + 1) n' dev'
  end.

(** [n] rows from [y] on. *)
Fixpoint draw_rows (x w y : Z) (n : nat) (dev : graphics_device D)
  : outcome (graphics_device D) :=
  match n with
  | O => Ok dev
  | S n' =>
      do dev' <- draw_span y x (Z.to_nat w) dev; draw_rows x w (y + 1) n' dev'
  end.

(** Modelled from the spec: [fast_draw_rect] is a member of the device
    class.  Section 4.5: the rectangle is rasterized pixel by pixel,
    synchronously, straight into the frame buffer, without clipping. *)
Definition fast_draw_rect (x y width height : Z) (dev : graphics_device D)
  : outcome (graphics_device D) :=
  draw_rows x width y (Z.to_nat height) dev.

(** Modelled from the spec: [draw_rect] is a member of the device class.
    By section 4.5: [draw_rect] clips the rectangle to the screen bounds and
    draws what is left. *)
Definition draw_rect (x y width height : Z) (dev : graphics_device D)
  : outcome (graphics_device D) :=
  let x0 := Z.max x 0 in
  let y0 := Z.max y 0 in
  let x1 := Z.min (x + width) (fb_width dev) in
  let y1 := Z.min (y + height) (fb_height dev) in
  if (x0 <? x1) && (y0 <? y1)
  then fast_draw_rect x0 y0 (x1 - x0) (y1 - y0) dev
  else Ok dev.
End Immediate.

(** The pixels of a rectangle. *)
Definition in_rect (x y width height px py : Z) : Prop :=
  x <= px < x + width /\ y <= py < y + height.

Definition rect_on_screen {D} (dev : graphics_device D)
    (x y width height : Z) : Prop :=
  0 <= x /\ 0 <= y /\ x + width <= fb_width dev /\ y + height <= fb_height dev.

(** ** 00_HelloRect: test_shader *)

Module HelloRect.
(** An 8 bit per channel color as [set_rgba8] receives it. *)
Record rgba8 := mk_rgba8 { r8 : Z; g8 : Z; b8 : Z; a8 : Z }.

Definition to_uint8 (v : Z) : Z := v mod 256.

(** [struct test_shader { int16_t x, y; uint8_t frame; }]. *)
Record test_shader := { x : Z; y : Z; frame : Z }.

(** [res_.set_rgba8((uint8_t)(x_-x)*2, (uint8_t)(y_-y)*2, frame, 0)]:
    the cast binds before the product, and the product is narrowed to
    the [uint8_t] parameter. *)
Definition test_shader_exec (sh : test_shader) (x_ y_ : Z) : rgba8 :=
  mk_rgba8 (to_uint8 (to_uint8 (x_ - x sh) * 2))
           (to_uint8 (to_uint8 (y_ - y sh) * 2))
           (frame sh) 0.

Definition rect_width : Z := 128.
Definition rect_height : Z := 128.

(** One pass of [loop()] on a device, for frame counter [s_frame]. *)
Definition loop (s_frame : Z) (dev : graphics_device rgba8)
  : outcome (graphics_device rgba8) :=
  let x := fb_width dev / 2 - rect_width / 2 in
  let y := fb_height dev / 2 - rect_height / 2 in
  draw_rect (test_shader_exec {| x := x; y := y; frame := s_frame |})
            x y rect_width rect_height dev.
End HelloRect.

(** ** Rasterizer configuration (rasterizer_memory_cfg) *)

Inductive e_depth_format :=
| depthfmt_none
| depthfmt_uint8
| depthfmt_uint16
| depthfmt_uint32.

Definition depth_max (f : e_depth_format) : Z :=
  match f with
  | depthfmt_none => 0
  | depthfmt_uint8 => 255
  | depthfmt_uint16 => 65535
  | depthfmt_uint32 => 4294967295
  end.

Inductive e_tile_order := tileorder_linear | tileorder_morton.

Inductive e_clear_depth := cleardepth_min | cleardepth_max.

(** The settings the sketches override in their [rasterizer_memory_cfg]
    structs (02_RotoMonkey explains each of them).  [depth_persistent] is
    modelled from the spec (section 4.3: the depth buffer is reset after a
    tile unless it is retained across frames). *)
Record rasterizer_memory_cfg := {
  depth_format : e_depth_format;
  depth_hiz : bool;
  depth_persistent : bool;
  max_dispatches : nat;
  pso_store_size : nat;
  max_pso_state_size : nat;
  tile_width : Z;
  tile_height : Z;
  tile_order : e_tile_order;
  max_clusters : nat;
  max_cluster_strips : nat;
  num_strip_clusters : nat;
  max_ptv_buffer_size : nat;
  vcache_size : nat;
  max_dma_transfers : nat;
}.

(** [struct rasterizer_memory_cfg: rasterizer_memory_cfg_base] of
    08_TightMem; what the struct leaves alone comes from the base. *)
Definition cfg_TightMem (base : rasterizer_memory_cfg) : rasterizer_memory_cfg :=
  {| depth_format := depthfmt_uint8;
     depth_hiz := false;
     depth_persistent := depth_persistent base;
     max_dispatches := 1;
     pso_store_size := 216;
     max_pso_state_size := max_pso_state_size base;
     tile_width := 32;
     tile_height := 32;
     tile_order := tileorder_linear;
     max_clusters := 8;
     max_cluster_strips := 12;
     num_strip_clusters := 8;
     max_ptv_buffer_size := 32 * 20;
     vcache_size := 0;
     max_dma_transfers := 0 |}.

(** The struct of 02_RotoMonkey.  Its [max_vout_size] enumerator names no
    setting of this record, so the PTV buffer size stays the base's. *)
Definition cfg_RotoMonkey (base : rasterizer_memory_cfg) : rasterizer_memory_cfg :=
  {| depth_format := depthfmt_uint16;
     depth_hiz := true;
     depth_persistent := depth_persistent base;
     max_dispatches := 1;
     pso_store_size := 128;
     max_pso_state_size := 128;
     tile_width := 64;
     tile_height := 64;
     tile_order := tileorder_morton;
     max_clusters := 256;
     max_cluster_strips := 256;
     num_strip_clusters := num_strip_clusters base;
     max_ptv_buffer_size := max_ptv_buffer_size base;
     vcache_size := 0;
     max_dma_transfers := 0 |}.

(** ** Render state (rasterizer_psc_base and the rstate_ structs) *)

Inductive e_rstate_tbfc := rstate_tbfc_none | rstate_tbfc_cw | rstate_tbfc_ccw.
Inductive e_rstate_bcimode :=
| rstate_bcimode_perspective
| rstate_bcimode_noperspective.
Inductive e_rstate_depthfunc := rstate_depthfunc_less | rstate_depthfunc_greater.

(** Modelled from the spec: [rasterizer_psc_base] is in the library.
    By section 3: a render state descriptor holds the target formats, the
    culling mode, the blend mode and the depth test mode; the enumerators
    the sketches set are [depth_format], [tbfc_mode], [bci_mode],
    [debug_disable_pixel_depth_test] and the blend function of render
    target 0. *)
Record render_state (P : Type) := mk_rstate {
  rs_depth_format : e_depth_format;
  rs_depth_func : e_rstate_depthfunc;
  rs_depth_write : bool;
  rs_tbfc_mode : e_rstate_tbfc;
  rs_bci_mode : e_rstate_bcimode;
  rs_debug_disable_pixel_depth_test : bool;
  rs_blendfunc : P -> P -> P;
}.
Arguments mk_rstate {P} _ _ _ _ _ _ _.
Arguments rs_depth_format {P} _.
Arguments rs_depth_func {P} _.
Arguments rs_depth_write {P} _.
Arguments rs_tbfc_mode {P} _.
Arguments rs_bci_mode {P} _.
Arguments rs_debug_disable_pixel_depth_test {P} _.
Arguments rs_blendfunc {P} _.

(** The opaque blend: the shader's color replaces the destination. *)
Definition blendfunc_replace {P} (src dst : P) : P := src.

(** Modelled from the spec: the defaults of [rasterizer_psc_base]: no depth
    target, back faces culled, perspective correct interpolation, opaque
    blending, no debug flag. *)
Definition rasterizer_psc_base {P} : render_state P :=
  {| rs_depth_format := depthfmt_none;
     rs_depth_func := rstate_depthfunc_less;
     rs_depth_write := true;
     rs_tbfc_mode := rstate_tbfc_ccw;
     rs_bci_mode := rstate_bcimode_perspective;
     rs_debug_disable_pixel_depth_test := false;
     rs_blendfunc := blendfunc_replace |}.

(** [struct rstate_opaque: rasterizer_psc_base] (02, 03, 04, 06, 07): the
    depth format of the memory configuration. *)
Definition rstate_opaque {P} (cfg : rasterizer_memory_cfg) : render_state P :=
  let base := @rasterizer_psc_base P in
  {| rs_depth_format := depth_format cfg;
     rs_depth_func := rs_depth_func base;
     rs_depth_write := rs_depth_write base;
     rs_tbfc_mode := rs_tbfc_mode base;
     rs_bci_mode := rs_bci_mode base;
     rs_debug_disable_pixel_depth_test := rs_debug_disable_pixel_depth_test base;
     rs_blendfunc := rs_blendfunc base |}.

(** [struct rstate_opaque] of 08_TightMem: [bci_mode] is
    [rstate_bcimode_noperspective]. *)
Definition rstate_opaque_noperspective {P} (cfg : rasterizer_memory_cfg)
  : render_state P :=
  let base := @rasterizer_psc_base P in
  {| rs_depth_format := depth_format cfg;
     rs_depth_func := rs_depth_func base;
     rs_depth_write := rs_depth_write base;
     rs_tbfc_mode := rs_tbfc_mode base;
     rs_bci_mode := rstate_bcimode_noperspective;
     rs_debug_disable_pixel_depth_test := rs_debug_disable_pixel_depth_test base;
     rs_blendfunc := rs_blendfunc base |}.

(** [struct rstate_cluster_overdraw: rasterizer_psc_base] (07): depth test
    and writes stay on, back-face culling is off, the debug flag is set and
    render target 0 blends with [blendfunc_add]. *)
Definition rstate_cluster_overdraw {P} (blendfunc_add : P -> P -> P)
    (cfg : rasterizer_memory_cfg) : render_state P :=
  let base := @rasterizer_psc_base P in
  {| rs_depth_format := depth_format cfg;
     rs_depth_func := rs_depth_func base;
     rs_depth_write := rs_depth_write base;
     rs_tbfc_mode := rstate_tbfc_none;
     rs_bci_mode := rs_bci_mode base;
     rs_debug_disable_pixel_depth_test := true;
     rs_blendfunc := blendfunc_add |}.

(** [struct rstate_gauge_needle: rasterizer_psc_base] (05): only the
    back-face culling is switched off. *)
Definition rstate_gauge_needle {P} : render_state P :=
  let base := @rasterizer_psc_base P in
  {| rs_depth_format := rs_depth_format base;
     rs_depth_func := rs_depth_func base;
     rs_depth_write := rs_depth_write base;
     rs_tbfc_mode := rstate_tbfc_none;
     rs_bci_mode := rs_bci_mode base;
     rs_debug_disable_pixel_depth_test := rs_debug_disable_pixel_depth_test base;
     rs_blendfunc := rs_blendfunc base |}.

(** The same render state with the debug flag put to [b]. *)
Definition with_debug_flag {P} (b : bool) (rs : render_state P) : render_state P :=
  {| rs_depth_format := rs_depth_format rs;
     rs_depth_func := rs_depth_func rs;
     rs_depth_write := rs_depth_write rs;
     rs_tbfc_mode := rs_tbfc_mode rs;
     rs_bci_mode := rs_bci_mode rs;
     rs_debug_disable_pixel_depth_test := b;
     rs_blendfunc := rs_blendfunc rs |}.

(** ** Geometry, triangle setup and interpolation *)

(** A post-transform position as the rasterizer uses it: pixel
    coordinates, a depth in units of the depth format, and the clip space
    [w] for perspective correction. *)
Record spos := mk_spos { sx : Z; sy : Z; sz : Z; sw : Q }.

(** Screen-space bounds of a cluster: the pixels [bx0 <= x < bx1],
    [by0 <= y < by1] and the depths [bz0 <= z <= bz1]. *)
Record sbounds := mk_sbounds {
  bx0 : Z; by0 : Z; bx1 : Z; by1 : Z; bz0 : Z; bz1 : Z;
}.

(** An object-space bounding sphere and a visibility cone (axis and
    half-angle), as the offline tool stores them with a cluster. *)
Record bvol := mk_bvol { bv_x : Z; bv_y : Z; bv_z : Z; bv_radius : Z }.
Record vcone := mk_vcone { vc_x : Z; vc_y : Z; vc_z : Z; vc_half_angle : Z }.

(** Modelled from the spec: the cluster records of [p3g_mesh] are in the
    library.  Section 3: a bounded set of vertices, triangles that index
    into these vertices only, a bounding volume and an optional visibility
    cone.  The indices are kept flat, three per triangle, like
    [s_needle_indices]. *)
Record cluster (V : Type) := mk_cluster {
  cl_vertices : list V;
  cl_indices : list nat;
  cl_bvol : bvol;
  cl_vcone : option vcone;
}.
Arguments mk_cluster {V} _ _ _ _.
Arguments cl_vertices {V} _.
Arguments cl_indices {V} _.
Arguments cl_bvol {V} _.
Arguments cl_vcone {V} _.

Fixpoint triangles (idx : list nat) : list (nat * nat * nat) :=
  match idx with
  | a :: b :: c :: rest => (a, b, c) :: triangles rest
  | _ => []
  end.

(** The edge function of [a], [b] at the pixel [p]. *)
Definition edge (ax ay bx by_ px py : Z) : Z :=
  (bx - ax) * (py - ay) - (by_ - ay) * (px - ax).

(** The three edge functions of a triangle at a pixel; their sum is twice
    the signed area. *)
Definition tri_edges (p0 p1 p2 : spos) (px py : Z) : Z * Z * Z :=
  (edge (sx p1) (sy p1) (sx p2) (sy p2) px py,
   edge (sx p2) (sy p2) (sx p0) (sy p0) px py,
   edge (sx p0) (sy p0) (sx p1) (sy p1) px py).

(** Coverage and back-face culling.  [rstate_tbfc_ccw] keeps the
    triangles of positive signed area, [rstate_tbfc_cw] those of negative
    area, [rstate_tbfc_none] both. *)
Definition tri_cover (mode : e_rstate_tbfc) (e0 e1 e2 : Z) : bool :=
  let a := e0 + e1 + e2 in
  let pos := (0 <? a) && (0 <=? e0) && (0 <=? e1) && (0 <=? e2) in
  let neg := (a <? 0) && (e0 <=? 0) && (e1 <=? 0) && (e2 <=? 0) in
  match mode with
  | rstate_tbfc_none => pos || neg
  | rstate_tbfc_ccw => pos
  | rstate_tbfc_cw => neg
  end.

(** The depth of the fragment: the vertex depths weighted by the edge
    functions, in units of the depth format. *)
Definition tri_depth (p0 p1 p2 : spos) (e0 e1 e2 : Z) : Z :=
  (e0 * sz p0 + e1 * sz p1 + e2 * sz p2) / (e0 + e1 + e2).

(** Barycentric coordinates handed to the pixel shader.  Linear: the edge
    functions over the area.  Perspective correct: each weight over its
    [w], renormalised with one division per pixel. *)
Definition bc_noperspective (e0 e1 e2 : Z) : vec3 Q :=
  let a := inject_Z (e0 + e1 + e2) in
  mk_vec3 (inject_Z e0 / a)%Q (inject_Z e1 / a)%Q (inject_Z e2 / a)%Q.

Definition bc_perspective (e0 e1 e2 : Z) (w0 w1 w2 : Q) : vec3 Q :=
  let q0 := (inject_Z e0 / w0)%Q in
  let q1 := (inject_Z e1 / w1)%Q in
  let q2 := (inject_Z e2 / w2)%Q in
  let rcp := (/ (q0 + q1 + q2))%Q in
  mk_vec3 (q0 * rcp)%Q (q1 * rcp)%Q (q2 * rcp)%Q.

Definition barycentric (mode : e_rstate_bcimode) (p0 p1 p2 : spos)
    (e0 e1 e2 : Z) : vec3 Q :=
  match mode with
  | rstate_bcimode_noperspective => bc_noperspective e0 e1 e2
  | rstate_bcimode_perspective =>
      bc_perspective e0 e1 e2 (sw p0) (sw p1) (sw p2)
  end.

(** ** Pipeline state objects *)

(** Modelled from the spec: [psc_p3g_mesh] and [psc_geometry_cluster] are
    in the library.  Section 3: a PSO bundles a render state, a vertex
    shader, a pixel shader, a transform and the clusters of the bound
    segment; the PSC knows how to cull the clusters against the camera.
    The transform is what [pso_project] (bounding volume to screen-space
    bounds), [pso_vcone_excludes] (is the view outside the cone) and the
    vertex shader apply.  [pso_ptv_size] is [sizeof(psin)]. *)
Record pso (P : Type) := mk_pso {
  pso_vtx : Type;
  pso_psin : Type;
  pso_rstate : render_state P;
  pso_geometry : list (cluster pso_vtx);
  pso_project : bvol -> sbounds;
  pso_vcone_excludes : vcone -> bool;
  pso_vshader : pso_vtx -> Z -> pso_psin;
  pso_pos : pso_psin -> spos;
  pso_ptv_size : nat;
  pso_pshader : rasterizer_pixel_out P -> pso_psin -> pso_psin -> pso_psin ->
                vec3 Q -> Z -> rasterizer_pixel_out P;
}.
Arguments mk_pso {P} _ _ _ _ _ _ _ _ _ _.
Arguments pso_vtx {P} _.
Arguments pso_psin {P} _.
Arguments pso_rstate {P} _.
Arguments pso_geometry {P} _.
Arguments pso_project {P} _ _.
Arguments pso_vcone_excludes {P} _ _.
Arguments pso_vshader {P} _ _ _.
Arguments pso_pos {P} _ _.
Arguments pso_ptv_size {P} _.
Arguments pso_pshader {P} _ _ _ _ _ _ _.

(** The same PSO under another render state. *)
Definition pso_with_rstate {P} (rs : render_state P) (p : pso P) : pso P :=
  {| pso_vtx := pso_vtx p;
     pso_psin := pso_psin p;
     pso_rstate := rs;
     pso_geometry := pso_geometry p;
     pso_project := pso_project p;
     pso_vcone_excludes := pso_vcone_excludes p;
     pso_vshader := pso_vshader p;
     pso_pos := pso_pos p;
     pso_ptv_size := pso_ptv_size p;
     pso_pshader := pso_pshader p |}.

(** ** Engine state *)

(** The Hi-Z summary of a tile: the smallest and the largest depth in its
    depth buffer. *)
Definition hiz_of (depth : list Z) : Z * Z :=
  match depth with
  | [] => (0, 0)
  | d :: rest => (foldr Z.min d rest, foldr Z.max d rest)
  end.

(** Modelled from the spec: the tile structures are in the library.
    By section 3: a tile owns an intermediate color buffer, a depth buffer
    region, a Hi-Z summary and its cluster strips (each strip a bounded
    batch of cluster references).  [t_shaded] counts the pixel shader
    invocations of the frame. *)
Record tile (P : Type) := mk_tile {
  t_rt0 : list P;
  t_depth : list Z;
  t_hiz : Z * Z;
  t_strips : list (list nat);
  t_shaded : nat;
}.
Arguments mk_tile {P} _ _ _ _ _.
Arguments t_rt0 {P} _.
Arguments t_depth {P} _.
Arguments t_hiz {P} _.
Arguments t_strips {P} _.
Arguments t_shaded {P} _.

(** The cluster references bound to a tile, in rasterization order. *)
Definition tile_clusters {P} (t : tile P) : list nat := concat (t_strips t).

(** High-water marks for [log_rasterizer_stats] (section 4.1). *)
Record rasterizer_stats := mk_stats {
  stat_max_dispatches : nat;
  stat_max_clusters : nat;
  stat_max_cluster_strips : nat;
  stat_max_ptv_buffer_size : nat;
}.

(** Modelled from the spec: [rasterizer_memory] and the rasterizer state
    of the device are in the library.  Sections 3 and 4: the arena owns the
    tiles, the PSO store, the table of binned clusters (dispatch index and
    cluster index) and the strip pool; the counters are per frame. *)
Record rasterizer (P D : Type) := mk_rasterizer {
  r_cfg : rasterizer_memory_cfg;
  r_build : e_build;
  r_dev : graphics_device D;
  r_clear_depth : Z;
  r_clear_color : P;
  r_tiles : list (tile P);
  r_dispatches : list (pso P);
  r_clusters : list (nat * nat);
  r_num_strips : nat;
  r_stats : rasterizer_stats;
}.
Arguments mk_rasterizer {P D} _ _ _ _ _ _ _ _ _ _.
Arguments r_cfg {P D} _.
Arguments r_build {P D} _.
Arguments r_dev {P D} _.
Arguments r_clear_depth {P D} _.
Arguments r_clear_color {P D} _.
Arguments r_tiles {P D} _.
Arguments r_dispatches {P D} _.
Arguments r_clusters {P D} _.
Arguments r_num_strips {P D} _.
Arguments r_stats {P D} _.

(** ** The tile grid *)

Definition cdiv (a b : Z) : Z := (a + b - 1) / b.

(** The integers [a, a+1, ..., b]. *)
Definition zrange (a b : Z) : list Z :=
  map (fun i => a + Z.of_nat i) (seq 0 (Z.to_nat (b - a + 1))).

(** Bit interleaving of the low [n] bits of [x] and [y] (Morton code). *)
Fixpoint interleave (n : nat) (x y : Z) : Z :=
  match n with
  | O => 0
  | S n' =>
      Z.land x 1 + 2 * Z.land y 1
      + 4 * interleave n' (Z.shiftr x 1) (Z.shiftr y 1)
  end.

Section Grid.
Context (cfg : rasterizer_memory_cfg) {D : Type} (dev : graphics_device D).

Definition tiles_x : Z := cdiv (fb_width dev) (tile_width cfg).
Definition tiles_y : Z := cdiv (fb_height dev) (tile_height cfg).
Definition num_tiles : nat := Z.to_nat (tiles_x * tiles_y).
Definition tile_pixels : nat := Z.to_nat (tile_width cfg * tile_height cfg).

Definition tile_id (tx ty : Z) : nat := Z.to_nat (ty * tiles_x + tx).
Definition tile_tx (tid : nat) : Z := Z.of_nat tid mod tiles_x.
Definition tile_ty (tid : nat) : Z := Z.of_nat tid / tiles_x.

(** The screen pixel of offset [off] in tile [tid]. *)
Definition tile_px (tid off : nat) : Z :=
  tile_tx tid * tile_width cfg + Z.of_nat off mod tile_width cfg.
Definition tile_py (tid off : nat) : Z :=
  tile_ty tid * tile_height cfg + Z.of_nat off / tile_width cfg.

(** The tile and the offset of a screen pixel. *)
Definition tile_of_pixel (x y : Z) : nat :=
  tile_id (x / tile_width cfg) (y / tile_height cfg).
Definition offset_of_pixel (x y : Z) : nat :=
  Z.to_nat ((y mod tile_height cfg) * tile_width cfg + x mod tile_width cfg).

Definition morton (tid : nat) : Z := interleave 16 (tile_tx tid) (tile_ty tid).

(** The order in which [commit] visits the tiles. *)
Definition tile_sequence : list nat :=
  match tile_order cfg with
  | tileorder_linear => seq 0 num_tiles
  | tileorder_morton =>
      @merge_sort nat (fun a b => morton a <= morton b)
        (fun a b => decide (morton a <= morton b)) (seq 0 num_tiles)
  end.

(** The tiles a cluster's screen-space bounds overlap, row by row. *)
Definition tiles_overlapped (b : sbounds) : list nat :=
  let tx0 := Z.max 0 (bx0 b / tile_width cfg) in
  let tx1 := Z.min (tiles_x - 1) ((bx1 b - 1) / tile_width cfg) in
  let ty0 := Z.max 0 (by0 b / tile_height cfg) in
  let ty1 := Z.min (tiles_y - 1) ((by1 b - 1) / tile_height cfg) in
  flat_map (fun ty => map (fun tx => tile_id tx ty) (zrange tx0 tx1))
           (zrange ty0 ty1).

(** (a) of section 4.2: the bounds lie fully outside the view volume,
    which in screen space is the display and the depth range of the
    depth format: on some axis the bounds and the view volume have
    nothing in common. *)
Definition frustum_culled (b : sbounds) : bool :=
  (Z.min (fb_width dev) (bx1 b) <=? Z.max 0 (bx0 b))
  || (Z.min (fb_height dev) (by1 b) <=? Z.max 0 (by0 b))
  || (Z.min (depth_max (depth_format cfg)) (bz1 b) <? Z.max 0 (bz0 b)).
End Grid.

(** The same on points: what it is for bounds to have a point in the view
    volume, and to share a pixel with a tile. *)
Definition in_bounds (b : sbounds) (x y z : Z) : Prop :=
  bx0 b <= x < bx1 b /\ by0 b <= y < by1 b /\ bz0 b <= z <= bz1 b.

Definition in_view (cfg : rasterizer_memory_cfg) {D} (dev : graphics_device D)
    (x y z : Z) : Prop :=
  0 <= x < fb_width dev /\ 0 <= y < fb_height dev /\
  0 <= z <= depth_max (depth_format cfg).

Definition outside_frustum (cfg : rasterizer_memory_cfg) {D}
    (dev : graphics_device D) (b : sbounds) : Prop :=
  forall x y z, in_bounds b x y z -> ~ in_view cfg dev x y z.

Definition in_tile (cfg : rasterizer_memory_cfg) (tx ty x y : Z) : Prop :=
  tx * tile_width cfg <= x < (tx + 1) * tile_width cfg /\
  ty * tile_height cfg <= y < (ty + 1) * tile_height cfg.

Definition bounds_overlap_tile (cfg : rasterizer_memory_cfg) (b : sbounds)
    (tx ty : Z) : Prop :=
  exists x y, bx0 b <= x < bx1 b /\ by0 b <= y < by1 b /\ in_tile cfg tx ty x y.

(** ** Per-fragment work: depth test, pixel shader, blend, depth write *)

Definition depth_test_enabled {P} (rs : render_state P) : bool :=
  match rs_depth_format rs with
  | depthfmt_none => false
  | _ => true
  end.

(** The configured comparison of the fragment depth [z] against the depth
    buffer value [d]. *)
Definition depth_cmp (f : e_rstate_depthfunc) (z d : Z) : bool :=
  match f with
  | rstate_depthfunc_less => z <? d
  | rstate_depthfunc_greater => d <? z
  end.

Definition depth_pass {P} (rs : render_state P) (z d : Z) : bool :=
  if depth_test_enabled rs then depth_cmp (rs_depth_func rs) z d else true.

Record fragment_result (P : Type) := mk_fragment_result {
  fr_color : P;       (* render target 0 after the fragment *)
  fr_depth : Z;       (* depth buffer after the fragment *)
  fr_shaded : bool;   (* was the pixel shader invoked *)
}.
Arguments mk_fragment_result {P} _ _ _.
Arguments fr_color {P} _.
Arguments fr_depth {P} _.
Arguments fr_shaded {P} _.

(** Modelled from the spec: the inner loop of the rasterizer is in the
    library.  Section 4.3 steps 3 and 4: the depth test gates the pixel
    shader; on a pass the shader runs, its color is blended into the
    render target and the depth buffer is updated; the debug flag opens the
    gate for the shader only.  [ps] is the bound pixel shader applied to
    the interpolation inputs of this fragment. *)
Definition raster_fragment {P} (rs : render_state P)
    (ps : rasterizer_pixel_out P -> rasterizer_pixel_out P)
    (z : Z) (c : P) (d : Z) : fragment_result P :=
  let pass := depth_pass rs z d in
  let run := pass || rs_debug_disable_pixel_depth_test rs in
  {| fr_color :=
       if run then po_rt0 (ps (pixel_out_begin (rs_blendfunc rs) c)) else c;
     fr_depth :=
       if pass && depth_test_enabled rs && rs_depth_write rs then z else d;
     fr_shaded := run |}.

(** ** The engine: init, clear_depth, dispatch_pso, commit *)

Section Engine.
Context {P D : Type}.

#[local] Abbreviation state := (rasterizer P D).

Definition set_dev (s : state) (dev : graphics_device D) : state :=
  mk_rasterizer (r_cfg s) (r_build s) dev (r_clear_depth s)
    (r_clear_color s) (r_tiles s) (r_dispatches s) (r_clusters s)
    (r_num_strips s) (r_stats s).
Definition set_clear_depth (s : state) (d : Z) : state :=
  mk_rasterizer (r_cfg s) (r_build s) (r_dev s) d
    (r_clear_color s) (r_tiles s) (r_dispatches s) (r_clusters s)
    (r_num_strips s) (r_stats s).
Definition set_tiles (s : state) (ts : list (tile P)) : state :=
  mk_rasterizer (r_cfg s) (r_build s) (r_dev s) (r_clear_depth s)
    (r_clear_color s) ts (r_dispatches s) (r_clusters s)
    (r_num_strips s) (r_stats s).
Definition set_dispatches (s : state) (ds : list (pso P)) : state :=
  mk_rasterizer (r_cfg s) (r_build s) (r_dev s) (r_clear_depth s)
    (r_clear_color s) (r_tiles s) ds (r_clusters s)
    (r_num_strips s) (r_stats s).
Definition set_clusters (s : state) (cs : list (nat * nat)) : state :=
  mk_rasterizer (r_cfg s) (r_build s) (r_dev s) (r_clear_depth s)
    (r_clear_color s) (r_tiles s) (r_dispatches s) cs
    (r_num_strips s) (r_stats s).
Definition set_num_strips (s : state) (n : nat) : state :=
  mk_rasterizer (r_cfg s) (r_build s) (r_dev s) (r_clear_depth s)
    (r_clear_color s) (r_tiles s) (r_dispatches s) (r_clusters s)
    n (r_stats s).
Definition set_stats (s : state) (st : rasterizer_stats) : state :=
  mk_rasterizer (r_cfg s) (r_build s) (r_dev s) (r_clear_depth s)
    (r_clear_color s) (r_tiles s) (r_dispatches s) (r_clusters s)
    (r_num_strips s) st.

(** *** Tiles *)

Definition tile_with_strips (t : tile P) (st : list (list nat)) : tile P :=
  mk_tile (t_rt0 t) (t_depth t) (t_hiz t) st (t_shaded t).

(** A tile in its cleared state. *)
Definition cleared_tile (cfg : rasterizer_memory_cfg) (color : P) (d : Z)
  : tile P :=
  let depth := replicate (tile_pixels cfg) d in
  mk_tile (replicate (tile_pixels cfg) color) depth (hiz_of depth) [] 0.

(** Modelled from the spec: [rasterizer_memory::init] is in the library.
    By section 4.1: [init(device)] carves every buffer from the
    configuration and binds the arena to the device. *)
Definition init (cfg : rasterizer_memory_cfg) (build : e_build)
    (dev : graphics_device D) (clear_color : P) : state :=
  mk_rasterizer cfg build dev 0 clear_color
    (replicate (num_tiles cfg dev) (cleared_tile cfg clear_color 0))
    [] [] 0 (mk_stats 0 0 0 0).

Definition clear_depth_value (cfg : rasterizer_memory_cfg)
    (v : e_clear_depth) : Z :=
  match v with
  | cleardepth_min => 0
  | cleardepth_max => depth_max (depth_format cfg)
  end.

(** Modelled from the spec: [clear_depth] is a member of the device.  It
    fills the depth buffer of every tile and remembers the value for the
    clears that follow a tile. *)
Definition clear_depth (s : state) (v : e_clear_depth) : state :=
  let d := clear_depth_value (r_cfg s) v in
  let depth := replicate (tile_pixels (r_cfg s)) d in
  set_clear_depth
    (set_tiles s
       (map (fun t => mk_tile (t_rt0 t) depth (hiz_of depth) (t_strips t)
                        (t_shaded t))
            (r_tiles s)))
    d.

(** *** dispatch_pso: culling and binning *)

(** Appending a cluster reference to a strip list: into the last strip
    while it has room, into a fresh strip otherwise.  The flag tells
    whether a strip was taken from the pool. *)
Definition strips_push (cap : nat) (k : nat) (strips : list (list nat))
  : list (list nat) * bool :=
  match last strips with
  | Some st =>
      if (length st <? cap)%nat
      then (removelast strips ++ [st ++ [k]], false)
      else (strips ++ [[k]], true)
  | None => (strips ++ [[k]], true)
  end.

(** One (cluster, tile) association. *)
Definition bin_to_tile (k : nat) (s : state) (tid : nat) : outcome state :=
  match r_tiles s !! tid with
  | None => Undefined
  | Some t =>
      let '(strips, fresh) :=
        strips_push (num_strip_clusters (r_cfg s)) k (t_strips t) in
      let s' := set_tiles s (<[tid := tile_with_strips t strips]> (r_tiles s)) in
      if fresh then
        capacity_check (r_build s) limit_cluster_strips
          (r_num_strips s <? max_cluster_strips (r_cfg s))%nat
          (Ok (set_num_strips s' (S (r_num_strips s))))
      else Ok s'
  end.

(** (c) of section 4.2: the bounds against the Hi-Z summary of one tile.
    No fragment at or behind the farthest stored depth can pass the
    [less] test, none at or before the nearest the [greater] test. *)
Definition hiz_occludes (rs : render_state P) (b : sbounds) (t : tile P)
  : bool :=
  match rs_depth_func rs with
  | rstate_depthfunc_less => snd (t_hiz t) <=? bz0 b
  | rstate_depthfunc_greater => bz1 b <=? fst (t_hiz t)
  end.

Definition occlusion_culled (s : state) (rs : render_state P) (b : sbounds)
  : bool :=
  depth_hiz (r_cfg s) && depth_test_enabled rs
  && forallb (fun tid =>
                match r_tiles s !! tid with
                | Some t => hiz_occludes rs b t
                | None => true
                end)
             (tiles_overlapped (r_cfg s) (r_dev s) b).

(** Does the cluster with bounding volume [bv] and cone [vc] survive the
    three rejections? *)
Definition cluster_survives (s : state) (p : pso P) (bv : bvol)
    (vc : option vcone) : bool :=
  let b := pso_project p bv in
  negb (frustum_culled (r_cfg s) (r_dev s) b)
  && negb (match vc with Some c => pso_vcone_excludes p c | None => false end)
  && negb (occlusion_culled s (pso_rstate p) b).

(** One cluster of the dispatch with index [d]. *)
Definition bin_cluster (d : nat) (p : pso P) (s : state)
    (ic : nat * cluster (pso_vtx p)) : outcome state :=
  let '(ci, c) := ic in
  if cluster_survives s p (cl_bvol c) (cl_vcone c) then
    capacity_check (r_build s) limit_clusters
      (length (r_clusters s) <? max_clusters (r_cfg s))%nat
      (let k := length (r_clusters s) in
       ofold (bin_to_tile k)
         (tiles_overlapped (r_cfg s) (r_dev s) (pso_project p (cl_bvol c)))
         (set_clusters s (r_clusters s ++ [(d, ci)])))
  else Ok s.

(** The PTV buffer a cluster needs: its vertices times [sizeof(psin)]. *)
Definition ptv_need (p : pso P) (c : cluster (pso_vtx p)) : nat :=
  (length (cl_vertices c) * pso_ptv_size p)%nat.

(** The high-water marks after a dispatch; a retail build keeps none. *)
Definition note_dispatch (p : pso P) (s : state) : state :=
  if checks_enabled (r_build s) then
    set_stats s
      (mk_stats
         (Nat.max (stat_max_dispatches (r_stats s)) (length (r_dispatches s)))
         (Nat.max (stat_max_clusters (r_stats s)) (length (r_clusters s)))
         (Nat.max (stat_max_cluster_strips (r_stats s)) (r_num_strips s))
         (foldr Nat.max (stat_max_ptv_buffer_size (r_stats s))
                (map (ptv_need p) (pso_geometry p))))
  else s.

(** Modelled from the spec: [dispatch_pso] is a member of the device.
    By section 4.2: the PSO is stored, every cluster of the segment is
    culled or binned, the counters are updated; nothing is rasterized. *)
Definition dispatch_pso (s : state) (p : pso P) : outcome state :=
  capacity_check (r_build s) limit_dispatches
    (length (r_dispatches s) <? max_dispatches (r_cfg s))%nat
    (let d := length (r_dispatches s) in
     do s' <- ofold (bin_cluster d p)
                (zip (seq 0 (length (pso_geometry p))) (pso_geometry p))
                (set_dispatches s (r_dispatches s ++ [p]));
     Ok (note_dispatch p s')).

(** *** commit: rasterization, tile shader, transfer, reset *)

(** Step 1 of section 4.3: the vertices of a cluster go through the
    vertex shader into the PTV buffer, which has to hold them. *)
Definition transform_cluster (s : state) (p : pso P)
    (c : cluster (pso_vtx p)) : outcome (list (pso_psin p)) :=
  capacity_check (r_build s) limit_ptv_buffer
    (ptv_need p c <=? max_ptv_buffer_size (r_cfg s))%nat
    (Ok (imap (fun i v => pso_vshader p v (Z.of_nat i)) (cl_vertices c))).

(** The result of a fragment goes into the tile at offset [off]; with
    Hi-Z on, the summary follows the depth buffer. *)
Definition tile_store (hiz : bool) (t : tile P) (off : nat)
    (fr : fragment_result P) : tile P :=
  let depth := <[off := fr_depth fr]> (t_depth t) in
  mk_tile (<[off := fr_color fr]> (t_rt0 t)) depth
    (if hiz then hiz_of depth else t_hiz t)
    (t_strips t)
    (if fr_shaded fr then S (t_shaded t) else t_shaded t).

(** Steps 2 to 4 at the pixel [(x, y)]: triangle setup, coverage, the
    barycentric coordinates and the depth of the fragment, then the
    fragment itself against the color [c] and the depth [d] stored for
    the pixel.  No result when the triangle does not cover the pixel. *)
Definition fragment_at (p : pso P) (v0 v1 v2 : pso_psin p) (prim : Z)
    (x y : Z) (c : P) (d : Z) : option (fragment_result P) :=
  let rs := pso_rstate p in
  let p0 := pso_pos p v0 in
  let p1 := pso_pos p v1 in
  let p2 := pso_pos p v2 in
  let '(e0, e1, e2) := tri_edges p0 p1 p2 x y in
  if tri_cover (rs_tbfc_mode rs) e0 e1 e2 then
    let bc := barycentric (rs_bci_mode rs) p0 p1 p2 e0 e1 e2 in
    Some (raster_fragment rs (fun po => pso_pshader p po v0 v1 v2 bc prim)
            (tri_depth p0 p1 p2 e0 e1 e2) c d)
  else None.

(** One pixel of the tile. *)
Definition raster_pixel (cfg : rasterizer_memory_cfg)
    (dev : graphics_device D) (tid : nat) (p : pso P)
    (v0 v1 v2 : pso_psin p) (prim : Z) (t : tile P) (off : nat) : tile P :=
  match t_rt0 t !! off, t_depth t !! off with
  | Some c, Some d =>
      match fragment_at p v0 v1 v2 prim
              (tile_px cfg dev tid off) (tile_py cfg dev tid off) c d with
      | Some fr => tile_store (depth_hiz cfg) t off fr
      | None => t
      end
  | _, _ => t
  end.

Definition rasterize_triangle (cfg : rasterizer_memory_cfg)
    (dev : graphics_device D) (tid : nat) (p : pso P)
    (v0 v1 v2 : pso_psin p) (prim : Z) (t : tile P) : tile P :=
  fold_left (raster_pixel cfg dev tid p v0 v1 v2 prim)
            (seq 0 (tile_pixels cfg)) t.

(** One triangle of a transformed cluster; its indices have to point
    into the cluster's own vertices. *)
Definition rasterize_indexed (cfg : rasterizer_memory_cfg)
    (dev : graphics_device D) (tid : nat) (p : pso P)
    (ptv : list (pso_psin p)) (t : tile P)
    (it : nat * (nat * nat * nat)) : outcome (tile P) :=
  let '(prim, (i0, i1, i2)) := it in
  match ptv !! i0, ptv !! i1, ptv !! i2 with
  | Some v0, Some v1, Some v2 =>
      Ok (rasterize_triangle cfg dev tid p v0 v1 v2 (Z.of_nat prim) t)
  | _, _, _ => Undefined
  end.

Definition rasterize_geometry (s : state) (tid : nat) (p : pso P)
    (c : cluster (pso_vtx p)) (t : tile P) : outcome (tile P) :=
  do ptv <- transform_cluster s p c;
  let tris := triangles (cl_indices c) in
  ofold (rasterize_indexed (r_cfg s) (r_dev s) tid p ptv)
        (zip (seq 0 (length tris)) tris) t.

(** One entry of a strip: find the PSO and the cluster it refers to. *)
Definition rasterize_cluster (s : state) (tid : nat) (t : tile P) (k : nat)
  : outcome (tile P) :=
  match r_clusters s !! k with
  | None => Undefined
  | Some (d, ci) =>
      match r_dispatches s !! d with
      | None => Undefined
      | Some p =>
          match pso_geometry p !! ci with
          | None => Undefined
          | Some c => rasterize_geometry s tid p c t
          end
      end
  end.

(** Walk the strips of a tile. *)
Definition rasterize_tile (s : state) (tid : nat) (t : tile P)
  : outcome (tile P) :=
  ofold (rasterize_cluster s tid) (tile_clusters t) t.

(** A tile shader, [exec(res_, rts_, depth, src_px_offs_, x_, y_)], as
    the display pixel it produces. *)
Definition tile_shader : Type := list P -> list Z -> nat -> Z -> Z -> D.

(** The format conversion of a tile pixel to the display format, used
    when no tile shader is given (pixel format layer of the library). *)
Context (convert : P -> D).

(** The display pixel of offset [off] of a finished tile: what the tile
    shader makes of it, or the converted tile pixel. *)
Definition transfer_value (tsh : option tile_shader) (t : tile P)
    (off : nat) (x y : Z) : option D :=
  match tsh with
  | Some f => Some (f (t_rt0 t) (t_depth t) off x y)
  | None => convert <$> t_rt0 t !! off
  end.

Definition transfer_pixel (tsh : option tile_shader)
    (cfg : rasterizer_memory_cfg) (tid : nat) (t : tile P)
    (dev : graphics_device D) (off : nat) : graphics_device D :=
  let x := tile_px cfg dev tid off in
  let y := tile_py cfg dev tid off in
  if on_screen dev x y then
    match transfer_value tsh t off x y with
    | Some v =>
        mk_device (fb_width dev) (fb_height dev)
          (<[fb_index dev x y := v]> (fb dev))
    | None => dev
    end
  else dev.

(** The finished tile goes to the display, pixel by pixel. *)
Definition transfer_tile (tsh : option tile_shader)
    (cfg : rasterizer_memory_cfg) (tid : nat) (t : tile P)
    (dev : graphics_device D) : graphics_device D :=
  fold_left (transfer_pixel tsh cfg tid t) (seq 0 (tile_pixels cfg)) dev.

(** The transient buffers of a tile after its transfer: color and strips
    always, depth unless it is retained. *)
Definition reset_tile (cfg : rasterizer_memory_cfg) (color : P) (d : Z)
    (t : tile P) : tile P :=
  let depth :=
    if depth_persistent cfg then t_depth t
    else replicate (tile_pixels cfg) d in
  mk_tile (replicate (tile_pixels cfg) color) depth
    (if depth_hiz cfg then hiz_of depth else t_hiz t) [] 0.

Definition commit_tile (tsh : option tile_shader) (s : state) (tid : nat)
  : outcome state :=
  match r_tiles s !! tid with
  | None => Undefined
  | Some t =>
      do t' <- rasterize_tile s tid t;
      Ok (set_dev
            (set_tiles s
               (<[tid := reset_tile (r_cfg s) (r_clear_color s)
                           (r_clear_depth s) t']> (r_tiles s)))
            (transfer_tile tsh (r_cfg s) tid t' (r_dev s)))
  end.

(** The per-frame bookkeeping after the last tile. *)
Definition end_frame (s : state) : state :=
  set_num_strips (set_clusters (set_dispatches s []) []) 0.

(** Modelled from the spec: [commit] is a member of the device.  Section
    4.3: every tile, in the configured order, is rasterized, run through
    the tile shader or the format conversion, transferred and reset;
    then the counters of the frame are cleared. *)
Definition commit (s : state) (tsh : option tile_shader) : outcome state :=
  do s' <- ofold (commit_tile tsh)
             (tile_sequence (r_cfg s) (r_dev s)) s;
  Ok (end_frame s').
End Engine.

Arguments bin_to_tile : simpl never.
Arguments bin_cluster : simpl never.
Arguments dispatch_pso : simpl never.
Arguments cluster_survives : simpl never.
Arguments tiles_overlapped : simpl never.
Arguments raster_pixel : simpl never.
Arguments rasterize_triangle : simpl never.
Arguments rasterize_indexed : simpl never.
Arguments rasterize_geometry : simpl never.
Arguments rasterize_cluster : simpl never.
Arguments rasterize_tile : simpl never.
Arguments transfer_pixel : simpl never.
Arguments transfer_tile : simpl never.
Arguments reset_tile : simpl never.
Arguments commit_tile : simpl never.
Arguments commit : simpl never.

(** ** A one-triangle PSO with the constant color shader *)

Definition min3 (a b c : Z) : Z := Z.min a (Z.min b c).
Definition max3 (a b c : Z) : Z := Z.max a (Z.max b c).

(** The screen-space box around a triangle. *)
Definition tri_bounds (p0 p1 p2 : spos) : sbounds :=
  {| bx0 := min3 (sx p0) (sx p1) (sx p2);
     by0 := min3 (sy p0) (sy p1) (sy p2);
     bx1 := max3 (sx p0) (sx p1) (sx p2) + 1;
     by1 := max3 (sy p0) (sy p1) (sy p2) + 1;
     bz0 := min3 (sz p0) (sz p1) (sz p2);
     bz1 := max3 (sz p0) (sz p1) (sz p2) |}.

Section Triangle.
Context {P : Type}.
Import MultiDispatch.

Definition vec4f : Type := (Q * Q * Q * Q)%type.

(** A cluster of one triangle; its bounding volume is not looked at,
    [triangle_pso] projects the vertices themselves. *)
Definition triangle_cluster (v0 v1 v2 : vec4f) : cluster (@ps_color_psin Q) :=
  mk_cluster [ {| pc_pos := v0 |}; {| pc_pos := v1 |}; {| pc_pos := v2 |} ]
             [0; 1; 2]%nat (mk_bvol 0 0 0 0) None.

(** A PSO as 03_MultiDispatch sets one up for the monkey's eyes, cut
    down to a cluster of one triangle: the pixel shader is [ps_color]
    with [color] as its color field, the vertex shader passes the
    positions [v0], [v1], [v2] through, and [to_screen] is the
    rasterizer's map from clip space to pixels and depth. *)
Definition triangle_pso (rs : render_state P) (to_screen : vec4f -> spos)
    (color : P) (v0 v1 v2 : vec4f) : pso P :=
  let psin := @ps_color_psin Q in
  let sh := {| MultiDispatch.color := color |} in
  {| pso_vtx := psin;
     pso_psin := psin;
     pso_rstate := rs;
     pso_geometry := [triangle_cluster v0 v1 v2];
     pso_project := fun _ =>
       tri_bounds (to_screen v0) (to_screen v1) (to_screen v2);
     pso_vcone_excludes := fun _ => false;
     pso_vshader := fun v _ => v;
     pso_pos := fun v => to_screen (pc_pos v);
     pso_ptv_size := 16;
     pso_pshader := fun po a b c bc prim =>
       ps_color_exec (fun c : P => c) sh po a b c bc prim |}.

(** Is the pixel covered by the triangle, and at which depth. *)
Definition covers (rs : render_state P) (p0 p1 p2 : spos) (x y : Z) : bool :=
  let '(e0, e1, e2) := tri_edges p0 p1 p2 x y in
  tri_cover (rs_tbfc_mode rs) e0 e1 e2.

Definition depth_at (p0 p1 p2 : spos) (x y : Z) : Z :=
  let '(e0, e1, e2) := tri_edges p0 p1 p2 x y in
  tri_depth p0 p1 p2 e0 e1 e2.
End Triangle.

(** The state in which the sketches enter their first frame: [init], then
    [clear_depth(cleardepth_max)]. *)
Definition start_frame {P D} (cfg : rasterizer_memory_cfg) (build : e_build)
    (dev : graphics_device D) (clear_color : P) : rasterizer P D :=
  clear_depth (init cfg build dev clear_color) cleardepth_max.

(** A frame of two dispatches, committed without a tile shader. *)
Definition two_dispatches {P D} (convert : P -> D) (s : rasterizer P D)
    (a b : pso P) : outcome (rasterizer P D) :=
  do s1 <- dispatch_pso s a;
  do s2 <- dispatch_pso s1 b;
  commit convert s2 None.

(** A small scene for evaluation: an 8 by 8 display of integer pixels cut
    into 4 by 4 tiles, 16 bit depth, and two overlapping triangles. *)
Module Scene.
Definition cfg : rasterizer_memory_cfg :=
  {| depth_format := depthfmt_uint16;
     depth_hiz := true;
     depth_persistent := false;
     max_dispatches := 2;
     pso_store_size := 256;
     max_pso_state_size := 128;
     tile_width := 4;
     tile_height := 4;
     tile_order := tileorder_morton;
     max_clusters := 4;
     max_cluster_strips := 8;
     num_strip_clusters := 2;
     max_ptv_buffer_size := 64;
     vcache_size := 0;
     max_dma_transfers := 0 |}.

Definition dev : graphics_device Z := mk_device 8 8 (replicate 64 0).

(** Positions already in pixels and depth units. *)
Definition to_screen (v : vec4f) : spos :=
  let '(x, y, z, w) := v in mk_spos (Qfloor x) (Qfloor y) (Qfloor z) w.

Definition at_ (x y z : Z) : vec4f := (inject_Z x, inject_Z y, inject_Z z, 1%Q).

Definition far_tri : pso Z :=
  triangle_pso (rstate_opaque cfg) to_screen 7
    (at_ 0 0 900) (at_ 7 0 900) (at_ 0 7 900).
Definition near_tri : pso Z :=
  triangle_pso (rstate_opaque cfg) to_screen 3
    (at_ 1 1 100) (at_ 6 1 500) (at_ 1 6 100).

Definition start (build : e_build) : rasterizer Z Z :=
  start_frame cfg build dev 0.

Definition frame (build : e_build) (a b : pso Z) : outcome (rasterizer Z Z) :=
  two_dispatches (fun c : Z => c) (start build) a b.

(** The far triangle moved off the display. *)
Definition hidden_tri : pso Z :=
  triangle_pso (rstate_opaque cfg) to_screen 7
    (at_ 20 0 900) (at_ 27 0 900) (at_ 20 7 900).
End Scene.

(** ** Comparing two runs *)

(** Two results of the same kind, with [R] between the returned values. *)
Definition outcome_rel {A B} (R : A -> B -> Prop) (o : outcome A)
    (o' : outcome B) : Prop :=
  match o, o' with
  | Ok a, Ok b => R a b
  | Fatal l, Fatal l' => l = l'
  | Undefined, Undefined => True
  | _, _ => False
  end.

(** The PSO with the debug flag of its render state put to [b], and a
    frame in which every dispatched PSO is changed that way. *)
Definition set_debug_flag {P} (b : bool) (p : pso P) : pso P :=
  pso_with_rstate (with_debug_flag b (pso_rstate p)) p.

Definition debug_all {P D} (b : bool) (s : rasterizer P D) : rasterizer P D :=
  set_dispatches s (map (set_debug_flag b) (r_dispatches s)).

(** Two tiles with the same depth side: depth buffer, Hi-Z summary, strips
    and buffer size. *)
Definition same_depth {P} (t t' : tile P) : Prop :=
  t_depth t = t_depth t' /\ t_hiz t = t_hiz t' /\
  t_strips t = t_strips t' /\ length (t_rt0 t) = length (t_rt0 t').

(** ** Vocabulary for the statements about binning *)

(** How a capacity fault shows, by build. *)
Definition capacity_fault {A} (b : e_build) (l : e_limit) : outcome A :=
  if checks_enabled b then Fatal l else Undefined.

Definition is_Ok {A} (o : outcome A) : Prop :=
  match o with
  | Ok _ => True
  | _ => False
  end.

(** The cluster references bound to tile [j]. *)
Definition clusters_at {P D} (s : rasterizer P D) (j : nat) : list nat :=
  match r_tiles s !! j with
  | Some t => tile_clusters t
  | None => []
  end.

(** Two tiles that differ in their strips only, and two states that differ
    in what binning writes only: strips, cluster table, strip counter. *)
Definition tile_ext {P} (t t' : tile P) : Prop :=
  t_rt0 t' = t_rt0 t /\ t_depth t' = t_depth t /\ t_hiz t' = t_hiz t /\
  t_shaded t' = t_shaded t.

Definition bin_frame {P D} (s s' : rasterizer P D) : Prop :=
  r_cfg s' = r_cfg s /\ r_build s' = r_build s /\ r_dev s' = r_dev s /\
  r_clear_depth s' = r_clear_depth s /\ r_clear_color s' = r_clear_color s /\
  r_dispatches s' = r_dispatches s /\ r_stats s' = r_stats s /\
  Forall2 tile_ext (r_tiles s) (r_tiles s').

(** The clusters of a PSO that pass the three rejections in state [s]. *)
Definition survivors {P D} (s : rasterizer P D) (p : pso P)
  : list (cluster (pso_vtx p)) :=
  filter (fun c => cluster_survives s p (cl_bvol c) (cl_vcone c) = true)
         (pso_geometry p).

(** The tiles the bounds of cluster [c] overlap, and survival as a
    predicate on an indexed cluster. *)
Definition overlapped {P D} (s : rasterizer P D) (p : pso P)
    (c : cluster (pso_vtx p)) : list nat :=
  tiles_overlapped (r_cfg s) (r_dev s) (pso_project p (cl_bvol c)).

Definition survives_in {P D} (s : rasterizer P D) (p : pso P)
    (ic : nat * cluster (pso_vtx p)) : Prop :=
  cluster_survives s p (cl_bvol (snd ic)) (cl_vcone (snd ic)) = true.

#[export] Instance survives_in_dec {P D} (s : rasterizer P D) (p : pso P)
    (ic : nat * cluster (pso_vtx p)) : Decision (survives_in s p ic) :=
  bool_eq_dec _ true.

(** The buffers of a state have the sizes the configuration gives them. *)
Definition state_wf {P D} (s : rasterizer P D) : Prop :=
  0 < tile_width (r_cfg s) /\ 0 < tile_height (r_cfg s) /\
  device_wf (r_dev s) /\
  length (r_tiles s) = num_tiles (r_cfg s) (r_dev s) /\
  Forall (fun t => length (t_rt0 t) = tile_pixels (r_cfg s) /\
                   length (t_depth t) = tile_pixels (r_cfg s)) (r_tiles s).

(** The cluster table refers to dispatches of this frame only. *)
Definition table_wf {P D} (s : rasterizer P D) : Prop :=
  Forall (fun e => (fst e < length (r_dispatches s))%nat) (r_clusters s).

(** The counters of the frame are within the configured capacities. *)
Definition within_capacity {P D} (s : rasterizer P D) : Prop :=
  (length (r_dispatches s) <= max_dispatches (r_cfg s))%nat /\
  (length (r_clusters s) <= max_clusters (r_cfg s))%nat /\
  (r_num_strips s <= max_cluster_strips (r_cfg s))%nat.

(** ** Vocabulary for the statements about rasterization *)

(** Color and depth of a pixel after one triangle, from the color and the
    depth before it. *)
Definition pixel_after {P} (p : pso P) (v0 v1 v2 : pso_psin p) (prim : Z)
    (x y : Z) (cd : P * Z) : P * Z :=
  match fragment_at p v0 v1 v2 prim x y (fst cd) (snd cd) with
  | Some fr => (fr_color fr, fr_depth fr)
  | None => cd
  end.

(** Color and depth stored at an offset of a tile. *)
Definition tile_pixel {P} (t : tile P) (off : nat) : option (P * Z) :=
  match t_rt0 t !! off, t_depth t !! off with
  | Some c, Some d => Some (c, d)
  | _, _ => None
  end.

(** The buffers of a tile have [n] pixels. *)
Definition tile_wf {P} (n : nat) (t : tile P) : Prop :=
  length (t_rt0 t) = n /\ length (t_depth t) = n.

(** Two states between which a tile rasterizes the same way. *)
Definition raster_same {P D} (s s' : rasterizer P D) : Prop :=
  r_cfg s' = r_cfg s /\ r_build s' = r_build s /\
  fb_width (r_dev s') = fb_width (r_dev s) /\
  r_dispatches s' = r_dispatches s /\ r_clusters s' = r_clusters s.

(** What the tile loop of [commit] leaves alone. *)
Definition commit_frame {P D} (s s' : rasterizer P D) : Prop :=
  r_cfg s' = r_cfg s /\ r_build s' = r_build s /\
  r_clear_depth s' = r_clear_depth s /\ r_clear_color s' = r_clear_color s /\
  r_dispatches s' = r_dispatches s /\ r_clusters s' = r_clusters s /\
  r_num_strips s' = r_num_strips s /\ r_stats s' = r_stats s /\
  fb_width (r_dev s') = fb_width (r_dev s) /\
  fb_height (r_dev s') = fb_height (r_dev s).

(** The tile [j] of state [s] rasterizes to [t']. *)
Definition tile_rasterizes_to {P D} (s : rasterizer P D) (j : nat)
    (t' : tile P) : Prop :=
  exists t, r_tiles s !! j = Some t /\ rasterize_tile s j t = Ok t'.

(** Does the triangle of a one-triangle PSO reach the tile [j]: its
    cluster survives the culling in state [s] and its bounds overlap the
    tile. *)
Definition triangle_reaches {P D} (s : rasterizer P D) (j : nat)
    (rs : render_state P) (to_screen : vec4f -> spos) (color : P)
    (v0 v1 v2 : vec4f) : bool :=
  let p := triangle_pso rs to_screen color v0 v1 v2 in
  cluster_survives s p (cl_bvol (triangle_cluster v0 v1 v2))
    (cl_vcone (triangle_cluster v0 v1 v2))
  && bool_decide (j ∈ overlapped s p (triangle_cluster v0 v1 v2)).

(** Color and depth of the pixel [(x, y)] after the triangle of a
    one-triangle PSO. *)
Definition triangle_pixel {P} (rs : render_state P)
    (to_screen : vec4f -> spos) (color : P) (v0 v1 v2 : vec4f)
    (x y : Z) (cd : P * Z) : P * Z :=
  pixel_after (triangle_pso rs to_screen color v0 v1 v2)
    {| MultiDispatch.pc_pos := v0 |} {| MultiDispatch.pc_pos := v1 |}
    {| MultiDispatch.pc_pos := v2 |} 0 x y cd.

(** ** Vocabulary for the statements about determinism *)

(** One frame of one PSO: [dispatch_pso], then [commit]. *)
Definition render {P D} (convert : P -> D) (tsh : option tile_shader)
    (s : rasterizer P D) (p : pso P) : outcome (rasterizer P D) :=
  do s1 <- dispatch_pso s p;
  commit convert s1 tsh.

(** Two engine states that give a frame the same inputs: they agree on
    everything but the pixels the display holds from earlier frames and
    the statistics. *)
Definition same_inputs {P D} (s s' : rasterizer P D) : Prop :=
  r_cfg s = r_cfg s' /\ r_build s = r_build s' /\
  fb_width (r_dev s) = fb_width (r_dev s') /\
  fb_height (r_dev s) = fb_height (r_dev s') /\
  r_clear_depth s = r_clear_depth s' /\ r_clear_color s = r_clear_color s' /\
  r_tiles s = r_tiles s' /\ r_dispatches s = r_dispatches s' /\
  r_clusters s = r_clusters s' /\ r_num_strips s = r_num_strips s'.

(** Two states after [commit] with the same output: the display and the
    tile buffers. *)
Definition same_output {P D} (s s' : rasterizer P D) : Prop :=
  r_dev s = r_dev s' /\ r_tiles s = r_tiles s'.

(** ** 00_HelloRect: loop, up to the library call *)

Module HelloRectLoop.

(** An [int16_t] holds its value modulo 2^16, between -32768 and 32767. *)
Definition to_int16 (v : Z) : Z := (v + 32768) mod 65536 - 32768.

(** The call
    [s_gfx_device.draw_rect(x, y, rect_width, rect_height, test_shader(x, y, s_frame))],
    as the arguments it passes. *)
Record draw_call := mk_draw_call {
  dc_x : Z;
  dc_y : Z;
  dc_width : Z;
  dc_height : Z;
  dc_shader : HelloRect.test_shader;
}.

(** One pass of [loop()] for a display of [fb_width] by [fb_height] pixels
    ([gfx_device_t::fb_width] and [gfx_device_t::fb_height]) and the value
    [s_frame] of the function's static counter: the [draw_rect] call it
    makes, and the counter after [++s_frame].  [/] on C++ integers
    truncates; [x] and [y] are [int16_t], [s_frame] is [uint8_t]. *)
Definition loop (fb_width fb_height : Z) (s_frame : Z) : draw_call * Z :=
  let x := to_int16 (Z.quot fb_width 2 - Z.quot HelloRect.rect_width 2) in
  let y := to_int16 (Z.quot fb_height 2 - Z.quot HelloRect.rect_height 2) in
  (mk_draw_call x y HelloRect.rect_width HelloRect.rect_height
     {| HelloRect.x := x; HelloRect.y := y; HelloRect.frame := s_frame |},
   HelloRect.to_uint8 (s_frame + 1)).

(** The first [n] passes of [loop()], as the runtime makes them one after
    the other: the [draw_rect] calls in order. *)
Fixpoint frames (fb_width fb_height : Z) (n : nat) (s_frame : Z)
  : list draw_call :=
  match n with
  | O => []
  | S n' =>
      let '(call, s_frame') := loop fb_width fb_height s_frame in
      call :: frames fb_width fb_height n' s_frame'
  end.

End HelloRectLoop.

(** ** 05_Speedometer: the needle geometry *)

Module SpeedometerNeedle.

(** [mem_copy(dst, src, num_bytes)] between two parts of one array that do
    not overlap, counted in elements: [n] elements from index [src] on go
    to index [dst] on. *)
Definition mem_copy {A} (arr : list A) (dst src n : nat) : list A :=
  foldl (fun a i =>
           match arr !! (src + i)%nat with
           | Some v => <[(dst + i)%nat := v]> a
           | None => a
           end)
        arr (seq 0 n).

(** The vertex indices of triangle [prim] of the indexed triangle list
    [s_needle_indices], as [set_geometry(s_needle_vertices, 8,
    s_needle_indices, 4)] hands it over. *)
Definition triangle_indices (prim : nat) : option (Z * Z * Z) :=
  match Speedometer.s_needle_indices !! (3 * prim)%nat,
        Speedometer.s_needle_indices !! (3 * prim + 1)%nat,
        Speedometer.s_needle_indices !! (3 * prim + 2)%nat with
  | Some a, Some b, Some c => Some (a, b, c)
  | _, _, _ => None
  end.

Section Needle.
Context {F : Type} `{Float F}.
(** The [float] operations [update_gauge_needle] uses beyond those of class
    [Float]: subtraction, unary minus, [cos], [sin], [lerp], and the value
    of a literal. *)
Context (fsub : F -> F -> F) (fneg : F -> F) (fcos fsin : F -> F).
Context (lerp : F -> F -> F -> F) (f_lit : Q -> F).
(** [s_tex_gauge_bg.width()], [s_tex_gauge_bg.height()],
    [s_tex_gauge_needle.width()], [s_tex_gauge_needle.height()]. *)
Context (bg_width bg_height needle_width needle_height : Z).

(** The vertices of triangle [prim] in the vertex array [vs]. *)
Definition needle_triangle (vs : list (@Speedometer.vertex_needle F))
    (prim : nat)
  : option (@Speedometer.vertex_needle F * @Speedometer.vertex_needle F
            * @Speedometer.vertex_needle F) :=
  match triangle_indices prim with
  | Some (a, b, c) =>
      match vs !! Z.to_nat a, vs !! Z.to_nat b, vs !! Z.to_nat c with
      | Some va, Some vb, Some vc => Some (va, vb, vc)
      | _, _, _ => None
      end
  | None => None
  end.

(** The four vertex positions [update_gauge_needle] computes for a
    normalized speed (the branch [ROTATE_90_DEGREES==0]): tip left, tip
    right, base left, base right. *)
Definition needle_quad (normalized_speed : F)
  : list (@Speedometer.vertex_needle F) :=
  let s_rcp_aspect_ratio := fdiv (f_of_Z bg_height) (f_of_Z bg_width) in
  let s_needle_center_pos := mk_vec2 (f_lit 0) (f_lit (-3 # 10)) in
  let s_needle_base_offset := f_lit (-233 # 1000) in
  let s_angle_speed_0 := f_lit (36 # 10) in
  let s_angle_speed_max := f_lit (-46 # 100) in
  let needle_half_width := fdiv (f_of_Z needle_width) (f_of_Z bg_width) in
  let needle_length :=
    fdiv (fmul (f_lit 2) (f_of_Z needle_height)) (f_of_Z bg_height) in
  let angle := lerp s_angle_speed_0 s_angle_speed_max normalized_speed in
  let cos_angle := fcos angle in
  let sin_angle := fsin angle in
  let needle_base :=
    mk_vec2 (fadd (v2x s_needle_center_pos) (fmul cos_angle s_needle_base_offset))
            (fadd (v2y s_needle_center_pos) (fmul sin_angle s_needle_base_offset)) in
  let needle_tip :=
    mk_vec2 (fadd (v2x needle_base) (fmul cos_angle needle_length))
            (fadd (v2y needle_base) (fmul sin_angle needle_length)) in
  let needle_right :=
    mk_vec2 (fmul sin_angle needle_half_width)
            (fmul (fneg cos_angle) needle_half_width) in
  let vertex (px py : F) : @Speedometer.vertex_needle F :=
    {| Speedometer.vn_pos := mk_vec2 px py |} in
  [ vertex (fmul (fsub (v2x needle_tip) (v2x needle_right)) s_rcp_aspect_ratio)
           (fsub (v2y needle_tip) (v2y needle_right));
    vertex (fmul (fadd (v2x needle_tip) (v2x needle_right)) s_rcp_aspect_ratio)
           (fadd (v2y needle_tip) (v2y needle_right));
    vertex (fmul (fsub (v2x needle_base) (v2x needle_right)) s_rcp_aspect_ratio)
           (fsub (v2y needle_base) (v2y needle_right));
    vertex (fmul (fadd (v2x needle_base) (v2x needle_right)) s_rcp_aspect_ratio)
           (fadd (v2y needle_base) (v2y needle_right)) ].

(** [update_gauge_needle], as what it does to [s_needle_vertices]: the
    vertices 0 to 3 are copied to 4 to 7, then the vertices 0 to 3 get
    the positions for the new speed.  (The dispatch and the commit that
    end the function read the array and leave it alone.) *)
Definition update_gauge_needle (normalized_speed : F)
    (s_needle_vertices : list (@Speedometer.vertex_needle F))
  : list (@Speedometer.vertex_needle F) :=
  let copied := mem_copy s_needle_vertices 4 0 4 in
  foldl (fun vs iv => <[fst iv := snd iv]> vs) copied
        (zip (seq 0 4) (needle_quad normalized_speed)).
End Needle.

End SpeedometerNeedle.

(** ** 02_RotoMonkey: the statistics log of loop *)

Module RotoMonkeyLoop.

(** The end of [loop()]:
    [static unsigned s_log_counter=0;
     if(s_log_counter==0) {s_gfx_device.log_rasterizer_stats(); s_log_counter=100;}],
    as whether the pass logs the statistics, and the counter it leaves.
    Nothing else in the sketch touches the counter. *)
Definition loop_log (s_log_counter : Z) : bool * Z :=
  if s_log_counter =? 0 then (true, 100) else (false, s_log_counter).

(** The first [n] passes of [loop()]: which of them log. *)
Fixpoint passes (n : nat) (s_log_counter : Z) : list bool :=
  match n with
  | O => []
  | S n' =>
      let '(logs, s_log_counter') := loop_log s_log_counter in
      logs :: passes n' s_log_counter'
  end.

End RotoMonkeyLoop.

(** ** 01_TexturedRects: test_shader and loop *)

Module TexturedRects.

(** The two texture address modes the sketch's samplers use. *)
Inductive e_texaddr := texaddr_wrap | texaddr_clamp.

Section Sketch.
Context {F : Type} `{Float F}.
(** The value of a [float] literal. *)
Context (f_lit : Q -> F).
(** The library side of the shader: the texture resource, [color_rgbaf]
    with its constructor and its product, the samplers
    [sampler2d<pixfmt_r5g6b5, texfilter_linear, ...>] by address mode, and
    the conversion of the assignment [res_=...] to the display pixel. *)
Context {texture color_rgbaf D : Type}.
Context (rgbaf : F -> F -> F -> F -> color_rgbaf).
Context (color_mul : color_rgbaf -> color_rgbaf -> color_rgbaf).
Context (sampler_sample : e_texaddr -> texture -> vec2 F -> color_rgbaf).
Context (to_pixel : color_rgbaf -> D).
Context (s_tex_smiley : texture).

(** [template<class Sampler> struct test_shader]: the members, the
    sampler type as its address mode. *)
Record test_shader := mk_test_shader {
  sampler : e_texaddr;
  tex : texture;
  x : Z;
  y : Z;
  scale_x : F;
  scale_y : F;
  tint : color_rgbaf;
}.

(** [test_shader::exec]: the texture coordinates come from the pixel's
    offset to the point the shader was constructed with; the sample is
    multiplied with the tint. *)
Definition test_shader_exec (sh : test_shader) (x_ y_ : Z) : D :=
  let u := fmul (f_of_Z (x_ - x sh)) (scale_x sh) in
  let v := fmul (f_of_Z (y_ - y sh)) (scale_y sh) in
  let col := sampler_sample (sampler sh) (tex sh) (mk_vec2 u v) in
  to_pixel (color_mul col (tint sh)).

(** One [s_gfx_device.draw_rect(x, y, width, height, sh)]. *)
Record draw_call := mk_draw_call {
  dc_x : Z;
  dc_y : Z;
  dc_width : Z;
  dc_height : Z;
  dc_shader : test_shader;
}.

(** [loop()]: its five [draw_rect] calls, in order. *)
Definition loop : list draw_call :=
  let white := rgbaf (f_lit 1) (f_lit 1) (f_lit 1) (f_lit 1) in
  [ (* 50x50px quad in the upper left corner *)
    mk_draw_call 0 0 50 50
      (mk_test_shader texaddr_clamp s_tex_smiley 0 0
         (fdiv (f_lit 1) (f_of_Z 50)) (fdiv (f_lit 1) (f_of_Z 50)) white);
    (* 100x100 rectangle next to it *)
    mk_draw_call 50 0 100 100
      (mk_test_shader texaddr_clamp s_tex_smiley 50 0
         (fdiv (f_lit 1) (f_of_Z 100)) (fdiv (f_lit 1) (f_of_Z 100)) white);
    (* 64x64px rectangle, flipped vertically, tinted *)
    mk_draw_call 150 0 64 64
      (mk_test_shader texaddr_clamp s_tex_smiley 150 (0 + 64)
         (fdiv (f_lit 1) (f_of_Z 64)) (fdiv (f_lit (-1)) (f_of_Z 64))
         (rgbaf (f_lit 1) (f_lit (1 # 2)) (f_lit (1 # 2)) (f_lit (1 # 2))));
    (* 64x64 quad, the texture tiled twice each way *)
    mk_draw_call 0 100 64 64
      (mk_test_shader texaddr_wrap s_tex_smiley 0 100
         (fdiv (f_lit 2) (f_of_Z 64)) (fdiv (f_lit 2) (f_of_Z 64)) white);
    (* a squeezed rectangle *)
    mk_draw_call 64 100 100 50
      (mk_test_shader texaddr_clamp s_tex_smiley 64 100
         (fdiv (f_lit 1) (f_of_Z 100)) (fdiv (f_lit 1) (f_of_Z 50)) white) ].
End Sketch.

End TexturedRects.

(* ===================================================================== *)
(** * Part II: theorems                                                   *)
(* ===================================================================== *)

Section PixelOutFacts.
Context {P : Type}.

Lemma export_rt0_exports (c : P) po :
  po_exports (export_rt0 c po) = po_exports po ++ [c].
Proof. reflexivity. Qed.

Lemma export_rt0_rt0 (c : P) po :
  po_rt0 (export_rt0 c po) = po_blendfunc po c (po_rt0 po).
Proof. reflexivity. Qed.
End PixelOutFacts.

(** ** The pixel shaders of the sketches *)

Section ShaderFacts.
Context {F : Type} `{Float F}.

(** C10.  [ps_color::exec] exports the color field and nothing else
    enters the exported value: two invocations whose shaders hold the
    same color export the same value to render target 0 whatever the
    three vertices, the barycentric vector and the primitive index are,
    and on the same destination they leave the same pixel output. *)
Theorem ps_color_exec_color_only {C P : Type} (to_rt0 : C -> P)
    (sh sh' : MultiDispatch.ps_color) (psout psout' : rasterizer_pixel_out P)
    (v0 v1 v2 v0' v1' v2' : @MultiDispatch.ps_color_psin F)
    (bc bc' : vec3 F) (prim prim' : Z) :
  MultiDispatch.color sh = MultiDispatch.color sh' ->
  let out := MultiDispatch.ps_color_exec to_rt0 sh psout v0 v1 v2 bc prim in
  let out' :=
    MultiDispatch.ps_color_exec to_rt0 sh' psout' v0' v1' v2' bc' prim' in
  last (po_exports out) = Some (to_rt0 (MultiDispatch.color sh))
  /\ last (po_exports out) = last (po_exports out')
  /\ (psout = psout' -> out = out').
Proof.
  intros Hc out out'. subst out out'.
  unfold MultiDispatch.ps_color_exec, export_rt0; simpl.
  rewrite !last_snoc, Hc. repeat split; trivial.
  intros ->. reflexivity.
Qed.

Context {texture : Type}.
Context (sample : texture -> vec2 F -> Speedometer.pixel_r5g5b5a1).
Context (tex : texture).

(** C9.  [ps_gauge_needle::exec] declines to write: for a primitive
    index of 2 or more, or when the sampled needle texel has alpha 0, it
    returns the pixel output it was given, so no [export_rt0] call is
    recorded and the destination pixel keeps its value, also after the
    rasterizer's fragment step around the shader. *)
Theorem ps_gauge_needle_exec_discards
    (psout : rasterizer_pixel_out Speedometer.pixel_r5g5b5a1)
    (v0 v1 v2 : @Speedometer.psin F) (bc : vec3 F) (prim_idx : Z) :
  2 <= prim_idx \/
  Speedometer.c_a
    (sample tex (interp2 (Speedometer.uv v0) (Speedometer.uv v1)
                         (Speedometer.uv v2) bc)) = 0 ->
  let out :=
    Speedometer.ps_gauge_needle_exec sample tex psout v0 v1 v2 bc prim_idx in
  po_exports out = po_exports psout
  /\ po_rt0 out = po_rt0 psout
  /\ forall rs z c d,
       fr_color
         (raster_fragment rs
            (fun po =>
               Speedometer.ps_gauge_needle_exec sample tex po v0 v1 v2 bc
                 prim_idx) z c d) = c.
Proof.
  intros Hd out.
  assert (Hid : forall po,
    Speedometer.ps_gauge_needle_exec sample tex po v0 v1 v2 bc prim_idx = po).
  { intros po. unfold Speedometer.ps_gauge_needle_exec.
    destruct (Z.ltb_spec prim_idx 2) as [Hlt | Hge]; [| reflexivity].
    destruct Hd as [Hd | Hd]; [lia |].
    rewrite Hd. reflexivity. }
  subst out. rewrite Hid. repeat split.
  intros rs z c d. unfold raster_fragment; simpl.
  rewrite Hid. simpl. destruct (_ || _); reflexivity.
Qed.

(** The other branch: a current-frame triangle and an opaque texel are
    exported once. *)
Lemma ps_gauge_needle_exec_exports
    (psout : rasterizer_pixel_out Speedometer.pixel_r5g5b5a1)
    (v0 v1 v2 : @Speedometer.psin F) (bc : vec3 F) (prim_idx : Z) :
  prim_idx < 2 ->
  let smp := sample tex (interp2 (Speedometer.uv v0) (Speedometer.uv v1)
                                 (Speedometer.uv v2) bc) in
  Speedometer.c_a smp <> 0 ->
  Speedometer.ps_gauge_needle_exec sample tex psout v0 v1 v2 bc prim_idx
  = export_rt0 smp psout.
Proof.
  intros Hlt smp Ha. unfold Speedometer.ps_gauge_needle_exec.
  destruct (Z.ltb_spec prim_idx 2); [| lia].
  fold smp. destruct (Z.eqb_spec (Speedometer.c_a smp) 0); [contradiction |].
  reflexivity.
Qed.
End ShaderFacts.

(** The C10 statement at two different vertex sets and destinations. *)
Lemma ps_color_exec_color_only_witness :
  let sh := {| MultiDispatch.color := 5 |} in
  let v a := {| MultiDispatch.pc_pos := (a, a, a, 1%Q) |} in
  let out := MultiDispatch.ps_color_exec (fun c : Z => c) sh
               (pixel_out_begin blendfunc_replace 0)
               (v 0%Q) (v 1%Q) (v 2%Q) (mk_vec3 1%Q 0%Q 0%Q) 0 in
  let out' := MultiDispatch.ps_color_exec (fun c : Z => c) sh
               (pixel_out_begin blendfunc_replace 9)
               (v 3%Q) (v 4%Q) (v 5%Q) (mk_vec3 0%Q 0%Q 1%Q) 1 in
  last (po_exports out) = Some 5
  /\ last (po_exports out) = last (po_exports out')
  /\ (pixel_out_begin blendfunc_replace 0 = pixel_out_begin blendfunc_replace 9
      -> out = out').
Proof.
  intros sh v.
  exact (ps_color_exec_color_only (fun c : Z => c) sh sh
           (pixel_out_begin blendfunc_replace 0)
           (pixel_out_begin blendfunc_replace 9)
           (v 0%Q) (v 1%Q) (v 2%Q) (v 3%Q) (v 4%Q) (v 5%Q)
           (mk_vec3 1%Q 0%Q 0%Q) (mk_vec3 0%Q 0%Q 1%Q) 0 1 eq_refl).
Defined.

(** The C9 statement at a previous-frame triangle (index 2) of a needle
    whose texture is opaque everywhere. *)
Lemma ps_gauge_needle_exec_discards_witness :
  let sample := fun (_ : unit) (_ : vec2 Q) => Speedometer.mk_r5g5b5a1 31 0 0 1 in
  let v := {| Speedometer.pos := mk_vec2 0%Q 0%Q; Speedometer.uv := mk_vec2 0%Q 0%Q |} in
  let bc := mk_vec3 1%Q 0%Q 0%Q in
  let psout := pixel_out_begin blendfunc_replace (Speedometer.mk_r5g5b5a1 1 2 3 0) in
  let out := Speedometer.ps_gauge_needle_exec sample tt psout v v v bc 2 in
  po_exports out = po_exports psout
  /\ po_rt0 out = po_rt0 psout
  /\ forall rs z c d,
       fr_color
         (raster_fragment rs
            (fun po => Speedometer.ps_gauge_needle_exec sample tt po v v v bc 2)
            z c d) = c.
Proof.
  intros sample v bc psout.
  apply (ps_gauge_needle_exec_discards sample tt psout v v v bc 2).
  left. lia.
Defined.

(** ** The immediate mode path *)

Section ImmediateFacts.
Context {D : Type}.
Implicit Types dev : graphics_device D.

Lemma on_screen_spec dev x y :
  on_screen dev x y = true <->
  0 <= x < fb_width dev /\ 0 <= y < fb_height dev.
Proof. unfold on_screen. rewrite !andb_true_iff. lia. Qed.

Lemma on_screen_false dev x y :
  on_screen dev x y = false <->
  ~ (0 <= x < fb_width dev /\ 0 <= y < fb_height dev).
Proof.
  rewrite <- on_screen_spec. destruct (on_screen dev x y); split; intros;
    congruence.
Qed.

(** Row-major indices of on-screen pixels are below the buffer size and
    distinct for distinct pixels. *)
Lemma fb_index_lt dev x y :
  device_wf dev -> on_screen dev x y = true ->
  (fb_index dev x y < length (fb dev))%nat.
Proof.
  intros (Hw & Hh & Hlen) Hon. apply on_screen_spec in Hon.
  unfold fb_index. rewrite Hlen. apply Z2Nat.inj_lt; nia.
Qed.

Lemma fb_index_inj dev x y x' y' :
  on_screen dev x y = true -> on_screen dev x' y' = true ->
  fb_index dev x y = fb_index dev x' y' -> x = x' /\ y = y'.
Proof.
  intros Hon Hon' Heq.
  apply on_screen_spec in Hon. apply on_screen_spec in Hon'.
  unfold fb_index in Heq. apply Z2Nat.inj in Heq; [| nia | nia].
  assert (y = y') by nia. subst y'. lia.
Qed.

(** What one pixel write does. *)
Lemma fb_put_Ok dev x y v dev' :
  fb_put dev x y v = Ok dev' ->
  on_screen dev x y = true /\
  fb_width dev' = fb_width dev /\ fb_height dev' = fb_height dev /\
  fb dev' = <[fb_index dev x y := v]> (fb dev).
Proof.
  unfold fb_put. destruct (on_screen dev x y); [| discriminate].
  intros [= <-]. auto.
Qed.

Lemma fb_put_wf dev x y v dev' :
  device_wf dev -> fb_put dev x y v = Ok dev' -> device_wf dev'.
Proof.
  intros (Hw & Hh & Hlen) Hput.
  apply fb_put_Ok in Hput as (_ & Hw' & Hh' & Hfb).
  unfold device_wf. rewrite Hw', Hh', Hfb, length_insert. auto.
Qed.

Lemma fb_get_put dev x y v dev' px py :
  device_wf dev -> fb_put dev x y v = Ok dev' ->
  fb_get dev' px py =
    if (px =? x) && (py =? y) then Some v else fb_get dev px py.
Proof.
  intros Hwf Hput.
  apply fb_put_Ok in Hput as (Hon & Hw' & Hh' & Hfb).
  unfold fb_get.
  assert (Hos : on_screen dev' px py = on_screen dev px py).
  { unfold on_screen. rewrite Hw', Hh'. reflexivity. }
  assert (Hidx : fb_index dev' px py = fb_index dev px py).
  { unfold fb_index. rewrite Hw'. reflexivity. }
  rewrite Hos, Hidx, Hfb.
  destruct (Z.eqb_spec px x) as [-> | Hx]; simpl.
  - destruct (Z.eqb_spec py y) as [-> | Hy]; simpl.
    + rewrite Hon. apply list_lookup_insert_eq. apply fb_index_lt; assumption.
    + destruct (on_screen dev x py) eqn:Hon'; [| reflexivity].
      apply list_lookup_insert_ne. intros Heq.
      apply fb_index_inj in Heq; [lia | assumption | assumption].
  - destruct (on_screen dev px py) eqn:Hon'; [| reflexivity].
    apply list_lookup_insert_ne. intros Heq.
    apply fb_index_inj in Heq; [lia | assumption | assumption].
Qed.

Context (shader : Z -> Z -> D).

(** A row inside the display is drawn as asked. *)
Lemma draw_span_inside n : forall x y dev,
  device_wf dev ->
  0 <= y < fb_height dev -> 0 <= x -> x + Z.of_nat n <= fb_width dev ->
  exists dev',
    draw_span shader y x n dev = Ok dev' /\ device_wf dev' /\
    fb_width dev' = fb_width dev /\ fb_height dev' = fb_height dev /\
    forall px py,
      fb_get dev' px py =
        if (py =? y) && (x <=? px) && (px <? x + Z.of_nat n)
        then Some (shader px py) else fb_get dev px py.
Proof.
  induction n as [| n IH]; intros x y dev Hwf Hy Hx Hfit.
  - exists dev. simpl. do 4 (split; [trivial |]). intros px py.
    replace (px <? x + Z.of_nat 0) with (px <? x) by (f_equal; lia).
    destruct (py =? y), (Z.leb_spec x px), (Z.ltb_spec px x);
      simpl; trivial; lia.
  - simpl.
    assert (Hon : on_screen dev x y = true) by (apply on_screen_spec; lia).
    destruct (fb_put dev x y (shader x y)) as [dev1 | |] eqn:Hput;
      try (unfold fb_put in Hput; rewrite Hon in Hput; discriminate).
    simpl.
    pose proof (fb_put_wf _ _ _ _ _ Hwf Hput) as Hwf1.
    pose proof (fb_put_Ok _ _ _ _ _ Hput) as (_ & Hw1 & Hh1 & _).
    destruct (IH (x + 1) y dev1) as (dev' & Hrun & Hwf' & Hw' & Hh' & Hget);
      try lia; trivial.
    exists dev'. split; [exact Hrun |]. split; [exact Hwf' |].
    split; [congruence |]. split; [congruence |].
    intros px py. rewrite Hget, (fb_get_put _ _ _ _ _ _ _ Hwf Hput).
    destruct (Z.eqb_spec py y), (Z.eqb_spec px x),
      (Z.leb_spec (x + 1) px), (Z.leb_spec x px),
      (Z.ltb_spec px (x + 1 + Z.of_nat n)),
      (Z.ltb_spec px (x + Z.of_nat (S n)));
      simpl; subst; trivial; lia.
Qed.

(** Without looking at the buffer: a row inside the display returns and
    keeps the dimensions. *)
Lemma draw_span_dims n : forall x y dev,
  0 <= y < fb_height dev -> 0 <= x -> x + Z.of_nat n <= fb_width dev ->
  exists dev',
    draw_span shader y x n dev = Ok dev' /\
    fb_width dev' = fb_width dev /\ fb_height dev' = fb_height dev.
Proof.
  induction n as [| n IH]; intros x y dev Hy Hx Hfit; simpl.
  - exists dev. auto.
  - unfold fb_put.
    assert (Hon : on_screen dev x y = true) by (apply on_screen_spec; lia).
    rewrite Hon. simpl.
    set (dev1 := mk_device _ _ _).
    destruct (IH (x + 1) y dev1) as (dev' & Hrun & Hw' & Hh');
      simpl; try lia.
    exists dev'. auto.
Qed.

(** A row that leaves the display runs into an undefined write. *)
Lemma draw_span_outside n : forall x y dev,
  (0 < n)%nat ->
  ~ (0 <= y < fb_height dev /\ 0 <= x /\ x + Z.of_nat n <= fb_width dev) ->
  draw_span shader y x n dev = Undefined.
Proof.
  induction n as [| n IH]; intros x y dev Hn Hout; [lia |].
  simpl. unfold fb_put at 1.
  destruct (on_screen dev x y) eqn:Hon; [| reflexivity].
  simpl. apply on_screen_spec in Hon.
  apply IH; simpl; [| lia].
  destruct n; [lia | lia].
Qed.

Lemma draw_rows_inside n : forall x w y dev,
  device_wf dev ->
  0 <= x -> 0 <= w -> x + w <= fb_width dev ->
  0 <= y -> y + Z.of_nat n <= fb_height dev ->
  exists dev',
    draw_rows shader x w y n dev = Ok dev' /\ device_wf dev' /\
    fb_width dev' = fb_width dev /\ fb_height dev' = fb_height dev /\
    forall px py,
      fb_get dev' px py =
        if (x <=? px) && (px <? x + w) && (y <=? py) && (py <? y + Z.of_nat n)
        then Some (shader px py) else fb_get dev px py.
Proof.
  induction n as [| n IH]; intros x w y dev Hwf Hx Hw Hfit Hy Hrows.
  - exists dev. simpl. do 4 (split; [trivial |]). intros px py.
    destruct (Z.leb_spec x px), (Z.ltb_spec px (x + w)), (Z.leb_spec y py),
      (Z.ltb_spec py (y + Z.of_nat 0)); simpl; trivial; lia.
  - simpl.
    destruct (draw_span_inside (Z.to_nat w) x y dev)
      as (dev1 & Hspan & Hwf1 & Hw1 & Hh1 & Hget1); try lia; trivial.
    rewrite Hspan. simpl.
    destruct (IH x w (y + 1) dev1)
      as (dev' & Hrun & Hwf' & Hw' & Hh' & Hget); try lia; trivial.
    exists dev'. split; [exact Hrun |]. split; [exact Hwf' |].
    split; [congruence |]. split; [congruence |].
    intros px py. rewrite Hget, Hget1.
    rewrite (Z2Nat.id w) by lia.
    destruct (Z.eqb_spec py y), (Z.leb_spec x px), (Z.ltb_spec px (x + w)),
      (Z.leb_spec (y + 1) py), (Z.leb_spec y py),
      (Z.ltb_spec py (y + 1 + Z.of_nat n)),
      (Z.ltb_spec py (y + Z.of_nat (S n)));
      simpl; subst; trivial; lia.
Qed.

Lemma draw_rows_outside n : forall x w y dev,
  (0 < n)%nat -> 0 < w ->
  ~ (0 <= x /\ x + w <= fb_width dev /\
     0 <= y /\ y + Z.of_nat n <= fb_height dev) ->
  draw_rows shader x w y n dev = Undefined.
Proof.
  induction n as [| n IH]; intros x w y dev Hn Hw Hout; [lia |].
  simpl.
  destruct (decide (0 <= y < fb_height dev /\ 0 <= x /\
                    x + Z.of_nat (Z.to_nat w) <= fb_width dev))
    as [Hin | Hnin].
  - destruct (draw_span_dims (Z.to_nat w) x y dev)
      as (dev1 & Hspan & Hw1 & Hh1); [lia | lia | lia |].
    rewrite Hspan. simpl.
    apply IH; [| lia |].
    + destruct n; [exfalso; lia | lia].
    + rewrite Hw1, Hh1. lia.
  - rewrite draw_span_outside; trivial. lia.
Qed.

(** C6.  [draw_rect] is defined for every rectangle and draws exactly the
    part of it that is on the display: every on-screen pixel of the
    rectangle gets the shader's value, every other pixel keeps its own,
    and no write leaves the frame buffer.  [fast_draw_rect] does the same
    without clipping when the rectangle lies within the display, and has
    no defined result when a non-empty rectangle does not. *)
Theorem draw_rect_clips dev (x y width height : Z) :
  device_wf dev ->
  (exists dev',
     draw_rect shader x y width height dev = Ok dev' /\ device_wf dev' /\
     fb_width dev' = fb_width dev /\ fb_height dev' = fb_height dev /\
     forall px py,
       (in_rect x y width height px py -> on_screen dev px py = true ->
        fb_get dev' px py = Some (shader px py)) /\
       (~ in_rect x y width height px py ->
        fb_get dev' px py = fb_get dev px py))
  /\ (rect_on_screen dev x y width height ->
      exists dev',
        fast_draw_rect shader x y width height dev = Ok dev' /\
        device_wf dev' /\
        forall px py,
          (in_rect x y width height px py ->
           fb_get dev' px py = Some (shader px py)) /\
          (~ in_rect x y width height px py ->
           fb_get dev' px py = fb_get dev px py))
  /\ (0 < width -> 0 < height -> ~ rect_on_screen dev x y width height ->
      fast_draw_rect shader x y width height dev = Undefined).
Proof.
  intros Hwf. pose proof Hwf as (Hfw & Hfh & _).
  split; [| split].
  - unfold draw_rect.
    set (x0 := Z.max x 0). set (y0 := Z.max y 0).
    set (x1 := Z.min (x + width) (fb_width dev)).
    set (y1 := Z.min (y + height) (fb_height dev)).
    assert (Hnone : ~ (x0 < x1 /\ y0 < y1) ->
      forall px py, in_rect x y width height px py ->
                    on_screen dev px py = true -> False).
    { unfold in_rect. intros Hno px py (Hpx & Hpy) Hon.
      apply on_screen_spec in Hon. lia. }
    destruct (Z.ltb_spec x0 x1) as [Hx | Hx]; simpl;
      [destruct (Z.ltb_spec y0 y1) as [Hy | Hy]; simpl |].
    + unfold fast_draw_rect.
      destruct (draw_rows_inside (Z.to_nat (y1 - y0)) x0 (x1 - x0) y0 dev)
        as (dev' & Hrun & Hwf' & Hw' & Hh' & Hget); try lia; trivial.
      exists dev'. do 4 (split; [assumption |]).
      intros px py. rewrite Hget. unfold in_rect. split.
      * intros (Hpx & Hpy) Hon. apply on_screen_spec in Hon.
        destruct (Z.leb_spec x0 px), (Z.ltb_spec px (x0 + (x1 - x0))),
          (Z.leb_spec y0 py),
          (Z.ltb_spec py (y0 + Z.of_nat (Z.to_nat (y1 - y0))));
          simpl; trivial; lia.
      * intros Hnin.
        destruct (Z.leb_spec x0 px), (Z.ltb_spec px (x0 + (x1 - x0))),
          (Z.leb_spec y0 py),
          (Z.ltb_spec py (y0 + Z.of_nat (Z.to_nat (y1 - y0))));
          simpl; trivial.
        exfalso. apply Hnin. lia.
    + exists dev. do 4 (split; [trivial |]). intros px py. split; trivial.
      intros Hin Hon. exfalso. apply (Hnone ltac:(lia) px py Hin Hon).
    + exists dev. do 4 (split; [trivial |]). intros px py. split; trivial.
      intros Hin Hon. exfalso. apply (Hnone ltac:(lia) px py Hin Hon).
  - unfold rect_on_screen; intros (Hx & Hy & Hxw & Hyh).
    unfold fast_draw_rect.
    destruct (Z.le_gt_cases height 0) as [Hh | Hh].
    { (* no rows *)
      replace (Z.to_nat height) with 0%nat by lia. simpl.
      exists dev. do 2 (split; [trivial |]).
      intros px py. unfold in_rect. split; trivial.
      intros (Hpx & Hpy). lia. }
    destruct (Z.le_gt_cases 0 width) as [Hw | Hw].
    + destruct (draw_rows_inside (Z.to_nat height) x width y dev)
        as (dev' & Hrun & Hwf' & Hw' & Hh' & Hget); try lia; trivial.
      exists dev'. do 2 (split; [assumption |]).
      intros px py. rewrite Hget. unfold in_rect. split.
      * intros (Hpx & Hpy).
        destruct (Z.leb_spec x px), (Z.ltb_spec px (x + width)),
          (Z.leb_spec y py),
          (Z.ltb_spec py (y + Z.of_nat (Z.to_nat height)));
          simpl; trivial; lia.
      * intros Hnin.
        destruct (Z.leb_spec x px), (Z.ltb_spec px (x + width)),
          (Z.leb_spec y py),
          (Z.ltb_spec py (y + Z.of_nat (Z.to_nat height)));
          simpl; trivial.
        exfalso. apply Hnin. lia.
    + (* a negative width draws nothing *)
      assert (Hrows : forall n y' d, draw_rows shader x width y' n d = Ok d).
      { induction n as [| n IHn]; intros y' d; simpl; trivial.
        replace (Z.to_nat width) with 0%nat by lia. simpl. apply IHn. }
      exists dev. rewrite Hrows. do 2 (split; [trivial |]).
      intros px py. unfold in_rect. split; trivial.
      intros (Hpx & Hpy). lia.
  - intros Hw Hh Hout. unfold fast_draw_rect.
    apply draw_rows_outside; try lia.
    unfold rect_on_screen in Hout. lia.
Qed.
End ImmediateFacts.

(** The C6 statement on a tiny display: the 128 by 128 rectangle of
    [HelloRect.loop] is centred on a 16 by 16 screen, so it hangs over on
    all sides. *)
Lemma draw_rect_clips_witness :
  let dev := mk_device 16 16 (replicate 256 (HelloRect.mk_rgba8 0 0 0 0)) in
  let sh := HelloRect.test_shader_exec
              {| HelloRect.x := -56; HelloRect.y := -56; HelloRect.frame := 0 |} in
  device_wf dev /\
  (exists dev',
     draw_rect sh (-56) (-56) 128 128 dev = Ok dev' /\ device_wf dev' /\
     fb_width dev' = fb_width dev /\ fb_height dev' = fb_height dev /\
     forall px py,
       (in_rect (-56) (-56) 128 128 px py -> on_screen dev px py = true ->
        fb_get dev' px py = Some (sh px py)) /\
       (~ in_rect (-56) (-56) 128 128 px py ->
        fb_get dev' px py = fb_get dev px py))
  /\ (0 < 128 -> 0 < 128 -> ~ rect_on_screen dev (-56) (-56) 128 128 ->
      fast_draw_rect sh (-56) (-56) 128 128 dev = Undefined).
Proof.
  intros dev sh.
  assert (Hwf : device_wf dev).
  { unfold device_wf. simpl. repeat split; lia. }
  split; [exact Hwf |].
  destruct (draw_rect_clips sh dev (-56) (-56) 128 128 Hwf) as (H1 & _ & H3).
  split; [exact H1 | exact H3].
Defined.

(** ** Depth test and pixel shader *)

Section FragmentFacts.
Context {P : Type}.
Implicit Types rs : render_state P.

Lemma depth_pass_with_debug_flag b rs z d :
  depth_pass (with_debug_flag b rs) z d = depth_pass rs z d.
Proof. reflexivity. Qed.

Lemma raster_fragment_depth_flag b rs ps ps' z c c' d :
  fr_depth (raster_fragment (with_debug_flag b rs) ps z c d)
  = fr_depth (raster_fragment rs ps' z c' d).
Proof. reflexivity. Qed.

(** A fragment that fails the depth test leaves no trace when the flag
    is off. *)
Lemma raster_fragment_fail rs ps z c d :
  depth_pass rs z d = false ->
  rs_debug_disable_pixel_depth_test rs = false ->
  raster_fragment rs ps z c d = mk_fragment_result c d false.
Proof.
  intros Hp Hf. unfold raster_fragment. rewrite Hp, Hf. reflexivity.
Qed.

(** A fragment that passes is shaded, blended and, with depth writes on,
    stored. *)
Lemma raster_fragment_pass rs ps z c d :
  depth_pass rs z d = true ->
  raster_fragment rs ps z c d =
    mk_fragment_result
      (po_rt0 (ps (pixel_out_begin (rs_blendfunc rs) c)))
      (if depth_test_enabled rs && rs_depth_write rs then z else d)
      true.
Proof. intros Hp. unfold raster_fragment. rewrite Hp. reflexivity. Qed.
End FragmentFacts.

Section OutcomeFacts.
Lemma ofold_app {A B} (f : A -> B -> outcome A) l l' a :
  ofold f (l ++ l') a = do a' <- ofold f l a; ofold f l' a'.
Proof.
  revert a. induction l as [| b l IH]; intros a; simpl; trivial.
  destruct (f a b); simpl; trivial.
Qed.

(** Two loops over the same list stay related when their bodies do. *)
Lemma ofold_rel {A A' B} (R : A -> A' -> Prop)
    (f : A -> B -> outcome A) (f' : A' -> B -> outcome A') l :
  (forall a a' b, R a a' -> outcome_rel R (f a b) (f' a' b)) ->
  forall a a', R a a' -> outcome_rel R (ofold f l a) (ofold f' l a').
Proof.
  intros Hf. induction l as [| b l IH]; intros a a' HR; simpl; trivial.
  specialize (Hf a a' b HR).
  destruct (f a b), (f' a' b); simpl in *; try contradiction; auto.
Qed.

Lemma capacity_check_rel {A B} (R : A -> B -> Prop) b l fits k k' :
  outcome_rel R k k' ->
  outcome_rel R (capacity_check b l fits k) (capacity_check b l fits k').
Proof.
  intros Hk. unfold capacity_check.
  destruct fits; trivial. destruct (checks_enabled b); simpl; trivial.
Qed.
End OutcomeFacts.

Section DebugFlagFacts.
Context {P D : Type}.
Implicit Types (s : rasterizer P D) (t : tile P) (p : pso P).

Lemma fragment_at_debug_flag b p v0 v1 v2 prim x y c c' d :
  match fragment_at p v0 v1 v2 prim x y c d,
        fragment_at (set_debug_flag b p) v0 v1 v2 prim x y c' d with
  | Some fr, Some fr' => fr_depth fr = fr_depth fr'
  | None, None => True
  | _, _ => False
  end.
Proof.
  unfold fragment_at.
  cbn [set_debug_flag pso_with_rstate pso_rstate pso_pos pso_psin
       pso_pshader with_debug_flag rs_tbfc_mode rs_bci_mode].
  destruct (tri_edges _ _ _ _ _) as [[e0 e1] e2].
  destruct (tri_cover _ e0 e1 e2); [| exact I].
  reflexivity.
Qed.

Lemma raster_pixel_same_depth b cfg (dev : graphics_device D) tid p
    v0 v1 v2 prim t t' off :
  same_depth t t' ->
  same_depth (raster_pixel cfg dev tid p v0 v1 v2 prim t off)
             (raster_pixel cfg dev tid (set_debug_flag b p) v0 v1 v2 prim t' off).
Proof.
  intros (Hd & Hh & Hs & Hl). unfold raster_pixel.
  rewrite <- Hd.
  assert (Hsame : same_depth t t') by (repeat split; assumption).
  destruct (t_rt0 t !! off) as [c |] eqn:Hc;
    destruct (t_rt0 t' !! off) as [c' |] eqn:Hc'.
  - destruct (t_depth t !! off) as [d |] eqn:Hdo; [| exact Hsame].
    pose proof (fragment_at_debug_flag b p v0 v1 v2 prim
                  (tile_px cfg dev tid off) (tile_py cfg dev tid off) c c' d)
      as Hfr.
    destruct (fragment_at p _ _ _ _ _ _ c d) as [fr |];
      destruct (fragment_at (set_debug_flag b p) _ _ _ _ _ _ c' d) as [fr' |];
      try contradiction; [| exact Hsame].
    unfold same_depth, tile_store. cbn [t_depth t_hiz t_strips t_rt0].
    rewrite !length_insert, <- Hd, Hh, Hfr. repeat split; trivial.
  - apply lookup_ge_None in Hc'. apply lookup_lt_Some in Hc. lia.
  - apply lookup_ge_None in Hc. apply lookup_lt_Some in Hc'. lia.
  - exact Hsame.
Qed.

Lemma rasterize_triangle_same_depth b cfg (dev : graphics_device D) tid p
    v0 v1 v2 prim t t' :
  same_depth t t' ->
  same_depth (rasterize_triangle cfg dev tid p v0 v1 v2 prim t)
             (rasterize_triangle cfg dev tid (set_debug_flag b p)
                v0 v1 v2 prim t').
Proof.
  unfold rasterize_triangle. generalize (seq 0 (tile_pixels cfg)) as offs.
  intros offs. revert t t'.
  induction offs as [| off offs IH]; intros t t' Hsame; simpl; trivial.
  apply IH. apply raster_pixel_same_depth. exact Hsame.
Qed.

Lemma rasterize_geometry_same_depth b s tid p c t t' :
  same_depth t t' ->
  outcome_rel same_depth
    (rasterize_geometry s tid p c t)
    (rasterize_geometry (debug_all b s) tid (set_debug_flag b p) c t').
Proof.
  intros Hsame. unfold rasterize_geometry, transform_cluster.
  change (ptv_need (set_debug_flag b p) c) with (ptv_need p c).
  change (r_cfg (debug_all b s)) with (r_cfg s).
  change (r_build (debug_all b s)) with (r_build s).
  change (r_dev (debug_all b s)) with (r_dev s).
  unfold capacity_check.
  destruct (ptv_need p c <=? max_ptv_buffer_size (r_cfg s))%nat;
    [| destruct (checks_enabled (r_build s)); simpl; trivial].
  simpl.
  apply ofold_rel; [| exact Hsame].
  intros a a' [prim [[i0 i1] i2]] Ha. unfold rasterize_indexed. simpl.
  destruct (imap _ _ !! i0); simpl; trivial.
  destruct (imap _ _ !! i1); simpl; trivial.
  destruct (imap _ _ !! i2); simpl; trivial.
  apply rasterize_triangle_same_depth. exact Ha.
Qed.

Lemma rasterize_cluster_same_depth b s tid t t' k :
  same_depth t t' ->
  outcome_rel same_depth
    (rasterize_cluster s tid t k)
    (rasterize_cluster (debug_all b s) tid t' k).
Proof.
  intros Hsame. unfold rasterize_cluster.
  change (r_clusters (debug_all b s)) with (r_clusters s).
  destruct (r_clusters s !! k) as [[d ci] |]; simpl; trivial.
  change (r_dispatches (debug_all b s))
    with (map (set_debug_flag b) (r_dispatches s)).
  rewrite list_lookup_fmap.
  destruct (r_dispatches s !! d) as [p |]; simpl; trivial.
  destruct (pso_geometry p !! ci) as [c |]; simpl; trivial.
  apply rasterize_geometry_same_depth. exact Hsame.
Qed.

Lemma rasterize_tile_same_depth b s tid t t' :
  same_depth t t' ->
  outcome_rel same_depth
    (rasterize_tile s tid t) (rasterize_tile (debug_all b s) tid t').
Proof.
  intros Hsame. unfold rasterize_tile, tile_clusters.
  destruct Hsame as (Hd & Hh & Hs & Hl). rewrite <- Hs.
  apply ofold_rel; [| repeat split; assumption].
  intros a a' k Ha. apply rasterize_cluster_same_depth. exact Ha.
Qed.
(** [same_depth] relates every tile to itself. *)
Lemma same_depth_refl t : same_depth t t.
Proof. repeat split. Qed.

(** C2. A fragment whose depth fails the configured comparison against the
    stored depth: without [debug_disable_pixel_depth_test] the pixel shader
    is not invoked and color and depth of the pixel stay as they are; with
    the flag the pixel shader is invoked, for this and for every other
    fragment, and its color is blended in.  The flag changes nothing on the
    depth side: the depth the fragment leaves, and the depth buffer, the
    Hi-Z summary and the strips of a whole tile after its rasterization are
    those of the same frame with the flag off or on. *)
Theorem depth_test_gates_pixel_shader (rs : render_state P)
    (ps : rasterizer_pixel_out P -> rasterizer_pixel_out P) z c d :
  depth_pass rs z d = false ->
  (rs_debug_disable_pixel_depth_test rs = false ->
     raster_fragment rs ps z c d = mk_fragment_result c d false) /\
  (rs_debug_disable_pixel_depth_test rs = true ->
     (forall z' c' d', fr_shaded (raster_fragment rs ps z' c' d') = true) /\
     fr_color (raster_fragment rs ps z c d) =
       po_rt0 (ps (pixel_out_begin (rs_blendfunc rs) c))) /\
  (forall b, fr_depth (raster_fragment (with_debug_flag b rs) ps z c d) = d) /\
  (forall b b' z' c' d',
     fr_depth (raster_fragment (with_debug_flag b rs) ps z' c' d') =
     fr_depth (raster_fragment (with_debug_flag b' rs) ps z' c' d')) /\
  (forall b s tid t,
     outcome_rel same_depth
       (rasterize_tile s tid t) (rasterize_tile (debug_all b s) tid t)).
Proof.
  intros Hfail. split; [| split; [| split; [| split]]].
  - intros Hflag. apply raster_fragment_fail; assumption.
  - intros Hflag. split.
    + intros z' c' d'. unfold raster_fragment. cbn [fr_shaded].
      rewrite Hflag. apply orb_true_r.
    + unfold raster_fragment. cbn [fr_color]. rewrite Hfail, Hflag.
      reflexivity.
  - intros b. unfold raster_fragment. cbn [fr_depth].
    rewrite depth_pass_with_debug_flag, Hfail. reflexivity.
  - intros b b' z' c' d'. reflexivity.
  - intros b s tid t. apply rasterize_tile_same_depth, same_depth_refl.
Qed.
End DebugFlagFacts.

(** The render states of 07_ClusterCulling at a fragment behind the stored
    depth: [rstate_opaque] leaves the pixel alone, [rstate_cluster_overdraw]
    adds the color and keeps the depth. *)
Lemma depth_test_gates_pixel_shader_witness :
  raster_fragment (rstate_opaque Scene.cfg) (export_rt0 5) 900 1 100 =
    mk_fragment_result 1 100 false /\
  raster_fragment (rstate_cluster_overdraw Z.add Scene.cfg) (export_rt0 5)
    900 1 100 = mk_fragment_result 6 100 true.
Proof.
  split.
  - apply (@depth_test_gates_pixel_shader Z Z (rstate_opaque Scene.cfg)
             (export_rt0 5) 900 1 100); reflexivity.
  - pose proof (@depth_test_gates_pixel_shader Z Z
                  (rstate_cluster_overdraw Z.add Scene.cfg)
                  (export_rt0 5) 900 1 100 eq_refl) as (_ & Hon & Hd & _).
    destruct (Hon eq_refl) as [Hshaded Hcolor].
    specialize (Hshaded 900 1 100). specialize (Hd true).
    change (with_debug_flag true (rstate_cluster_overdraw Z.add Scene.cfg))
      with (@rstate_cluster_overdraw Z Z.add Scene.cfg) in Hd.
    destruct (raster_fragment (rstate_cluster_overdraw Z.add Scene.cfg)
                (export_rt0 5) 900 1 100) as [c' d' sh'].
    cbn [fr_shaded fr_color fr_depth] in *. subst.
    reflexivity.
Defined.

(** ** The tile grid *)

Section GridFacts.
Context (cfg : rasterizer_memory_cfg) {D : Type} (dev : graphics_device D).
Context (Htw : 0 < tile_width cfg) (Hth : 0 < tile_height cfg).
Context (Hfw : 0 <= fb_width dev) (Hfh : 0 <= fb_height dev).

Lemma In_zrange a b z : In z (zrange a b) <-> a <= z <= b.
Proof.
  unfold zrange. rewrite in_map_iff. split.
  - intros (i & <- & Hi). apply in_seq in Hi. lia.
  - intros Hz. exists (Z.to_nat (z - a)). split; [lia |].
    apply in_seq. lia.
Qed.

Lemma NoDup_zrange a b : NoDup (zrange a b).
Proof.
  unfold zrange. apply NoDup_fmap_2; [| apply NoDup_seq].
  intros i j Hij. lia.
Qed.

Lemma tiles_x_nonneg : 0 <= tiles_x cfg dev.
Proof. unfold tiles_x, cdiv. apply Z.div_pos; lia. Qed.

Lemma tiles_y_nonneg : 0 <= tiles_y cfg dev.
Proof. unfold tiles_y, cdiv. apply Z.div_pos; lia. Qed.

(** Every column of pixels lies in a column of tiles. *)
Lemma pixel_tile_x x :
  0 <= x < fb_width dev -> 0 <= x / tile_width cfg < tiles_x cfg dev.
Proof.
  intros Hx. split; [apply Z.div_pos; lia |].
  unfold tiles_x, cdiv. apply Z.div_lt_upper_bound; [lia |].
  pose proof (Z.mul_div_le (fb_width dev + tile_width cfg - 1)
                (tile_width cfg) Htw).
  pose proof (Z.mod_pos_bound (fb_width dev + tile_width cfg - 1)
                (tile_width cfg) Htw).
  pose proof (Z.div_mod (fb_width dev + tile_width cfg - 1)
                (tile_width cfg) ltac:(lia)).
  nia.
Qed.

Lemma pixel_tile_y y :
  0 <= y < fb_height dev -> 0 <= y / tile_height cfg < tiles_y cfg dev.
Proof.
  intros Hy. split; [apply Z.div_pos; lia |].
  unfold tiles_y, cdiv. apply Z.div_lt_upper_bound; [lia |].
  pose proof (Z.mod_pos_bound (fb_height dev + tile_height cfg - 1)
                (tile_height cfg) Hth).
  pose proof (Z.div_mod (fb_height dev + tile_height cfg - 1)
                (tile_height cfg) ltac:(lia)).
  nia.
Qed.

Lemma tile_id_lt tx ty :
  0 <= tx < tiles_x cfg dev -> 0 <= ty < tiles_y cfg dev ->
  (tile_id cfg dev tx ty < num_tiles cfg dev)%nat.
Proof.
  intros Hx Hy. unfold tile_id, num_tiles. apply Z2Nat.inj_lt; nia.
Qed.

Lemma tile_id_inj tx ty tx' ty' :
  0 <= tx < tiles_x cfg dev -> 0 <= ty ->
  0 <= tx' < tiles_x cfg dev -> 0 <= ty' ->
  tile_id cfg dev tx ty = tile_id cfg dev tx' ty' -> tx = tx' /\ ty = ty'.
Proof.
  intros Hx Hy Hx' Hy' Heq. unfold tile_id in Heq.
  apply Z2Nat.inj in Heq; [| nia | nia].
  assert (ty = ty') by nia. subst. lia.
Qed.

Lemma tile_tx_id tx ty :
  0 <= tx < tiles_x cfg dev -> 0 <= ty ->
  tile_tx cfg dev (tile_id cfg dev tx ty) = tx.
Proof.
  intros Hx Hy. unfold tile_tx, tile_id. rewrite Z2Nat.id by nia.
  rewrite Z.add_comm, Z.mod_add by lia. apply Z.mod_small. lia.
Qed.

Lemma tile_ty_id tx ty :
  0 <= tx < tiles_x cfg dev -> 0 <= ty ->
  tile_ty cfg dev (tile_id cfg dev tx ty) = ty.
Proof.
  intros Hx Hy. unfold tile_ty, tile_id. rewrite Z2Nat.id by nia.
  rewrite Z.add_comm, Z.div_add by lia.
  rewrite Z.div_small by lia. lia.
Qed.

(** Which tiles [tiles_overlapped] lists. *)
Lemma In_tiles_overlapped b tid :
  In tid (tiles_overlapped cfg dev b) <->
  exists tx ty,
    tid = tile_id cfg dev tx ty /\
    0 <= tx < tiles_x cfg dev /\ 0 <= ty < tiles_y cfg dev /\
    bx0 b / tile_width cfg <= tx <= (bx1 b - 1) / tile_width cfg /\
    by0 b / tile_height cfg <= ty <= (by1 b - 1) / tile_height cfg.
Proof.
  unfold tiles_overlapped. rewrite in_flat_map. split.
  - intros (ty & Hty & Hin). apply in_map_iff in Hin as (tx & <- & Htx).
    apply In_zrange in Hty. apply In_zrange in Htx.
    exists tx, ty. split; [reflexivity |]. lia.
  - intros (tx & ty & -> & Hx & Hy & Hbx & Hby).
    exists ty. split; [apply In_zrange; lia |].
    apply in_map_iff. exists tx. split; [reflexivity |].
    apply In_zrange. lia.
Qed.

Lemma tiles_overlapped_lt b tid :
  In tid (tiles_overlapped cfg dev b) -> (tid < num_tiles cfg dev)%nat.
Proof.
  intros Hin. apply In_tiles_overlapped in Hin
    as (tx & ty & -> & Hx & Hy & _). apply tile_id_lt; assumption.
Qed.

Lemma NoDup_tiles_overlapped b : NoDup (tiles_overlapped cfg dev b).
Proof.
  unfold tiles_overlapped.
  set (tx0 := Z.max 0 _). set (tx1 := Z.min (tiles_x cfg dev - 1) _).
  set (ty0 := Z.max 0 _). set (ty1 := Z.min (tiles_y cfg dev - 1) _).
  assert (Hgen : forall tys, NoDup tys -> (forall ty, In ty tys -> 0 <= ty) ->
    NoDup (flat_map (fun ty => map (fun tx => tile_id cfg dev tx ty)
                                 (zrange tx0 tx1)) tys)).
  { assert (Hcol : forall tx, In tx (zrange tx0 tx1) ->
              0 <= tx < tiles_x cfg dev).
    { intros tx Htx. apply In_zrange in Htx. subst tx0 tx1. lia. }
    induction tys as [| ty tys IH]; intros Hnd Hpos; simpl; [constructor |].
    apply NoDup_cons in Hnd as [Hnotin Hnd].
    assert (Hty : 0 <= ty) by (apply Hpos; left; reflexivity).
    apply NoDup_app. split; [| split].
    - apply NoDup_fmap_2_strong; [| apply NoDup_zrange].
      intros tx tx' Htx Htx' Heq.
      apply list_elem_of_In, Hcol in Htx.
      apply list_elem_of_In, Hcol in Htx'.
      apply (tile_id_inj tx ty tx' ty Htx Hty Htx' Hty) in Heq. tauto.
    - intros tid Hin Hin'.
      apply list_elem_of_In, in_map_iff in Hin as (tx & <- & Htx).
      apply list_elem_of_In, in_flat_map in Hin' as (ty' & Hty' & Hin').
      apply in_map_iff in Hin' as (tx' & Heq & Htx').
      apply Hcol in Htx. apply Hcol in Htx'.
      assert (Hty'0 : 0 <= ty') by (apply Hpos; right; exact Hty').
      apply (tile_id_inj tx' ty' tx ty Htx' Hty'0 Htx Hty) in Heq
        as [_ ->].
      apply Hnotin, list_elem_of_In, Hty'.
    - apply IH; [exact Hnd |]. intros ty' Hty'. apply Hpos. right. exact Hty'. }
  apply Hgen; [apply NoDup_zrange |].
  intros ty Hty. apply In_zrange in Hty. subst ty0. lia.
Qed.

(** A tile of the grid that shares a pixel with the bounds is listed. *)
Lemma tiles_overlapped_complete b tx ty :
  0 <= tx < tiles_x cfg dev -> 0 <= ty < tiles_y cfg dev ->
  bounds_overlap_tile cfg b tx ty ->
  In (tile_id cfg dev tx ty) (tiles_overlapped cfg dev b).
Proof.
  intros Hx Hy (x & y & Hbx & Hby & Hix & Hiy).
  apply In_tiles_overlapped.
  exists tx, ty. split; [reflexivity |]. do 2 (split; [assumption |]).
  assert (Hxt : x / tile_width cfg = tx).
  { symmetry. apply (Z.div_unique x _ tx (x - tx * tile_width cfg)); lia. }
  assert (Hyt : y / tile_height cfg = ty).
  { symmetry. apply (Z.div_unique y _ ty (y - ty * tile_height cfg)); lia. }
  rewrite <- Hxt, <- Hyt.
  repeat split; apply Z.div_le_mono; lia.
Qed.

(** For bounds that hold a pixel, nothing else is listed. *)
Lemma tiles_overlapped_sound b tid :
  bx0 b < bx1 b -> by0 b < by1 b ->
  In tid (tiles_overlapped cfg dev b) ->
  exists tx ty,
    tid = tile_id cfg dev tx ty /\
    0 <= tx < tiles_x cfg dev /\ 0 <= ty < tiles_y cfg dev /\
    bounds_overlap_tile cfg b tx ty.
Proof.
  intros Hbx Hby Hin.
  apply In_tiles_overlapped in Hin as (tx & ty & -> & Hx & Hy & Htx & Hty).
  exists tx, ty. split; [reflexivity |]. do 2 (split; [assumption |]).
  (* the larger of the two left ends is in both *)
  exists (Z.max (bx0 b) (tx * tile_width cfg)),
         (Z.max (by0 b) (ty * tile_height cfg)).
  unfold in_tile.
  pose proof (Z.mod_pos_bound (bx0 b) _ Htw).
  pose proof (Z.div_mod (bx0 b) (tile_width cfg) ltac:(lia)).
  pose proof (Z.mod_pos_bound (bx1 b - 1) _ Htw).
  pose proof (Z.div_mod (bx1 b - 1) (tile_width cfg) ltac:(lia)).
  pose proof (Z.mod_pos_bound (by0 b) _ Hth).
  pose proof (Z.div_mod (by0 b) (tile_height cfg) ltac:(lia)).
  pose proof (Z.mod_pos_bound (by1 b - 1) _ Hth).
  pose proof (Z.div_mod (by1 b - 1) (tile_height cfg) ltac:(lia)).
  repeat split; nia.
Qed.

(** Pixels, tiles and offsets. *)
Lemma tile_of_pixel_lt x y :
  0 <= x < fb_width dev -> 0 <= y < fb_height dev ->
  (tile_of_pixel cfg dev x y < num_tiles cfg dev)%nat.
Proof.
  intros Hx Hy. apply tile_id_lt; [apply pixel_tile_x | apply pixel_tile_y];
    assumption.
Qed.

Lemma offset_of_pixel_lt x y :
  (offset_of_pixel cfg x y < tile_pixels cfg)%nat.
Proof.
  unfold offset_of_pixel, tile_pixels.
  pose proof (Z.mod_pos_bound x _ Htw). pose proof (Z.mod_pos_bound y _ Hth).
  apply Z2Nat.inj_lt; nia.
Qed.

Lemma offset_mod x y :
  Z.of_nat (offset_of_pixel cfg x y) mod tile_width cfg
  = x mod tile_width cfg.
Proof.
  unfold offset_of_pixel.
  pose proof (Z.mod_pos_bound x _ Htw). pose proof (Z.mod_pos_bound y _ Hth).
  rewrite Z2Nat.id by nia.
  rewrite (Z.add_comm _ (x mod tile_width cfg)), Z.mod_add by lia.
  apply Z.mod_mod. lia.
Qed.

Lemma offset_div x y :
  Z.of_nat (offset_of_pixel cfg x y) / tile_width cfg
  = y mod tile_height cfg.
Proof.
  unfold offset_of_pixel.
  pose proof (Z.mod_pos_bound x _ Htw). pose proof (Z.mod_pos_bound y _ Hth).
  rewrite Z2Nat.id by nia.
  rewrite (Z.add_comm _ (x mod tile_width cfg)), Z.div_add by lia.
  rewrite Z.div_small by lia. lia.
Qed.

Lemma tile_px_of_pixel x y :
  0 <= x < fb_width dev -> 0 <= y < fb_height dev ->
  tile_px cfg dev (tile_of_pixel cfg dev x y) (offset_of_pixel cfg x y) = x.
Proof.
  intros Hx Hy. unfold tile_px, tile_of_pixel.
  rewrite tile_tx_id;
    [| apply pixel_tile_x; assumption | apply Z.div_pos; lia].
  rewrite offset_mod.
  pose proof (Z.div_mod x (tile_width cfg) ltac:(lia)). lia.
Qed.

Lemma tile_py_of_pixel x y :
  0 <= x < fb_width dev -> 0 <= y < fb_height dev ->
  tile_py cfg dev (tile_of_pixel cfg dev x y) (offset_of_pixel cfg x y) = y.
Proof.
  intros Hx Hy. unfold tile_py, tile_of_pixel.
  rewrite tile_ty_id;
    [| apply pixel_tile_x; assumption | apply Z.div_pos; lia].
  rewrite offset_div.
  pose proof (Z.div_mod y (tile_height cfg) ltac:(lia)). lia.
Qed.

(** A pixel of a tile determines the tile and the offset. *)
Lemma tile_pixel_unique tid off x y :
  (tid < num_tiles cfg dev)%nat -> (off < tile_pixels cfg)%nat ->
  0 <= x < fb_width dev -> 0 <= y < fb_height dev ->
  tile_px cfg dev tid off = x -> tile_py cfg dev tid off = y ->
  tid = tile_of_pixel cfg dev x y /\ off = offset_of_pixel cfg x y.
Proof.
  intros Htid Hoff Hx Hy Hpx Hpy.
  unfold tile_px, tile_py, tile_tx, tile_ty in *.
  unfold num_tiles in Htid. unfold tile_pixels in Hoff.
  set (T := Z.of_nat tid) in *. set (O := Z.of_nat off) in *.
  assert (HT : 0 <= T < tiles_x cfg dev * tiles_y cfg dev) by lia.
  assert (HO : 0 <= O < tile_width cfg * tile_height cfg) by lia.
  pose proof tiles_x_nonneg as Hxn. pose proof tiles_y_nonneg as Hyn.
  assert (Htx : 0 < tiles_x cfg dev) by nia.
  pose proof (Z.mod_pos_bound T _ Htx) as HTm.
  pose proof (Z.div_mod T (tiles_x cfg dev) ltac:(lia)) as HTd.
  pose proof (Z.mod_pos_bound O _ Htw) as HOm.
  pose proof (Z.div_mod O (tile_width cfg) ltac:(lia)) as HOd.
  assert (HOq : 0 <= O / tile_width cfg < tile_height cfg).
  { split; [apply Z.div_pos; lia |].
    apply Z.div_lt_upper_bound; lia. }
  assert (HTq : 0 <= T / tiles_x cfg dev) by (apply Z.div_pos; lia).
  assert (Hxd : x / tile_width cfg = T mod tiles_x cfg dev).
  { symmetry. apply (Z.div_unique x _ _ (O mod tile_width cfg)); lia. }
  assert (Hxm : x mod tile_width cfg = O mod tile_width cfg).
  { symmetry. apply (Z.mod_unique x _ (T mod tiles_x cfg dev)); lia. }
  assert (Hyd : y / tile_height cfg = T / tiles_x cfg dev).
  { symmetry. apply (Z.div_unique y _ _ (O / tile_width cfg)); lia. }
  assert (Hym : y mod tile_height cfg = O / tile_width cfg).
  { symmetry. apply (Z.mod_unique y _ (T / tiles_x cfg dev)); lia. }
  split.
  - unfold tile_of_pixel, tile_id. rewrite Hxd, Hyd.
    apply Nat2Z.inj. rewrite Z2Nat.id by nia. fold T. lia.
  - unfold offset_of_pixel. rewrite Hxm, Hym.
    apply Nat2Z.inj. rewrite Z2Nat.id by nia. fold O. lia.
Qed.
End GridFacts.

(** ** Binning *)

Section BinningFacts.
Context {P D : Type}.
Implicit Types (s : rasterizer P D) (t : tile P) (p : pso P).

Lemma tile_ext_refl t : tile_ext t t.
Proof. repeat split. Qed.

Lemma tile_ext_trans t1 t2 t3 :
  tile_ext t1 t2 -> tile_ext t2 t3 -> tile_ext t1 t3.
Proof.
  intros (? & ? & ? & ?) (? & ? & ? & ?). repeat split; congruence.
Qed.

Lemma bin_frame_refl s : bin_frame s s.
Proof.
  repeat split. apply Forall2_same_length_lookup_2; [reflexivity |].
  intros i t t' Ht Ht'. assert (t = t') as -> by congruence.
  apply tile_ext_refl.
Qed.

Lemma bin_frame_trans s1 s2 s3 :
  bin_frame s1 s2 -> bin_frame s2 s3 -> bin_frame s1 s3.
Proof.
  intros (? & ? & ? & ? & ? & ? & ? & H12) (? & ? & ? & ? & ? & ? & ? & H23).
  repeat split; try congruence.
  clear - H12 H23. revert H23. generalize (r_tiles s3).
  induction H12 as [| t1 t2 l1 l2 Ht Hl IH]; intros l3 H23;
    inversion H23; subst; constructor.
  - eapply tile_ext_trans; eassumption.
  - apply IH. assumption.
Qed.

Lemma bin_frame_length s s' :
  bin_frame s s' -> length (r_tiles s') = length (r_tiles s).
Proof.
  intros (_ & _ & _ & _ & _ & _ & _ & H). symmetry.
  eapply Forall2_length. exact H.
Qed.

Lemma bin_frame_lookup s s' j t :
  bin_frame s s' -> r_tiles s !! j = Some t ->
  exists t', r_tiles s' !! j = Some t' /\ tile_ext t t'.
Proof.
  intros (_ & _ & _ & _ & _ & _ & _ & H) Ht.
  eapply Forall2_lookup_l in H as (t' & Ht' & Hext); eauto.
Qed.

(** Binning reads the tiles through their Hi-Z summaries only, so the
    culling decisions do not move while a dispatch is binned. *)
Lemma occlusion_culled_frame s s' rs b :
  bin_frame s s' -> occlusion_culled s' rs b = occlusion_culled s rs b.
Proof.
  intros Hf. pose proof Hf as (Hc & _ & Hd & _ & _ & _ & _ & Ht).
  unfold occlusion_culled. rewrite Hc, Hd. f_equal.
  induction (tiles_overlapped (r_cfg s) (r_dev s) b) as [| tid tids IH];
    simpl; [reflexivity |].
  rewrite IH. f_equal.
  destruct (r_tiles s !! tid) as [t |] eqn:Hs.
  - destruct (bin_frame_lookup _ _ _ _ Hf Hs) as (t' & -> & (_ & _ & Hh & _)).
    unfold hiz_occludes. rewrite Hh. reflexivity.
  - apply lookup_ge_None in Hs.
    rewrite <- (bin_frame_length _ _ Hf) in Hs.
    apply lookup_ge_None in Hs. rewrite Hs. reflexivity.
Qed.

Lemma cluster_survives_frame s s' p bv vc :
  bin_frame s s' ->
  cluster_survives s' p bv vc = cluster_survives s p bv vc.
Proof.
  intros Hf. pose proof Hf as (Hc & _ & Hd & _).
  unfold cluster_survives.
  rewrite (occlusion_culled_frame _ _ _ _ Hf), Hc, Hd. reflexivity.
Qed.

(** *** Strips *)

Lemma strips_push_concat cap k strips :
  concat (fst (strips_push cap k strips)) = concat strips ++ [k].
Proof.
  unfold strips_push. destruct (last strips) as [st |] eqn:Hlast.
  - apply last_Some in Hlast as (l' & ->).
    rewrite removelast_last.
    destruct (length st <? cap)%nat; simpl.
    + rewrite !concat_app. simpl. rewrite !app_nil_r, app_assoc. reflexivity.
    + rewrite concat_app. simpl. reflexivity.
  - simpl. rewrite concat_app. reflexivity.
Qed.

(** *** One (cluster, tile) association *)

Lemma bin_to_tile_Ok k s tid s' :
  bin_to_tile k s tid = Ok s' ->
  bin_frame s s' /\ r_clusters s' = r_clusters s /\
  (r_num_strips s <= r_num_strips s' <= S (r_num_strips s))%nat /\
  ((r_num_strips s <= max_cluster_strips (r_cfg s))%nat ->
   (r_num_strips s' <= max_cluster_strips (r_cfg s))%nat) /\
  (tid < length (r_tiles s))%nat /\
  forall j, clusters_at s' j =
            clusters_at s j ++ (if decide (j = tid) then [k] else []).
Proof.
  unfold bin_to_tile.
  destruct (r_tiles s !! tid) as [t |] eqn:Ht; [| discriminate].
  pose proof (strips_push_concat (num_strip_clusters (r_cfg s)) k (t_strips t))
    as Hcat.
  destruct (strips_push _ k (t_strips t)) as [strips fresh]. simpl in Hcat.
  set (s1 := set_tiles s (<[tid := tile_with_strips t strips]> (r_tiles s))).
  assert (Hlt : (tid < length (r_tiles s))%nat)
    by (eapply lookup_lt_Some; eassumption).
  assert (Hf1 : Forall2 tile_ext (r_tiles s) (r_tiles s1)).
  { simpl. apply Forall2_same_length_lookup_2;
      [rewrite length_insert; reflexivity |].
    intros i a a' Ha Ha'.
    destruct (decide (i = tid)) as [-> | Hne].
    - rewrite list_lookup_insert_eq in Ha' by assumption.
      assert (a = t) as -> by congruence. injection Ha' as <-.
      repeat split.
    - rewrite list_lookup_insert_ne in Ha' by congruence.
      assert (a = a') as -> by congruence. apply tile_ext_refl. }
  assert (Hat : forall j, clusters_at s1 j =
            clusters_at s j ++ (if decide (j = tid) then [k] else [])).
  { intros j. unfold clusters_at. simpl.
    destruct (decide (j = tid)) as [-> | Hne].
    - rewrite list_lookup_insert_eq, Ht by assumption.
      unfold tile_clusters. simpl. exact Hcat.
    - rewrite list_lookup_insert_ne by congruence.
      rewrite app_nil_r. reflexivity. }
  destruct fresh.
  - unfold capacity_check.
    destruct (Nat.ltb_spec (r_num_strips s) (max_cluster_strips (r_cfg s)));
      [| destruct (checks_enabled (r_build s)); discriminate].
    intros [= <-]. simpl. repeat split; trivial; try lia.
  - intros [= <-]. fold s1. repeat split; trivial; simpl; lia.
Qed.

(** A fresh strip with the pool exhausted is the strip fault. *)
Lemma bin_to_tile_exhausted k s tid t :
  r_tiles s !! tid = Some t ->
  snd (strips_push (num_strip_clusters (r_cfg s)) k (t_strips t)) = true ->
  (max_cluster_strips (r_cfg s) <= r_num_strips s)%nat ->
  bin_to_tile k s tid = capacity_fault (r_build s) limit_cluster_strips.
Proof.
  intros Ht Hfresh Hfull. unfold bin_to_tile. rewrite Ht.
  destruct (strips_push _ k (t_strips t)) as [strips fresh].
  simpl in Hfresh. subst fresh. unfold capacity_check, capacity_fault.
  destruct (Nat.ltb_spec (r_num_strips s) (max_cluster_strips (r_cfg s)));
    [lia | reflexivity].
Qed.

(** In a debug or release build with the tile present, the call returns
    or reports the strip limit. *)
Lemma bin_to_tile_checked k s tid :
  checks_enabled (r_build s) = true -> (tid < length (r_tiles s))%nat ->
  is_Ok (bin_to_tile k s tid) \/
  bin_to_tile k s tid = Fatal limit_cluster_strips.
Proof.
  intros Hb Hlt. unfold bin_to_tile.
  apply lookup_lt_is_Some in Hlt as (t & ->).
  destruct (strips_push _ k (t_strips t)) as [strips [|]]; simpl; auto.
  unfold capacity_check. rewrite Hb.
  destruct (_ <? _)%nat; simpl; auto.
Qed.

(** *** The tiles of one cluster *)

Lemma bin_tiles_Ok k tids : forall s s',
  ofold (bin_to_tile k) tids s = Ok s' ->
  NoDup tids ->
  bin_frame s s' /\ r_clusters s' = r_clusters s /\
  (r_num_strips s <= r_num_strips s')%nat /\
  ((r_num_strips s <= max_cluster_strips (r_cfg s))%nat ->
   (r_num_strips s' <= max_cluster_strips (r_cfg s))%nat) /\
  Forall (fun tid => (tid < length (r_tiles s))%nat) tids /\
  forall j, clusters_at s' j =
            clusters_at s j ++ (if decide (j ∈ tids) then [k] else []).
Proof.
  induction tids as [| tid tids IH]; intros s s' Hrun Hnd; simpl in Hrun.
  - injection Hrun as <-. split; [apply bin_frame_refl |].
    repeat split; trivial. intros j.
    destruct (decide (j ∈ [])) as [Hin |]; [inversion Hin |].
    rewrite app_nil_r. reflexivity.
  - destruct (bin_to_tile k s tid) as [s1 | |] eqn:H1; try discriminate.
    simpl in Hrun. apply NoDup_cons in Hnd as [Hnotin Hnd].
    apply bin_to_tile_Ok in H1 as (Hf1 & Hc1 & Hn1 & Hm1 & Hlt1 & Hat1).
    apply IH in Hrun as (Hf & Hc & Hn & Hm & Hlt & Hat); [| exact Hnd].
    pose proof Hf1 as (Hcfg1 & _).
    split; [eapply bin_frame_trans; eassumption |].
    split; [congruence |]. split; [lia |].
    split; [intros Hle; rewrite Hcfg1 in Hm; auto |].
    split.
    { constructor; [exact Hlt1 |].
      rewrite (bin_frame_length _ _ Hf1) in Hlt. exact Hlt. }
    intros j. rewrite Hat, Hat1, <- app_assoc. f_equal.
    destruct (decide (j = tid)) as [-> | Hne].
    + destruct (decide (tid ∈ tids)) as [Hin | _]; [contradiction |].
      destruct (decide (tid ∈ tid :: tids)) as [_ | Hn'];
        [reflexivity |]. exfalso. apply Hn'. left.
    + simpl.
      destruct (decide (j ∈ tids)) as [Hin | Hnin];
        destruct (decide (j ∈ tid :: tids)) as [Hin' | Hnin'];
        trivial.
      * exfalso. apply Hnin'. right. exact Hin.
      * apply elem_of_cons in Hin' as [-> | Hin']; [congruence | contradiction].
Qed.

Lemma bin_tiles_checked k tids : forall s,
  checks_enabled (r_build s) = true ->
  Forall (fun tid => (tid < length (r_tiles s))%nat) tids ->
  is_Ok (ofold (bin_to_tile k) tids s) \/
  ofold (bin_to_tile k) tids s = Fatal limit_cluster_strips.
Proof.
  induction tids as [| tid tids IH]; intros s Hb Hlt; simpl; [left; exact I |].
  apply Forall_cons in Hlt as [Hlt Hlts].
  destruct (bin_to_tile_checked k s tid Hb Hlt) as [Hok | Hfatal].
  - destruct (bin_to_tile k s tid) as [s1 | |] eqn:H1; try contradiction.
    simpl. apply bin_to_tile_Ok in H1 as (Hf1 & _).
    pose proof Hf1 as (_ & Hb1 & _).
    apply IH; [congruence |].
    rewrite (bin_frame_length _ _ Hf1). exact Hlts.
  - rewrite Hfatal. right. reflexivity.
Qed.
(** *** One cluster *)

Lemma state_wf_frame s s' : bin_frame s s' -> state_wf s -> state_wf s'.
Proof.
  intros Hf (Htw & Hth & Hdev & Hlen & Hbuf).
  pose proof Hf as (Hc & _ & Hd & _ & _ & _ & _ & Ht).
  unfold state_wf. rewrite Hc, Hd, (bin_frame_length _ _ Hf).
  do 4 (split; [assumption |]).
  apply Forall_lookup_2. intros j t' Ht'.
  destruct (r_tiles s !! j) as [t |] eqn:Hs.
  - destruct (bin_frame_lookup _ _ _ _ Hf Hs) as (t'' & Ht'' & (Hr & Hdp & _)).
    assert (t'' = t') as -> by congruence.
    rewrite Hr, Hdp. eapply Forall_lookup_1 in Hbuf; eauto.
  - apply lookup_ge_None in Hs. apply lookup_lt_Some in Ht'.
    rewrite (bin_frame_length _ _ Hf) in Ht'. lia.
Qed.

Lemma bin_frame_set_clusters s cs : bin_frame s (set_clusters s cs).
Proof. pose proof (bin_frame_refl s) as H. exact H. Qed.

Lemma bin_cluster_Ok d p s ci (c : cluster (pso_vtx p)) s' :
  state_wf s ->
  bin_cluster d p s (ci, c) = Ok s' ->
  bin_frame s s' /\
  (r_num_strips s <= r_num_strips s')%nat /\
  ((r_num_strips s <= max_cluster_strips (r_cfg s))%nat ->
   (r_num_strips s' <= max_cluster_strips (r_cfg s))%nat) /\
  if cluster_survives s p (cl_bvol c) (cl_vcone c) then
    (length (r_clusters s) < max_clusters (r_cfg s))%nat /\
    r_clusters s' = r_clusters s ++ [(d, ci)] /\
    forall j, clusters_at s' j =
              clusters_at s j ++
              (if decide (j ∈ overlapped s p c)
               then [length (r_clusters s)] else [])
  else s' = s.
Proof.
  intros (Htw & Hth & (Hfw & Hfh & _) & _) Hrun.
  unfold bin_cluster in Hrun.
  destruct (cluster_survives s p (cl_bvol c) (cl_vcone c)).
  - unfold capacity_check in Hrun.
    destruct (Nat.ltb_spec (length (r_clusters s)) (max_clusters (r_cfg s)));
      [| destruct (checks_enabled (r_build s)); discriminate].
    apply bin_tiles_Ok in Hrun
      as (Hf & Hc & Hn & Hm & _ & Hat);
      [| apply NoDup_tiles_overlapped; assumption].
    split; [exact Hf |]. split; [exact Hn |]. split; [exact Hm |].
    split; [assumption |]. split; [exact Hc |]. exact Hat.
  - injection Hrun as <-. split; [apply bin_frame_refl |].
    repeat split; trivial.
Qed.

(** Debug and release builds on a well-formed state end a cluster with
    a return or with the diagnostic of the limit that was hit. *)
Lemma bin_cluster_checked d p s (ic : nat * cluster (pso_vtx p)) :
  state_wf s -> checks_enabled (r_build s) = true ->
  is_Ok (bin_cluster d p s ic) \/
  bin_cluster d p s ic = Fatal limit_clusters \/
  bin_cluster d p s ic = Fatal limit_cluster_strips.
Proof.
  intros (Htw & Hth & (Hfw & Hfh & _) & Hlen & _) Hb.
  destruct ic as [ci c]. unfold bin_cluster.
  destruct (cluster_survives s p (cl_bvol c) (cl_vcone c)); [| left; exact I].
  unfold capacity_check. rewrite Hb.
  destruct (_ <? _)%nat; [| right; left; reflexivity].
  destruct (bin_tiles_checked (length (r_clusters s))
              (tiles_overlapped (r_cfg s) (r_dev s)
                 (pso_project p (cl_bvol c)))
              (set_clusters s (r_clusters s ++ [(d, ci)])) Hb)
    as [Hok | Hfatal]; auto.
  apply Forall_forall. intros tid Hin. simpl. rewrite Hlen.
  apply list_elem_of_In in Hin.
  eapply tiles_overlapped_lt; eassumption.
Qed.

(** A surviving cluster that finds the cluster table full. *)
Lemma bin_cluster_full d p s ci (c : cluster (pso_vtx p)) :
  cluster_survives s p (cl_bvol c) (cl_vcone c) = true ->
  (max_clusters (r_cfg s) <= length (r_clusters s))%nat ->
  bin_cluster d p s (ci, c) = capacity_fault (r_build s) limit_clusters.
Proof.
  intros Hsv Hfull. unfold bin_cluster, capacity_check, capacity_fault.
  rewrite Hsv.
  destruct (Nat.ltb_spec (length (r_clusters s)) (max_clusters (r_cfg s)));
    [lia | reflexivity].
Qed.

(** *** All clusters of a dispatch *)

Lemma bin_clusters_Ok d p (l : list (nat * cluster (pso_vtx p))) :
  forall s s',
  state_wf s ->
  ofold (bin_cluster d p) l s = Ok s' ->
  bin_frame s s' /\
  (r_num_strips s <= r_num_strips s')%nat /\
  ((r_num_strips s <= max_cluster_strips (r_cfg s))%nat ->
   (r_num_strips s' <= max_cluster_strips (r_cfg s))%nat) /\
  r_clusters s' =
    r_clusters s ++ map (fun ic => (d, fst ic)) (filter (survives_in s p) l) /\
  ((length (r_clusters s) <= max_clusters (r_cfg s))%nat ->
   (length (r_clusters s') <= max_clusters (r_cfg s))%nat) /\
  (forall j, exists more,
      clusters_at s' j = clusters_at s j ++ more /\
      Forall (fun k => (length (r_clusters s) <= k < length (r_clusters s'))%nat)
             more) /\
  (forall ci c, In (ci, c) l -> survives_in s p (ci, c) ->
     exists k, r_clusters s' !! k = Some (d, ci) /\
               (length (r_clusters s) <= k)%nat /\
               forall j, j ∈ overlapped s p c -> k ∈ clusters_at s' j).
Proof.
  induction l as [| [ci c] l IH]; intros s s' Hwf Hrun; simpl in Hrun.
  - injection Hrun as <-. split; [apply bin_frame_refl |].
    split; [lia |]. split; [trivial |].
    split; [simpl; rewrite app_nil_r; reflexivity |].
    split; [trivial |]. split.
    + intros j. exists []. rewrite app_nil_r. split; [reflexivity | constructor].
    + intros ci c [].
  - destruct (bin_cluster d p s (ci, c)) as [s1 | |] eqn:H1; try discriminate.
    cbn [obind] in Hrun.
    apply bin_cluster_Ok in H1 as (Hf1 & Hn1 & Hm1 & Hcase); [| exact Hwf].
    pose proof (state_wf_frame _ _ Hf1 Hwf) as Hwf1.
    apply IH in Hrun as (Hf & Hn & Hm & Hc & Hcap & Hat & Hsv);
      [| exact Hwf1].
    pose proof Hf1 as (Hcfg1 & _ & Hdev1 & _).
    assert (Hfilter : filter (survives_in s1 p) l = filter (survives_in s p) l).
    { apply list_filter_iff. intros ic. unfold survives_in.
      rewrite (cluster_survives_frame _ _ _ _ _ Hf1). reflexivity. }
    rewrite Hfilter in Hc.
    split; [eapply bin_frame_trans; eassumption |].
    split; [lia |].
    split; [intros Hle; rewrite Hcfg1 in Hm; auto |].
    destruct (cluster_survives s p (cl_bvol c) (cl_vcone c)) eqn:Hsurv.
    + destruct Hcase as (Hlt & Hc1 & Hat1).
      rewrite filter_cons_True by exact Hsurv.
      assert (Hc' : r_clusters s' =
                r_clusters s ++
                map (fun ic => (d, fst ic))
                    ((ci, c) :: filter (survives_in s p) l)).
      { rewrite Hc, Hc1, <- app_assoc. reflexivity. }
      assert (Hlen1 : length (r_clusters s1) = S (length (r_clusters s)))
        by (rewrite Hc1, length_app; simpl; lia).
      assert (Hlen' : (length (r_clusters s1) <= length (r_clusters s'))%nat)
        by (rewrite Hc, length_app; lia).
      split; [exact Hc' |].
      split. { intros _. rewrite Hcfg1 in Hcap. apply Hcap. lia. }
      split.
      * intros j. destruct (Hat j) as (more & Hj & Hall).
        exists ((if decide (j ∈ overlapped s p c)
                 then [length (r_clusters s)] else []) ++ more).
        rewrite Hj, Hat1, <- app_assoc. split; [reflexivity |].
        apply Forall_app. split.
        -- destruct (decide (j ∈ overlapped s p c)); constructor;
             [lia | constructor].
        -- eapply Forall_impl; [exact Hall |]. intros k Hk. simpl in Hk. lia.
      * intros ci' c' [Heq | Hin] Hs'.
        -- injection Heq as <- <-.
           exists (length (r_clusters s)). split.
           { rewrite Hc'. rewrite lookup_app_r by lia.
             replace (length (r_clusters s) - length (r_clusters s))%nat
               with 0%nat by lia. reflexivity. }
           split; [lia |]. intros j Hj.
           destruct (Hat j) as (more & -> & _).
           apply elem_of_app. left. rewrite Hat1.
           apply elem_of_app. right.
           destruct (decide (j ∈ overlapped s p c)); [| contradiction].
           left.
        -- destruct (Hsv ci' c' Hin) as (k & Hk & Hge & Hov).
           { unfold survives_in in *. simpl in *.
             rewrite (cluster_survives_frame _ _ _ _ _ Hf1). exact Hs'. }
           exists k. split; [exact Hk |]. split; [lia |].
           intros j Hj. apply Hov.
           unfold overlapped in *. rewrite Hcfg1, Hdev1. exact Hj.
    + subst s1.
      rewrite filter_cons_False
        by (unfold survives_in; simpl; rewrite Hsurv; discriminate).
      split; [exact Hc |]. split; [exact Hcap |]. split; [exact Hat |].
      intros ci' c' [Heq | Hin] Hs'.
      * injection Heq as <- <-. unfold survives_in in Hs'. simpl in Hs'.
        congruence.
      * apply Hsv; assumption.
Qed.

Lemma bin_clusters_checked d p (l : list (nat * cluster (pso_vtx p))) :
  forall s,
  state_wf s -> checks_enabled (r_build s) = true ->
  is_Ok (ofold (bin_cluster d p) l s) \/
  ofold (bin_cluster d p) l s = Fatal limit_clusters \/
  ofold (bin_cluster d p) l s = Fatal limit_cluster_strips.
Proof.
  induction l as [| ic l IH]; intros s Hwf Hb; simpl; [left; exact I |].
  destruct (bin_cluster_checked d p s ic Hwf Hb) as [Hok | [Hf | Hf]].
  - destruct (bin_cluster d p s ic) as [s1 | |] eqn:H1; try contradiction.
    simpl. destruct ic as [ci c].
    apply bin_cluster_Ok in H1 as (Hf1 & _); [| exact Hwf].
    pose proof Hf1 as (_ & Hb1 & _).
    apply IH; [eapply state_wf_frame; eassumption | congruence].
  - rewrite Hf. auto.
  - rewrite Hf. auto.
Qed.

(** With the cluster table full, the first surviving cluster stops the
    dispatch. *)
Lemma bin_clusters_full d p (l : list (nat * cluster (pso_vtx p))) s :
  (max_clusters (r_cfg s) <= length (r_clusters s))%nat ->
  (exists ic, In ic l /\ survives_in s p ic) ->
  ofold (bin_cluster d p) l s = capacity_fault (r_build s) limit_clusters.
Proof.
  intros Hfull. induction l as [| [ci c] l IH]; intros (ic & Hin & Hs);
    [destruct Hin |].
  simpl.
  destruct (cluster_survives s p (cl_bvol c) (cl_vcone c)) eqn:Hsurv.
  - rewrite bin_cluster_full by assumption.
    unfold capacity_fault. destruct (checks_enabled _); reflexivity.
  - unfold bin_cluster at 1. rewrite Hsurv. simpl. apply IH.
    destruct Hin as [<- | Hin].
    + unfold survives_in in Hs. simpl in Hs. congruence.
    + exists ic. auto.
Qed.
(** *** dispatch_pso *)

Lemma In_zip_seq {A} (l : list A) : forall a i x,
  In (i, x) (zip (seq a (length l)) l) <->
  (a <= i)%nat /\ l !! (i - a)%nat = Some x.
Proof.
  induction l as [| y l IH]; intros a i x; simpl.
  - split; [intros [] | intros [_ H]; discriminate].
  - rewrite IH. split.
    + intros [Heq | [Hle Hl]].
      * injection Heq as <- <-. rewrite Nat.sub_diag. auto.
      * split; [lia |].
        replace (i - a)%nat with (S (i - S a)) by lia. exact Hl.
    + intros [Hle Hl]. destruct (decide (i = a)) as [-> | Hne].
      * rewrite Nat.sub_diag in Hl. simpl in Hl. injection Hl as <-. auto.
      * right. split; [lia |].
        replace (i - a)%nat with (S (i - S a)) in Hl by lia. exact Hl.
Qed.

(** The clusters of the PSO with their indices, as [dispatch_pso] walks
    them. *)
Lemma In_indexed p ci (c : cluster (pso_vtx p)) :
  In (ci, c) (zip (seq 0 (length (pso_geometry p))) (pso_geometry p)) <->
  pso_geometry p !! ci = Some c.
Proof.
  rewrite In_zip_seq, Nat.sub_0_r. split; [tauto | split; [lia | assumption]].
Qed.

Lemma note_dispatch_fields p s :
  r_cfg (note_dispatch p s) = r_cfg s /\
  r_build (note_dispatch p s) = r_build s /\
  r_dev (note_dispatch p s) = r_dev s /\
  r_clear_depth (note_dispatch p s) = r_clear_depth s /\
  r_clear_color (note_dispatch p s) = r_clear_color s /\
  r_tiles (note_dispatch p s) = r_tiles s /\
  r_dispatches (note_dispatch p s) = r_dispatches s /\
  r_clusters (note_dispatch p s) = r_clusters s /\
  r_num_strips (note_dispatch p s) = r_num_strips s.
Proof.
  unfold note_dispatch. destruct (checks_enabled (r_build s));
    repeat split.
Qed.

Lemma clusters_at_note_dispatch p s j :
  clusters_at (note_dispatch p s) j = clusters_at s j.
Proof.
  unfold clusters_at.
  destruct (note_dispatch_fields p s) as (_ & _ & _ & _ & _ & -> & _).
  reflexivity.
Qed.

(** What a returning [dispatch_pso] has done. *)
Lemma dispatch_pso_Ok s p s' :
  state_wf s ->
  dispatch_pso s p = Ok s' ->
  let d := length (r_dispatches s) in
  let indexed := zip (seq 0 (length (pso_geometry p))) (pso_geometry p) in
  (d < max_dispatches (r_cfg s))%nat /\
  (r_cfg s' = r_cfg s /\ r_build s' = r_build s /\ r_dev s' = r_dev s /\
   r_clear_depth s' = r_clear_depth s /\ r_clear_color s' = r_clear_color s) /\
  r_dispatches s' = r_dispatches s ++ [p] /\
  Forall2 tile_ext (r_tiles s) (r_tiles s') /\
  (r_num_strips s <= r_num_strips s')%nat /\
  ((r_num_strips s <= max_cluster_strips (r_cfg s))%nat ->
   (r_num_strips s' <= max_cluster_strips (r_cfg s))%nat) /\
  r_clusters s' =
    r_clusters s ++ map (fun ic => (d, fst ic)) (filter (survives_in s p) indexed) /\
  ((length (r_clusters s) <= max_clusters (r_cfg s))%nat ->
   (length (r_clusters s') <= max_clusters (r_cfg s))%nat) /\
  (forall j, exists more,
      clusters_at s' j = clusters_at s j ++ more /\
      Forall (fun k => (length (r_clusters s) <= k < length (r_clusters s'))%nat)
             more) /\
  (forall ci c, pso_geometry p !! ci = Some c ->
     cluster_survives s p (cl_bvol c) (cl_vcone c) = true ->
     exists k, r_clusters s' !! k = Some (d, ci) /\
               (length (r_clusters s) <= k)%nat /\
               forall j, j ∈ overlapped s p c -> k ∈ clusters_at s' j).
Proof.
  intros Hwf Hrun d indexed. unfold dispatch_pso, capacity_check in Hrun.
  destruct (Nat.ltb_spec (length (r_dispatches s)) (max_dispatches (r_cfg s)));
    [| destruct (checks_enabled (r_build s)); discriminate].
  fold d indexed in Hrun.
  set (s0 := set_dispatches s (r_dispatches s ++ [p])) in Hrun.
  destruct (ofold (bin_cluster d p) indexed s0) as [s2 | |] eqn:Hfold;
    try discriminate.
  cbn [obind] in Hrun. injection Hrun as <-.
  apply (bin_clusters_Ok d p indexed s0 s2 Hwf) in Hfold
    as (Hf & Hn & Hm & Hc & Hcap & Hat & Hsv).
  destruct Hf as (Hcfg & Hb & Hdev & Hcd & Hcc & Hdis & _ & Ht).
  destruct (note_dispatch_fields p s2)
    as (-> & -> & -> & -> & -> & -> & -> & -> & ->).
  split; [assumption |]. split; [repeat split; assumption |].
  split; [exact Hdis |]. split; [exact Ht |]. split; [exact Hn |].
  split; [exact Hm |]. split; [exact Hc |]. split; [exact Hcap |].
  split.
  - intros j. rewrite clusters_at_note_dispatch. apply Hat.
  - intros ci c Hci Hs.
    destruct (Hsv ci c) as (k & Hk & Hge & Hov);
      [apply In_indexed; exact Hci | exact Hs |].
    exists k. split; [exact Hk |]. split; [exact Hge |].
    intros j Hj. rewrite clusters_at_note_dispatch. apply Hov. exact Hj.
Qed.

(** Debug and release builds on a well-formed state: the call returns
    or names one of the three limits of binning. *)
Lemma dispatch_pso_checked s p :
  state_wf s -> checks_enabled (r_build s) = true ->
  is_Ok (dispatch_pso s p) \/
  dispatch_pso s p = Fatal limit_dispatches \/
  dispatch_pso s p = Fatal limit_clusters \/
  dispatch_pso s p = Fatal limit_cluster_strips.
Proof.
  intros Hwf Hb. unfold dispatch_pso, capacity_check. rewrite Hb.
  destruct (_ <? _)%nat; [| auto].
  set (s0 := set_dispatches s (r_dispatches s ++ [p])).
  destruct (bin_clusters_checked (length (r_dispatches s)) p
              (zip (seq 0 (length (pso_geometry p))) (pso_geometry p))
              s0 Hwf Hb) as [Hok | [Hf | Hf]].
  - destruct (ofold _ _ s0); try contradiction. left. exact I.
  - rewrite Hf. auto.
  - rewrite Hf. auto.
Qed.

(** A retail build never reports: a call that does not return is
    undefined. *)
Lemma capacity_check_retail {A} l fits (k : outcome A) :
  (forall l', k <> Fatal l') ->
  forall l', capacity_check EGL_RETAIL l fits k <> Fatal l'.
Proof.
  intros Hk l'. unfold capacity_check. destruct fits; [apply Hk |].
  simpl. discriminate.
Qed.

Lemma ofold_no_fatal {A B} (f : A -> B -> outcome A) (I : A -> Prop) l :
  (forall a b, I a -> forall l', f a b <> Fatal l') ->
  (forall a b a', I a -> f a b = Ok a' -> I a') ->
  forall a, I a -> forall l', ofold f l a <> Fatal l'.
Proof.
  intros Hf Hinv. induction l as [| b l IH]; intros a Ha l'; simpl;
    [discriminate |].
  destruct (f a b) as [a' | lf |] eqn:Hfab; simpl.
  - apply IH. eapply Hinv; eassumption.
  - exfalso. eapply Hf; eassumption.
  - discriminate.
Qed.

Lemma bin_to_tile_build k s tid s' :
  bin_to_tile k s tid = Ok s' -> r_build s' = r_build s.
Proof. intros H. apply bin_to_tile_Ok in H as ((_ & Hb & _) & _). exact Hb. Qed.

Lemma bin_to_tile_retail k s tid :
  r_build s = EGL_RETAIL -> forall l', bin_to_tile k s tid <> Fatal l'.
Proof.
  intros Hb l'. unfold bin_to_tile.
  destruct (r_tiles s !! tid) as [t |]; [| discriminate].
  destruct (strips_push _ k (t_strips t)) as [strips [|]]; [| discriminate].
  rewrite Hb. apply capacity_check_retail. discriminate.
Qed.

Lemma bin_cluster_build d p s (ic : nat * cluster (pso_vtx p)) s' :
  bin_cluster d p s ic = Ok s' -> r_build s' = r_build s.
Proof.
  destruct ic as [ci c]. unfold bin_cluster, capacity_check.
  destruct (cluster_survives _ _ _ _); [| intros [= <-]; reflexivity].
  destruct (_ <? _)%nat; [| destruct (checks_enabled _); discriminate].
  assert (Hgen : forall tids (a a' : rasterizer P D),
    ofold (bin_to_tile (length (r_clusters s))) tids a = Ok a' ->
    r_build a' = r_build a).
  { induction tids as [| tid tids IH]; intros a a' Hrun; simpl in Hrun.
    - injection Hrun as <-. reflexivity.
    - destruct (bin_to_tile _ a tid) as [a1 | |] eqn:H1; try discriminate.
      cbn [obind] in Hrun. apply IH in Hrun.
      apply bin_to_tile_build in H1. congruence. }
  intros Hrun. apply Hgen in Hrun. exact Hrun.
Qed.

Lemma dispatch_pso_retail s p :
  r_build s = EGL_RETAIL -> forall l', dispatch_pso s p <> Fatal l'.
Proof.
  intros Hb l'. unfold dispatch_pso. rewrite Hb.
  apply capacity_check_retail. clear l'. intros l'.
  set (s0 := set_dispatches s (r_dispatches s ++ [p])).
  assert (Hfold : forall l', ofold (bin_cluster (length (r_dispatches s)) p)
            (zip (seq 0 (length (pso_geometry p))) (pso_geometry p)) s0
            <> Fatal l').
  { apply (ofold_no_fatal _ (fun a => r_build a = EGL_RETAIL)).
    - intros a [ci c] Ha l''. unfold bin_cluster.
      destruct (cluster_survives _ _ _ _); [| discriminate].
      rewrite Ha. apply capacity_check_retail.
      apply (ofold_no_fatal _ (fun a => r_build a = EGL_RETAIL)).
      + intros a0 tid Ha0. apply bin_to_tile_retail. exact Ha0.
      + intros a0 tid a0' Ha0 Hrun. apply bin_to_tile_build in Hrun.
        congruence.
      + exact Ha.
    - intros a ic a' Ha Hrun. apply bin_cluster_build in Hrun. congruence.
    - exact Hb. }
  destruct (ofold _ _ s0) as [s2 | lf |] eqn:Hrun; simpl; try discriminate.
  exfalso. eapply Hfold. reflexivity.
Qed.

(** Too many dispatches. *)
Lemma dispatch_pso_too_many s p :
  (max_dispatches (r_cfg s) <= length (r_dispatches s))%nat ->
  dispatch_pso s p = capacity_fault (r_build s) limit_dispatches.
Proof.
  intros Hfull. unfold dispatch_pso, capacity_check, capacity_fault.
  destruct (Nat.ltb_spec (length (r_dispatches s)) (max_dispatches (r_cfg s)));
    [lia | reflexivity].
Qed.

(** Too many clusters. *)
Lemma dispatch_pso_table_full s p ci c :
  (length (r_dispatches s) < max_dispatches (r_cfg s))%nat ->
  (max_clusters (r_cfg s) <= length (r_clusters s))%nat ->
  pso_geometry p !! ci = Some c ->
  cluster_survives s p (cl_bvol c) (cl_vcone c) = true ->
  dispatch_pso s p = capacity_fault (r_build s) limit_clusters.
Proof.
  intros Hd Hfull Hci Hs. unfold dispatch_pso, capacity_check.
  destruct (Nat.ltb_spec (length (r_dispatches s)) (max_dispatches (r_cfg s)));
    [| lia].
  set (s0 := set_dispatches s (r_dispatches s ++ [p])).
  rewrite (bin_clusters_full _ p _ s0).
  - unfold capacity_fault. simpl. destruct (checks_enabled _); reflexivity.
  - exact Hfull.
  - exists (ci, c). split; [apply In_indexed; exact Hci | exact Hs].
Qed.
(** *** Frustum culling decides "fully outside" *)

Lemma depth_max_nonneg f : 0 <= depth_max f.
Proof. destruct f; simpl; lia. Qed.

Lemma frustum_culled_spec cfg (dev : graphics_device D) b :
  frustum_culled cfg dev b = true <-> outside_frustum cfg dev b.
Proof.
  unfold frustum_culled, outside_frustum, in_bounds, in_view.
  pose proof (depth_max_nonneg (depth_format cfg)) as Hdm.
  rewrite !orb_true_iff, !Z.leb_le, !Z.ltb_lt. split.
  - intros Hc x y z Hb Hv. lia.
  - intros Hout.
    destruct (decide
      (Z.min (fb_width dev) (bx1 b) <= Z.max 0 (bx0 b) \/
       Z.min (fb_height dev) (by1 b) <= Z.max 0 (by0 b) \/
       Z.min (depth_max (depth_format cfg)) (bz1 b) < Z.max 0 (bz0 b)))
      as [Hc | Hnc]; [tauto |].
    exfalso.
    apply (Hout (Z.max 0 (bx0 b)) (Z.max 0 (by0 b)) (Z.max 0 (bz0 b))); lia.
Qed.

Lemma cluster_survives_not_culled s p bv vc :
  cluster_survives s p bv vc = true ->
  frustum_culled (r_cfg s) (r_dev s) (pso_project p bv) = false.
Proof.
  unfold cluster_survives. rewrite !andb_true_iff, !negb_true_iff. tauto.
Qed.

(** C4.  Binning and the view frustum.  After a returning [dispatch_pso]
    of the PSO [p] as dispatch number [d]: a cluster of [p] whose bounds
    lie fully outside the view frustum has no entry in the cluster table,
    so no entry of any tile's strips refers to it and [commit], which
    reaches clusters through these entries only, rasterizes none of its
    triangles; a cluster that survives the culling has an entry, and that
    entry is in the strips of every tile of the grid its screen-space
    bounds overlap. *)
Theorem binning_excludes_clusters_outside_frustum s p s' :
  state_wf s -> table_wf s ->
  dispatch_pso s p = Ok s' ->
  let d := length (r_dispatches s) in
  (forall ci c, pso_geometry p !! ci = Some c ->
     outside_frustum (r_cfg s) (r_dev s) (pso_project p (cl_bvol c)) ->
     ((d, ci) ∉ r_clusters s') /\
     forall j k, k ∈ clusters_at s' j -> r_clusters s' !! k <> Some (d, ci))
  /\
  (forall ci c, pso_geometry p !! ci = Some c ->
     cluster_survives s p (cl_bvol c) (cl_vcone c) = true ->
     exists k, r_clusters s' !! k = Some (d, ci) /\
       forall tx ty,
         0 <= tx < tiles_x (r_cfg s) (r_dev s) ->
         0 <= ty < tiles_y (r_cfg s) (r_dev s) ->
         bounds_overlap_tile (r_cfg s) (pso_project p (cl_bvol c)) tx ty ->
         k ∈ clusters_at s' (tile_id (r_cfg s) (r_dev s) tx ty)).
Proof.
  intros Hwf Htab Hrun d.
  pose proof Hwf as (Htw & Hth & (Hfw & Hfh & _) & _).
  apply dispatch_pso_Ok in Hrun
    as (_ & _ & _ & _ & _ & _ & Hc & _ & _ & Hsv); [| exact Hwf].
  fold d in Hc, Hsv. split.
  - intros ci c Hci Hout.
    assert (Hnot : (d, ci) ∉ r_clusters s').
    { rewrite Hc. intros Hin. apply elem_of_app in Hin as [Hold | Hnew].
      - unfold table_wf in Htab. rewrite Forall_forall in Htab.
        apply Htab in Hold. simpl in Hold. unfold d in Hold. lia.
      - apply list_elem_of_In, in_map_iff in Hnew as ([ci' c'] & Heq & Hin).
        simpl in Heq. injection Heq as ->.
        apply list_elem_of_In, list_elem_of_filter in Hin as [Hs Hin].
        apply list_elem_of_In, In_indexed in Hin.
        assert (c' = c) as -> by congruence.
        unfold survives_in in Hs. simpl in Hs.
        apply cluster_survives_not_culled in Hs.
        apply frustum_culled_spec in Hout. congruence. }
    split; [exact Hnot |].
    intros j k _ Hk. apply Hnot. eapply list_elem_of_lookup_2. exact Hk.
  - intros ci c Hci Hs.
    destruct (Hsv ci c Hci Hs) as (k & Hk & _ & Hov).
    exists k. split; [exact Hk |].
    intros tx ty Hx Hy Hover. apply Hov. unfold overlapped.
    apply list_elem_of_In.
    apply tiles_overlapped_complete; assumption.
Qed.

End BinningFacts.

(** ** Rasterization of a tile *)

Section RasterFacts.
Context {P D : Type}.
Implicit Types (s : rasterizer P D) (t : tile P) (p : pso P).

Lemma tile_pixel_Some n t off :
  tile_wf n t -> (off < n)%nat -> exists c d, tile_pixel t off = Some (c, d).
Proof.
  intros [Hr Hd] Hlt. unfold tile_pixel.
  destruct (lookup_lt_is_Some_2 (t_rt0 t) off) as (c & ->); [lia |].
  destruct (lookup_lt_is_Some_2 (t_depth t) off) as (d & ->); [lia |].
  eauto.
Qed.

Lemma tile_pixel_rt0 t off (o : option (P * Z)) :
  tile_pixel t off = o -> t_rt0 t !! off = fst <$> o \/ o = None.
Proof.
  unfold tile_pixel. intros <-.
  destruct (t_rt0 t !! off); [| auto].
  destruct (t_depth t !! off); auto.
Qed.

Lemma tile_store_wf n hiz t off fr :
  tile_wf n t -> tile_wf n (tile_store hiz t off fr).
Proof.
  intros [Hr Hd]. unfold tile_wf, tile_store. simpl.
  rewrite !length_insert. auto.
Qed.

Lemma tile_store_pixel n hiz t off fr off' :
  tile_wf n t -> (off < n)%nat ->
  tile_pixel (tile_store hiz t off fr) off' =
    if decide (off' = off) then Some (fr_color fr, fr_depth fr)
    else tile_pixel t off'.
Proof.
  intros [Hr Hd] Hlt. unfold tile_pixel, tile_store. simpl.
  destruct (decide (off' = off)) as [-> | Hne].
  - rewrite !list_lookup_insert_eq by lia. reflexivity.
  - rewrite !list_lookup_insert_ne by congruence. reflexivity.
Qed.

(** One pixel step touches its own offset only. *)
Lemma raster_pixel_wf n cfg (dev : graphics_device D) tid p v0 v1 v2 prim t off :
  tile_wf n t -> tile_wf n (raster_pixel cfg dev tid p v0 v1 v2 prim t off).
Proof.
  intros Hwf. unfold raster_pixel.
  destruct (t_rt0 t !! off); [| exact Hwf].
  destruct (t_depth t !! off); [| exact Hwf].
  destruct (fragment_at _ _ _ _ _ _ _ _ _); [| exact Hwf].
  apply tile_store_wf. exact Hwf.
Qed.

Lemma raster_pixel_strips cfg (dev : graphics_device D) tid p v0 v1 v2 prim t off :
  t_strips (raster_pixel cfg dev tid p v0 v1 v2 prim t off) = t_strips t.
Proof.
  unfold raster_pixel.
  destruct (t_rt0 t !! off); [| reflexivity].
  destruct (t_depth t !! off); [| reflexivity].
  destruct (fragment_at _ _ _ _ _ _ _ _ _); reflexivity.
Qed.

Lemma raster_pixel_pixel n cfg (dev : graphics_device D) tid p v0 v1 v2 prim
    t off off' :
  tile_wf n t -> (off < n)%nat ->
  tile_pixel (raster_pixel cfg dev tid p v0 v1 v2 prim t off) off' =
    if decide (off' = off)
    then pixel_after p v0 v1 v2 prim
           (tile_px cfg dev tid off) (tile_py cfg dev tid off)
         <$> tile_pixel t off
    else tile_pixel t off'.
Proof.
  intros Hwf Hlt. pose proof Hwf as [Hr Hd].
  unfold raster_pixel, pixel_after.
  destruct (lookup_lt_is_Some_2 (t_rt0 t) off) as (c & Hc); [lia |].
  destruct (lookup_lt_is_Some_2 (t_depth t) off) as (d & Hdd); [lia |].
  assert (Hpix : tile_pixel t off = Some (c, d))
    by (unfold tile_pixel; rewrite Hc, Hdd; reflexivity).
  rewrite Hc, Hdd, Hpix. simpl.
  destruct (fragment_at _ _ _ _ _ _ _ c d) as [fr |].
  - rewrite (tile_store_pixel n) by assumption.
    destruct (decide (off' = off)); reflexivity.
  - destruct (decide (off' = off)) as [-> | Hne]; [exact Hpix | reflexivity].
Qed.

(** A triangle: every pixel of the tile sees the fragment of its own
    position and nothing else. *)
Lemma raster_pixels_spec n cfg (dev : graphics_device D) tid p v0 v1 v2 prim
    offs : forall t,
  tile_wf n t -> NoDup offs -> Forall (fun off => (off < n)%nat) offs ->
  let t' := fold_left (raster_pixel cfg dev tid p v0 v1 v2 prim) offs t in
  tile_wf n t' /\ t_strips t' = t_strips t /\
  forall off,
    tile_pixel t' off =
      if decide (off ∈ offs)
      then pixel_after p v0 v1 v2 prim
             (tile_px cfg dev tid off) (tile_py cfg dev tid off)
           <$> tile_pixel t off
      else tile_pixel t off.
Proof.
  induction offs as [| o offs IH]; intros t Hwf Hnd Hlt; simpl.
  - split; [exact Hwf |]. split; [reflexivity |]. intros off.
    destruct (decide (off ∈ [])) as [Hin |]; [inversion Hin | reflexivity].
  - apply NoDup_cons in Hnd as [Hnotin Hnd].
    apply Forall_cons in Hlt as [Ho Hlt].
    set (t1 := raster_pixel cfg dev tid p v0 v1 v2 prim t o).
    assert (Hwf1 : tile_wf n t1) by (apply raster_pixel_wf; exact Hwf).
    destruct (IH t1 Hwf1 Hnd Hlt) as (Hwf' & Hs' & Hpix).
    split; [exact Hwf' |].
    split; [rewrite Hs'; apply raster_pixel_strips |].
    intros off. rewrite Hpix. unfold t1.
    rewrite (raster_pixel_pixel n) by assumption.
    destruct (decide (off = o)) as [-> | Hne].
    + destruct (decide (o ∈ offs)); [contradiction |].
      destruct (decide (o ∈ o :: offs)) as [_ | Hn]; [reflexivity |].
      exfalso. apply Hn. left.
    + destruct (decide (off ∈ offs)) as [Hin | Hnin];
        destruct (decide (off ∈ o :: offs)) as [Hin' | Hnin']; trivial.
      * exfalso. apply Hnin'. right. exact Hin.
      * apply elem_of_cons in Hin' as [-> | Hin']; [congruence | contradiction].
Qed.

Lemma rasterize_triangle_spec cfg (dev : graphics_device D) tid p v0 v1 v2
    prim t :
  tile_wf (tile_pixels cfg) t ->
  let t' := rasterize_triangle cfg dev tid p v0 v1 v2 prim t in
  tile_wf (tile_pixels cfg) t' /\ t_strips t' = t_strips t /\
  forall off, (off < tile_pixels cfg)%nat ->
    tile_pixel t' off =
      pixel_after p v0 v1 v2 prim
        (tile_px cfg dev tid off) (tile_py cfg dev tid off)
      <$> tile_pixel t off.
Proof.
  intros Hwf t'. subst t'. unfold rasterize_triangle.
  destruct (raster_pixels_spec (tile_pixels cfg) cfg dev tid p v0 v1 v2 prim
              (seq 0 (tile_pixels cfg)) t Hwf)
    as (Hwf' & Hs & Hpix).
  - apply NoDup_seq.
  - apply Forall_forall. intros off Hin. apply elem_of_seq in Hin. lia.
  - split; [exact Hwf' |]. split; [exact Hs |].
    intros off Hlt. rewrite Hpix.
    destruct (decide (off ∈ seq 0 (tile_pixels cfg))) as [_ | Hn];
      [reflexivity |].
    exfalso. apply Hn, elem_of_seq. lia.
Qed.

(** The loops above keep the tile in shape. *)
Lemma rasterize_geometry_wf s tid p c t t' :
  tile_wf (tile_pixels (r_cfg s)) t ->
  rasterize_geometry s tid p c t = Ok t' ->
  tile_wf (tile_pixels (r_cfg s)) t' /\ t_strips t' = t_strips t.
Proof.
  intros Hwf. unfold rasterize_geometry, transform_cluster, capacity_check.
  destruct (_ <=? _)%nat; [| destruct (checks_enabled _); discriminate].
  cbn [obind].
  generalize (zip (seq 0 (length (triangles (cl_indices c))))
                  (triangles (cl_indices c))) as tris.
  intros tris. revert t Hwf.
  induction tris as [| [prim [[i0 i1] i2]] tris IH]; intros t Hwf Hrun;
    simpl in Hrun.
  - injection Hrun as <-. auto.
  - unfold rasterize_indexed in Hrun at 1.
    destruct (imap _ _ !! i0) as [v0 |]; [| discriminate].
    destruct (imap _ _ !! i1) as [v1 |]; [| discriminate].
    destruct (imap _ _ !! i2) as [v2 |]; [| discriminate].
    cbn [obind] in Hrun.
    destruct (rasterize_triangle_spec (r_cfg s) (r_dev s) tid p v0 v1 v2
                (Z.of_nat prim) t Hwf) as (Hwf1 & Hs1 & _).
    apply IH in Hrun as [Hwf' Hs']; [| exact Hwf1].
    split; [exact Hwf' | congruence].
Qed.

Lemma rasterize_cluster_wf s tid t k t' :
  tile_wf (tile_pixels (r_cfg s)) t ->
  rasterize_cluster s tid t k = Ok t' ->
  tile_wf (tile_pixels (r_cfg s)) t' /\ t_strips t' = t_strips t.
Proof.
  intros Hwf. unfold rasterize_cluster.
  destruct (r_clusters s !! k) as [[d ci] |]; [| discriminate].
  destruct (r_dispatches s !! d) as [p |]; [| discriminate].
  destruct (pso_geometry p !! ci) as [c |]; [| discriminate].
  apply rasterize_geometry_wf. exact Hwf.
Qed.

Lemma rasterize_clusters_wf s tid ks : forall t t',
  tile_wf (tile_pixels (r_cfg s)) t ->
  ofold (rasterize_cluster s tid) ks t = Ok t' ->
  tile_wf (tile_pixels (r_cfg s)) t' /\ t_strips t' = t_strips t.
Proof.
  induction ks as [| k ks IH]; intros t t' Hwf Hrun; simpl in Hrun.
  - injection Hrun as <-. auto.
  - destruct (rasterize_cluster s tid t k) as [t1 | |] eqn:H1; try discriminate.
    cbn [obind] in Hrun.
    apply rasterize_cluster_wf in H1 as [Hwf1 Hs1]; [| exact Hwf].
    apply IH in Hrun as [Hwf' Hs']; [| exact Hwf1].
    split; [exact Hwf' | congruence].
Qed.

Lemma rasterize_tile_wf s tid t t' :
  tile_wf (tile_pixels (r_cfg s)) t ->
  rasterize_tile s tid t = Ok t' ->
  tile_wf (tile_pixels (r_cfg s)) t' /\ t_strips t' = t_strips t.
Proof. unfold rasterize_tile. apply rasterize_clusters_wf. Qed.
End RasterFacts.

(** ** commit *)

Section CommitFacts.
Context {P D : Type}.
Implicit Types (s : rasterizer P D) (t : tile P) (p : pso P).

Lemma ofold_ext {A B} (f g : A -> B -> outcome A) l :
  (forall a b, f a b = g a b) -> forall a, ofold f l a = ofold g l a.
Proof.
  intros Hfg. induction l as [| b l IH]; intros a; simpl; trivial.
  rewrite Hfg. destruct (g a b); simpl; auto.
Qed.

Lemma fold_left_ext {A B} (f g : A -> B -> A) l :
  (forall a b, f a b = g a b) -> forall a, fold_left f l a = fold_left g l a.
Proof.
  intros Hfg. induction l as [| b l IH]; intros a; simpl; trivial.
  rewrite Hfg. apply IH.
Qed.

(** The rasterizer looks at the device for the width of the frame buffer
    only. *)
Lemma tile_px_width cfg (dev dev' : graphics_device D) tid off :
  fb_width dev' = fb_width dev ->
  tile_px cfg dev' tid off = tile_px cfg dev tid off /\
  tile_py cfg dev' tid off = tile_py cfg dev tid off.
Proof.
  intros Hw. unfold tile_px, tile_py, tile_tx, tile_ty, tiles_x.
  rewrite Hw. auto.
Qed.

Lemma rasterize_triangle_width cfg (dev dev' : graphics_device D) tid p
    v0 v1 v2 prim t :
  fb_width dev' = fb_width dev ->
  rasterize_triangle cfg dev' tid p v0 v1 v2 prim t
  = rasterize_triangle cfg dev tid p v0 v1 v2 prim t.
Proof.
  intros Hw. unfold rasterize_triangle. apply fold_left_ext.
  intros a off. unfold raster_pixel.
  destruct (tile_px_width cfg dev dev' tid off Hw) as [-> ->]. reflexivity.
Qed.

Lemma rasterize_tile_same s s' tid t :
  raster_same s s' -> rasterize_tile s' tid t = rasterize_tile s tid t.
Proof.
  intros (Hc & Hb & Hw & Hd & Hk). unfold rasterize_tile.
  apply ofold_ext. intros a k. unfold rasterize_cluster.
  rewrite Hk, Hd.
  destruct (r_clusters s !! k) as [[d ci] |]; [| reflexivity].
  destruct (r_dispatches s !! d) as [p |]; [| reflexivity].
  destruct (pso_geometry p !! ci) as [c |]; [| reflexivity].
  unfold rasterize_geometry, transform_cluster. rewrite Hc, Hb.
  unfold capacity_check.
  destruct (_ <=? _)%nat;
    [| destruct (checks_enabled (r_build s)); reflexivity].
  cbn [obind].
  apply ofold_ext. intros a' [prim [[i0 i1] i2]]. unfold rasterize_indexed.
  destruct (imap _ _ !! i0); [| reflexivity].
  destruct (imap _ _ !! i1); [| reflexivity].
  destruct (imap _ _ !! i2); [| reflexivity].
  rewrite (rasterize_triangle_width _ (r_dev s) (r_dev s')) by exact Hw.
  reflexivity.
Qed.

(** *** The transfer of a tile *)

Lemma transfer_pixel_dims tsh convert cfg tid t (dev : graphics_device D) off :
  let dev' := transfer_pixel convert tsh cfg tid t dev off in
  fb_width dev' = fb_width dev /\ fb_height dev' = fb_height dev /\
  (device_wf dev -> device_wf dev').
Proof.
  unfold transfer_pixel.
  destruct (on_screen dev _ _); [| auto].
  destruct (transfer_value _ _ _ _ _ _); [| auto].
  simpl. split; [reflexivity |]. split; [reflexivity |].
  unfold device_wf. simpl. rewrite length_insert. auto.
Qed.

Lemma transfer_pixel_get tsh convert cfg tid t (dev : graphics_device D) off
    x y :
  device_wf dev ->
  fb_get (transfer_pixel convert tsh cfg tid t dev off) x y =
    if decide (x = tile_px cfg dev tid off /\ y = tile_py cfg dev tid off)
    then match transfer_value convert tsh t off x y with
         | Some v => if on_screen dev x y then Some v else None
         | None => fb_get dev x y
         end
    else fb_get dev x y.
Proof.
  intros Hwf. unfold transfer_pixel.
  set (px := tile_px cfg dev tid off). set (py := tile_py cfg dev tid off).
  destruct (on_screen dev px py) eqn:Hon.
  - destruct (decide (x = px /\ y = py)) as [[-> ->] | Hne].
    + destruct (transfer_value convert tsh t off px py) as [v |];
        [| reflexivity].
      assert (Hput : fb_put dev px py v =
                Ok (mk_device (fb_width dev) (fb_height dev)
                      (<[fb_index dev px py := v]> (fb dev))))
        by (unfold fb_put; rewrite Hon; reflexivity).
      rewrite (fb_get_put _ _ _ _ _ _ _ Hwf Hput), !Z.eqb_refl, Hon.
      reflexivity.
    + destruct (transfer_value convert tsh t off px py) as [v |];
        [| reflexivity].
      assert (Hput : fb_put dev px py v =
                Ok (mk_device (fb_width dev) (fb_height dev)
                      (<[fb_index dev px py := v]> (fb dev))))
        by (unfold fb_put; rewrite Hon; reflexivity).
      rewrite (fb_get_put _ _ _ _ _ _ _ Hwf Hput).
      destruct (Z.eqb_spec x px), (Z.eqb_spec y py); simpl; trivial.
      exfalso. apply Hne. auto.
  - destruct (decide (x = px /\ y = py)) as [[-> ->] | Hne]; [| reflexivity].
    unfold fb_get. rewrite Hon.
    destruct (transfer_value convert tsh t off px py); reflexivity.
Qed.

Lemma transfer_pixels_get tsh (convert : P -> D) cfg tid t
    (dev0 : graphics_device D)
    x y offs :
  0 < tile_width cfg -> 0 < tile_height cfg ->
  0 <= fb_width dev0 -> 0 <= fb_height dev0 ->
  (tid < num_tiles cfg dev0)%nat ->
  on_screen dev0 x y = true ->
  NoDup offs -> Forall (fun off => (off < tile_pixels cfg)%nat) offs ->
  forall dev : graphics_device D,
  fb_width dev = fb_width dev0 -> fb_height dev = fb_height dev0 ->
  device_wf dev ->
  let dev' := fold_left (transfer_pixel convert tsh cfg tid t) offs dev in
  fb_width dev' = fb_width dev0 /\ fb_height dev' = fb_height dev0 /\
  device_wf dev' /\
  fb_get dev' x y =
    if decide (tid = tile_of_pixel cfg dev0 x y /\
               offset_of_pixel cfg x y ∈ offs)
    then match transfer_value convert tsh t (offset_of_pixel cfg x y) x y with
         | Some v => Some v
         | None => fb_get dev x y
         end
    else fb_get dev x y.
Proof.
  intros Htw Hth Hfw Hfh Htid Hon.
  pose proof Hon as Hxy. apply on_screen_spec in Hxy as [Hx Hy].
  induction offs as [| o offs IH]; intros Hnd Hlt dev Hw Hh Hwf; simpl.
  - do 3 (split; [assumption |]).
    destruct (decide _) as [[_ Hin] |]; [inversion Hin | reflexivity].
  - apply NoDup_cons in Hnd as [Hnotin Hnd].
    apply Forall_cons in Hlt as [Ho Hlt].
    set (dev1 := transfer_pixel convert tsh cfg tid t dev o).
    destruct (transfer_pixel_dims tsh convert cfg tid t dev o)
      as (Hw1 & Hh1 & Hwf1).
    fold dev1 in Hw1, Hh1, Hwf1.
    destruct (IH Hnd Hlt dev1) as (Hw' & Hh' & Hwf' & Hget);
      [congruence | congruence | auto |].
    do 3 (split; [assumption |]).
    rewrite Hget. unfold dev1.
    rewrite transfer_pixel_get by assumption.
    destruct (tile_px_width cfg dev0 dev tid o Hw) as [-> ->].
    assert (Hon' : on_screen dev x y = true)
      by (unfold on_screen; rewrite Hw, Hh; exact Hon).
    rewrite Hon'.
    destruct (decide (x = tile_px cfg dev0 tid o /\ y = tile_py cfg dev0 tid o))
      as [[Hpx Hpy] | Hne].
    + (* the pixel is this offset of this tile *)
      destruct (tile_pixel_unique cfg dev0 Htw Hth Hfw Hfh tid o x y)
        as [Ht Hoff]; auto.
      rewrite <- Hoff.
      destruct (decide (tid = tile_of_pixel cfg dev0 x y /\ o ∈ offs))
        as [[_ Hin] | _]; [contradiction |].
      destruct (decide (tid = tile_of_pixel cfg dev0 x y /\ o ∈ o :: offs))
        as [_ | Hn]; [| exfalso; apply Hn; split; [exact Ht | left]].
      destruct (transfer_value convert tsh t o x y); reflexivity.
    + destruct (decide (tid = tile_of_pixel cfg dev0 x y /\
                        offset_of_pixel cfg x y ∈ offs)) as [[Ht Hin] | Hn];
        destruct (decide (tid = tile_of_pixel cfg dev0 x y /\
                          offset_of_pixel cfg x y ∈ o :: offs))
          as [[Ht' Hin'] | Hn']; trivial.
      * exfalso. apply Hn'. split; [exact Ht | right; exact Hin].
      * exfalso. apply elem_of_cons in Hin' as [Heq | Hin'].
        -- apply Hne. subst tid. rewrite <- Heq.
           rewrite tile_px_of_pixel, tile_py_of_pixel by assumption. auto.
        -- apply Hn. auto.
Qed.

Lemma transfer_tile_get tsh convert cfg tid t (dev : graphics_device D) x y :
  0 < tile_width cfg -> 0 < tile_height cfg -> device_wf dev ->
  (tid < num_tiles cfg dev)%nat ->
  on_screen dev x y = true ->
  let dev' := transfer_tile convert tsh cfg tid t dev in
  fb_width dev' = fb_width dev /\ fb_height dev' = fb_height dev /\
  device_wf dev' /\
  fb_get dev' x y =
    if decide (tid = tile_of_pixel cfg dev x y)
    then match transfer_value convert tsh t (offset_of_pixel cfg x y) x y with
         | Some v => Some v
         | None => fb_get dev x y
         end
    else fb_get dev x y.
Proof.
  intros Htw Hth Hwf Htid Hon. pose proof Hwf as (Hfw & Hfh & _).
  unfold transfer_tile.
  destruct (transfer_pixels_get tsh convert cfg tid t dev x y
              (seq 0 (tile_pixels cfg)) Htw Hth Hfw Hfh Htid Hon
              (NoDup_seq _ _)) with (dev := dev)
    as (Hw' & Hh' & Hwf' & Hget); trivial.
  { apply Forall_forall. intros off Hin. apply elem_of_seq in Hin. lia. }
  do 3 (split; [assumption |]).
  rewrite Hget.
  destruct (decide (tid = tile_of_pixel cfg dev x y)) as [Ht | Hne].
  - destruct (decide _) as [_ | Hn]; [reflexivity |].
    exfalso. apply Hn. split; [exact Ht |].
    apply elem_of_seq. pose proof (offset_of_pixel_lt cfg Htw Hth x y). lia.
  - destruct (decide _) as [[Ht _] | _]; [contradiction | reflexivity].
Qed.

(** A transfer that leaves the display alone where the tile is off
    screen, without assumptions on the pixel. *)
Lemma transfer_tile_dims tsh convert cfg tid t (dev : graphics_device D) :
  let dev' := transfer_tile convert tsh cfg tid t dev in
  fb_width dev' = fb_width dev /\ fb_height dev' = fb_height dev /\
  (device_wf dev -> device_wf dev').
Proof.
  unfold transfer_tile. generalize (seq 0 (tile_pixels cfg)) as offs.
  intros offs. revert dev.
  induction offs as [| o offs IH]; intros dev; simpl; [auto |].
  destruct (transfer_pixel_dims tsh convert cfg tid t dev o) as (Hw & Hh & Hwf).
  destruct (IH (transfer_pixel convert tsh cfg tid t dev o))
    as (Hw' & Hh' & Hwf').
  split; [congruence |]. split; [congruence |]. auto.
Qed.

(** *** The order of the tiles *)

Lemma tile_sequence_spec cfg (dev : graphics_device D) :
  NoDup (tile_sequence cfg dev) /\
  forall j, j ∈ tile_sequence cfg dev <-> (j < num_tiles cfg dev)%nat.
Proof.
  unfold tile_sequence. destruct (tile_order cfg).
  - split; [apply NoDup_seq |]. intros j. rewrite elem_of_seq. lia.
  - pose proof (@merge_sort_Permutation nat
                  (fun a b => morton cfg dev a <= morton cfg dev b)
                  (fun a b => decide (morton cfg dev a <= morton cfg dev b))
                  (seq 0 (num_tiles cfg dev))) as Hp.
    split.
    + rewrite Hp. apply NoDup_seq.
    + intros j. rewrite Hp, elem_of_seq. lia.
Qed.

(** *** The tile loop *)

Lemma commit_frame_refl s : commit_frame s s.
Proof. repeat split. Qed.

Lemma commit_frame_trans s1 s2 s3 :
  commit_frame s1 s2 -> commit_frame s2 s3 -> commit_frame s1 s3.
Proof.
  intros (? & ? & ? & ? & ? & ? & ? & ? & ? & ?)
         (? & ? & ? & ? & ? & ? & ? & ? & ? & ?).
  repeat split; congruence.
Qed.

Lemma commit_frame_raster_same s s' : commit_frame s s' -> raster_same s s'.
Proof.
  intros (? & ? & ? & ? & ? & ? & ? & ? & ? & ?). repeat split; assumption.
Qed.

Lemma reset_tile_wf cfg color d t :
  tile_wf (tile_pixels cfg) t -> tile_wf (tile_pixels cfg) (reset_tile cfg color d t).
Proof.
  intros [Hr Hd]. unfold tile_wf, reset_tile. simpl.
  rewrite length_replicate. split; [reflexivity |].
  destruct (depth_persistent cfg); [exact Hd | apply length_replicate].
Qed.

Lemma state_wf_tile s j t :
  state_wf s -> r_tiles s !! j = Some t -> tile_wf (tile_pixels (r_cfg s)) t.
Proof.
  intros (_ & _ & _ & _ & Hall) Ht.
  eapply Forall_lookup_1 in Hall; eauto.
Qed.

Lemma commit_tile_Ok convert tsh s tid s' :
  state_wf s ->
  commit_tile convert tsh s tid = Ok s' ->
  exists t t',
    r_tiles s !! tid = Some t /\ rasterize_tile s tid t = Ok t' /\
    tile_wf (tile_pixels (r_cfg s)) t' /\
    r_tiles s' =
      <[tid := reset_tile (r_cfg s) (r_clear_color s) (r_clear_depth s) t']>
        (r_tiles s) /\
    r_dev s' = transfer_tile convert tsh (r_cfg s) tid t' (r_dev s) /\
    commit_frame s s' /\ state_wf s'.
Proof.
  intros Hwf Hrun. unfold commit_tile in Hrun.
  destruct (r_tiles s !! tid) as [t |] eqn:Ht; [| discriminate].
  destruct (rasterize_tile s tid t) as [t' | |] eqn:Hr; try discriminate.
  cbn [obind] in Hrun. injection Hrun as <-.
  pose proof (state_wf_tile _ _ _ Hwf Ht) as Htwf.
  destruct (rasterize_tile_wf _ _ _ _ Htwf Hr) as [Htwf' _].
  destruct (transfer_tile_dims tsh convert (r_cfg s) tid t' (r_dev s))
    as (Hw & Hh & Hdwf).
  exists t, t'. do 3 (split; [trivial |]).
  split; [reflexivity |]. split; [reflexivity |].
  split; [repeat split; assumption |].
  destruct Hwf as (Htw & Hth & Hdev & Hlen & Hall).
  unfold state_wf. simpl. unfold num_tiles, tiles_x, tiles_y in *.
  rewrite Hw, Hh, length_insert.
  do 2 (split; [assumption |]). split; [auto |]. split; [assumption |].
  apply Forall_insert; [exact Hall |].
  apply (reset_tile_wf (r_cfg s)). exact Htwf'.
Qed.

Lemma commit_tiles_spec convert tsh tids : forall s s',
  state_wf s -> NoDup tids ->
  Forall (fun j => (j < num_tiles (r_cfg s) (r_dev s))%nat) tids ->
  ofold (commit_tile convert tsh) tids s = Ok s' ->
  commit_frame s s' /\ state_wf s' /\
  (forall j, j ∉ tids -> r_tiles s' !! j = r_tiles s !! j) /\
  (forall j, j ∈ tids ->
     exists t', tile_rasterizes_to s j t' /\
       r_tiles s' !! j =
         Some (reset_tile (r_cfg s) (r_clear_color s) (r_clear_depth s) t')) /\
  (forall x y, on_screen (r_dev s) x y = true ->
     let j := tile_of_pixel (r_cfg s) (r_dev s) x y in
     (j ∉ tids -> fb_get (r_dev s') x y = fb_get (r_dev s) x y) /\
     (j ∈ tids ->
        exists t', tile_rasterizes_to s j t' /\
          fb_get (r_dev s') x y =
            match transfer_value convert tsh t'
                    (offset_of_pixel (r_cfg s) x y) x y with
            | Some v => Some v
            | None => fb_get (r_dev s) x y
            end)).
Proof.
  induction tids as [| tid tids IH]; intros s s' Hwf Hnd Hlt Hrun;
    simpl in Hrun.
  - injection Hrun as <-. split; [apply commit_frame_refl |].
    split; [exact Hwf |]. split; [reflexivity |].
    split; [intros j Hin; inversion Hin |].
    intros x y Hon j. split; [reflexivity | intros Hin; inversion Hin].
  - destruct (commit_tile convert tsh s tid) as [s1 | |] eqn:H1;
      try discriminate.
    cbn [obind] in Hrun.
    apply NoDup_cons in Hnd as [Hnotin Hnd].
    apply Forall_cons in Hlt as [Htid Hlt].
    apply commit_tile_Ok in H1
      as (t & t' & Ht & Hr & Htwf' & Htiles1 & Hdev1 & Hf1 & Hwf1);
      [| exact Hwf].
    pose proof Hf1 as (Hcfg1 & _ & Hcd1 & Hcc1 & _ & _ & _ & _ & Hw1 & Hh1).
    assert (Hgrid : forall x y,
      tile_of_pixel (r_cfg s1) (r_dev s1) x y
      = tile_of_pixel (r_cfg s) (r_dev s) x y).
    { intros x y. unfold tile_of_pixel, tile_id, tiles_x.
      rewrite Hcfg1, Hw1. reflexivity. }
    assert (Hnum : num_tiles (r_cfg s1) (r_dev s1)
                   = num_tiles (r_cfg s) (r_dev s)).
    { unfold num_tiles, tiles_x, tiles_y. rewrite Hcfg1, Hw1, Hh1.
      reflexivity. }
    destruct (IH s1 s' Hwf1 Hnd) as (Hf & Hwf' & Hout & Hin & Hpix);
      [rewrite Hnum; exact Hlt | exact Hrun |].
    pose proof (commit_frame_raster_same _ _ Hf1) as Hsame1.
    assert (Hlen : (tid < length (r_tiles s))%nat)
      by (eapply lookup_lt_Some; eassumption).
    split; [eapply commit_frame_trans; eassumption |].
    split; [exact Hwf' |].
    split; [| split].
    + intros j Hj. apply not_elem_of_cons in Hj as [Hne Hj].
      rewrite (Hout j Hj), Htiles1, list_lookup_insert_ne by congruence.
      reflexivity.
    + intros j Hj. apply elem_of_cons in Hj as [-> | Hj].
      * exists t'. split; [exists t; auto |].
        rewrite (Hout tid Hnotin), Htiles1, list_lookup_insert_eq by exact Hlen.
        reflexivity.
      * assert (Hne : j <> tid) by (intros ->; contradiction).
        destruct (Hin j Hj) as (tj' & (tj & Htj & Hrj) & Hres).
        exists tj'. split.
        -- exists tj.
           rewrite Htiles1, list_lookup_insert_ne in Htj by congruence.
           rewrite (rasterize_tile_same s s1) in Hrj by exact Hsame1.
           auto.
        -- rewrite Hres, Hcfg1, Hcd1, Hcc1. reflexivity.
    + intros x y Hon j.
      assert (Hon1 : on_screen (r_dev s1) x y = true)
        by (unfold on_screen; rewrite Hw1, Hh1; exact Hon).
      destruct (Hpix x y Hon1) as [Hpout Hpin].
      rewrite Hgrid in Hpout, Hpin. fold j in Hpout, Hpin.
      destruct Hwf as (Htw & Hth & Hdwf & _).
      destruct (transfer_tile_get tsh convert (r_cfg s) tid t' (r_dev s) x y
                  Htw Hth Hdwf Htid Hon) as (_ & _ & _ & Hget1).
      rewrite <- Hdev1 in Hget1. fold j in Hget1.
      split.
      * intros Hj. apply not_elem_of_cons in Hj as [Hne Hj].
        rewrite (Hpout Hj), Hget1.
        destruct (decide (tid = j)); [congruence | reflexivity].
      * intros Hj. apply elem_of_cons in Hj as [Heq | Hj].
        -- exists t'. split; [exists t; subst j; rewrite Heq; auto |].
           assert (Hnj : j ∉ tids) by (rewrite Heq; exact Hnotin).
           rewrite (Hpout Hnj), Hget1.
           destruct (decide (tid = j)); [reflexivity | congruence].
        -- assert (Hne : tid <> j) by (intros <-; contradiction).
           destruct (Hpin Hj) as (tj' & (tj & Htj & Hrj) & Hres).
           exists tj'. split.
           ++ exists tj.
              rewrite Htiles1, list_lookup_insert_ne in Htj by congruence.
              rewrite (rasterize_tile_same s s1) in Hrj by exact Hsame1.
              auto.
           ++ rewrite Hres, Hcfg1, Hget1.
              destruct (decide (tid = j)); [congruence | reflexivity].
Qed.

(** *** commit as a whole *)

Lemma transfer_value_Some convert tsh t off x y n :
  tile_wf n t -> (off < n)%nat ->
  exists v : D, transfer_value convert tsh t off x y = Some v.
Proof.
  intros [Hr _] Hlt. unfold transfer_value. destruct tsh as [f |]; [eauto |].
  destruct (lookup_lt_is_Some_2 (t_rt0 t) off) as (c & ->); [lia |].
  simpl. eauto.
Qed.

Lemma commit_Ok convert tsh s s' :
  state_wf s ->
  commit convert s tsh = Ok s' ->
  (r_cfg s' = r_cfg s /\ r_build s' = r_build s /\
   r_clear_depth s' = r_clear_depth s /\ r_clear_color s' = r_clear_color s /\
   r_stats s' = r_stats s /\
   fb_width (r_dev s') = fb_width (r_dev s) /\
   fb_height (r_dev s') = fb_height (r_dev s)) /\
  (r_dispatches s' = [] /\ r_clusters s' = [] /\ r_num_strips s' = 0%nat) /\
  state_wf s' /\
  (forall j, (j < num_tiles (r_cfg s) (r_dev s))%nat ->
     exists t', tile_rasterizes_to s j t' /\
       r_tiles s' !! j =
         Some (reset_tile (r_cfg s) (r_clear_color s) (r_clear_depth s) t')) /\
  (forall x y, on_screen (r_dev s) x y = true ->
     exists t', tile_rasterizes_to s (tile_of_pixel (r_cfg s) (r_dev s) x y) t' /\
       fb_get (r_dev s') x y =
         transfer_value convert tsh t' (offset_of_pixel (r_cfg s) x y) x y).
Proof.
  intros Hwf Hrun. unfold commit in Hrun.
  destruct (ofold (commit_tile convert tsh) _ s) as [s1 | |] eqn:Hfold;
    try discriminate.
  cbn [obind] in Hrun. injection Hrun as <-.
  destruct (tile_sequence_spec (r_cfg s) (r_dev s)) as [Hnd Hseq].
  apply commit_tiles_spec in Hfold
    as (Hf & Hwf1 & _ & Hin & Hpix); trivial;
    [| apply Forall_forall; intros j Hj; apply Hseq; exact Hj].
  destruct Hf as (Hcfg & Hb & Hcd & Hcc & _ & _ & _ & Hst & Hw & Hh).
  split; [simpl; repeat split; assumption |].
  split; [simpl; auto |].
  split; [exact Hwf1 |].
  split.
  - intros j Hj. apply Hseq in Hj. apply Hin in Hj. exact Hj.
  - intros x y Hon.
    pose proof Hwf as (Htw & Hth & (Hfw & Hfh & _) & _).
    pose proof Hon as Hxy. apply on_screen_spec in Hxy as [Hx Hy].
    assert (Hj : tile_of_pixel (r_cfg s) (r_dev s) x y
                 ∈ tile_sequence (r_cfg s) (r_dev s)).
    { apply Hseq. apply tile_of_pixel_lt; assumption. }
    destruct (Hpix x y Hon) as [_ Hp]. destruct (Hp Hj) as (t' & Hras & Hget).
    exists t'. split; [exact Hras |]. simpl. rewrite Hget.
    destruct Hras as (t & Ht & Hr).
    pose proof (state_wf_tile _ _ _ Hwf Ht) as Htwf.
    destruct (rasterize_tile_wf _ _ _ _ Htwf Hr) as [Htwf' _].
    destruct (transfer_value_Some convert tsh t'
                (offset_of_pixel (r_cfg s) x y) x y _ Htwf') as (v & ->);
      [apply offset_of_pixel_lt; assumption | reflexivity].
Qed.

(** C3.  After a returning [commit]: the dispatch count, the cluster
    table and the strip counter are zero and every tile has an empty strip
    list and a zero shader counter; with a non-zero dispatch capacity the
    next [dispatch_pso] finds room; and where the depth buffer is retained
    across frames, the depth buffer of every tile is the one the
    rasterization of this frame left, untouched by the reset (where it is
    not retained, it holds the clear value). *)
Theorem commit_resets_frame (convert : P -> D) tsh s s' :
  state_wf s ->
  commit convert s tsh = Ok s' ->
  (r_dispatches s' = [] /\ r_clusters s' = [] /\ r_num_strips s' = 0%nat) /\
  (forall j t, r_tiles s' !! j = Some t ->
     t_strips t = [] /\ t_shaded t = 0%nat) /\
  ((0 < max_dispatches (r_cfg s'))%nat ->
   (length (r_dispatches s') < max_dispatches (r_cfg s'))%nat /\
   forall p, dispatch_pso s' p <> Fatal limit_dispatches) /\
  (forall j t', tile_rasterizes_to s j t' ->
     exists t, r_tiles s' !! j = Some t /\
       t_depth t = if depth_persistent (r_cfg s) then t_depth t'
                   else replicate (tile_pixels (r_cfg s)) (r_clear_depth s)).
Proof.
  intros Hwf Hrun.
  pose proof (commit_Ok _ _ _ _ Hwf Hrun)
    as ((Hcfg & Hb & _) & (Hd & Hc & Hn) & Hwf' & Htiles & _).
  split; [auto |].
  assert (Hlen : length (r_tiles s') = num_tiles (r_cfg s) (r_dev s)).
  { destruct Hwf' as (_ & _ & _ & Hl & _).
    pose proof (commit_Ok _ _ _ _ Hwf Hrun) as ((Hc' & _ & _ & _ & _ & Hw & Hh) & _).
    rewrite Hl. unfold num_tiles, tiles_x, tiles_y. rewrite Hc', Hw, Hh.
    reflexivity. }
  split; [| split].
  - intros j t Ht.
    assert (Hj : (j < num_tiles (r_cfg s) (r_dev s))%nat).
    { rewrite <- Hlen. eapply lookup_lt_Some. exact Ht. }
    destruct (Htiles j Hj) as (t' & _ & Ht').
    rewrite Ht in Ht'. injection Ht' as ->. split; reflexivity.
  - intros Hmax. split; [rewrite Hd; simpl; lia |].
    intros p Heq.
    destruct (checks_enabled (r_build s')) eqn:Hchk.
    + unfold dispatch_pso, capacity_check in Heq.
      rewrite Hd, Hchk in Heq. simpl length in Heq.
      destruct (Nat.ltb_spec 0 (max_dispatches (r_cfg s'))) as [_ | Hle];
        [| lia].
      destruct (bin_clusters_checked 0 p
                  (zip (seq 0 (length (pso_geometry p))) (pso_geometry p))
                  (set_dispatches s' ([] ++ [p])) Hwf' Hchk)
        as [Hok | [Hf | Hf]].
      * destruct (ofold _ _ _); try contradiction. discriminate.
      * rewrite Hf in Heq. discriminate.
      * rewrite Hf in Heq. discriminate.
    + eapply dispatch_pso_retail; [| exact Heq].
      destruct (r_build s'); simpl in Hchk; congruence.
  - intros j t' (t & Ht & Hr).
    assert (Hj : (j < num_tiles (r_cfg s) (r_dev s))%nat).
    { destruct Hwf as (_ & _ & _ & Hl & _). rewrite <- Hl.
      eapply lookup_lt_Some. exact Ht. }
    destruct (Htiles j Hj) as (t'' & (t0 & Ht0 & Hr0) & Ht').
    assert (t0 = t) as -> by congruence.
    assert (t'' = t') as -> by congruence.
    eexists. split; [exact Ht' |].
    unfold reset_tile. simpl. reflexivity.
Qed.
End CommitFacts.

(** ** Triangles *)

Section TriangleFacts.

(** The edge functions reproduce the pixel from the vertices. *)
Lemma tri_edges_reproduce p0 p1 p2 px py e0 e1 e2 :
  tri_edges p0 p1 p2 px py = (e0, e1, e2) ->
  e0 * sx p0 + e1 * sx p1 + e2 * sx p2 = (e0 + e1 + e2) * px /\
  e0 * sy p0 + e1 * sy p1 + e2 * sy p2 = (e0 + e1 + e2) * py.
Proof.
  unfold tri_edges, edge. intros [= <- <- <-]. split; ring.
Qed.

Lemma tri_cover_signs mode e0 e1 e2 :
  tri_cover mode e0 e1 e2 = true ->
  (0 < e0 + e1 + e2 /\ 0 <= e0 /\ 0 <= e1 /\ 0 <= e2) \/
  (e0 + e1 + e2 < 0 /\ e0 <= 0 /\ e1 <= 0 /\ e2 <= 0).
Proof.
  unfold tri_cover.
  destruct mode; rewrite ?orb_true_iff, !andb_true_iff, !Z.ltb_lt, !Z.leb_le;
    tauto.
Qed.

Lemma tri_cover_ccw e0 e1 e2 :
  tri_cover rstate_tbfc_ccw e0 e1 e2 = true ->
  0 < e0 + e1 + e2 /\ 0 <= e0 /\ 0 <= e1 /\ 0 <= e2.
Proof.
  unfold tri_cover. rewrite !andb_true_iff, !Z.ltb_lt, !Z.leb_le. tauto.
Qed.

(** A covered pixel lies in the box around the triangle. *)
Lemma covered_in_bounds mode p0 p1 p2 px py e0 e1 e2 :
  tri_edges p0 p1 p2 px py = (e0, e1, e2) ->
  tri_cover mode e0 e1 e2 = true ->
  let b := tri_bounds p0 p1 p2 in
  bx0 b <= px < bx1 b /\ by0 b <= py < by1 b.
Proof.
  intros He Hc b.
  apply tri_edges_reproduce in He as [Hx Hy].
  apply tri_cover_signs in Hc.
  subst b. unfold tri_bounds, min3, max3. simpl.
  assert (Hgen : forall a0 a1 a2 q,
    e0 * a0 + e1 * a1 + e2 * a2 = (e0 + e1 + e2) * q ->
    Z.min a0 (Z.min a1 a2) <= q < Z.max a0 (Z.max a1 a2) + 1).
  { intros a0 a1 a2 q Hq.
    destruct Hc as [(Ha & H0 & H1 & H2) | (Ha & H0 & H1 & H2)]; nia. }
  split; apply Hgen; assumption.
Qed.

(** With the front face up, the depth of a fragment lies between the
    depths of the vertices. *)
Lemma tri_depth_in_bounds p0 p1 p2 e0 e1 e2 :
  0 < e0 + e1 + e2 -> 0 <= e0 -> 0 <= e1 -> 0 <= e2 ->
  let b := tri_bounds p0 p1 p2 in
  bz0 b <= tri_depth p0 p1 p2 e0 e1 e2 <= bz1 b.
Proof.
  intros Ha H0 H1 H2 b. subst b.
  unfold tri_bounds, tri_depth, min3, max3. simpl. split.
  - apply Z.div_le_lower_bound; [lia | nia].
  - apply Z.div_le_upper_bound; [lia | nia].
Qed.
End TriangleFacts.

(** ** A frame of two triangles *)

Section TwoTriangles.
Context {P D : Type}.
Implicit Types (s : rasterizer P D) (t : tile P) (p : pso P).

Lemma hiz_of_replicate n d : (0 < n)%nat -> hiz_of (replicate n d) = (d, d).
Proof.
  destruct n as [| m]; [lia |]. intros _. simpl.
  assert (H : foldr Z.min d (replicate m d) = d /\
              foldr Z.max d (replicate m d) = d).
  { induction m as [| m IH]; simpl; [auto |].
    destruct IH as [-> ->]. rewrite Z.min_id, Z.max_id. auto. }
  destruct H as [-> ->]. reflexivity.
Qed.

(** The state after [init] and [clear_depth(cleardepth_max)]. *)
Lemma start_frame_spec cfg build (dev : graphics_device D) (cc : P) :
  0 < tile_width cfg -> 0 < tile_height cfg -> device_wf dev ->
  let s := start_frame cfg build dev cc in
  state_wf s /\ table_wf s /\ within_capacity s /\
  r_cfg s = cfg /\ r_build s = build /\ r_dev s = dev /\
  r_dispatches s = [] /\ r_clusters s = [] /\ r_num_strips s = 0%nat /\
  r_clear_depth s = depth_max (depth_format cfg) /\ r_clear_color s = cc /\
  forall j, (j < num_tiles cfg dev)%nat ->
    r_tiles s !! j =
      Some (cleared_tile cfg cc (depth_max (depth_format cfg))).
Proof.
  intros Htw Hth Hdev s.
  assert (Htiles : forall j, (j < num_tiles cfg dev)%nat ->
    r_tiles s !! j = Some (cleared_tile cfg cc (depth_max (depth_format cfg)))).
  { intros j Hj. subst s. unfold start_frame, clear_depth, init. simpl.
    rewrite list_lookup_fmap, lookup_replicate_2 by exact Hj. reflexivity. }
  split.
  - unfold state_wf. subst s. unfold start_frame, clear_depth, init. simpl.
    do 3 (split; [assumption |]).
    split; [rewrite length_map, length_replicate; reflexivity |].
    apply Forall_forall. intros t Ht.
    apply list_elem_of_In, in_map_iff in Ht as (t0 & <- & Hin). simpl.
    apply list_elem_of_In, elem_of_replicate in Hin as [-> _].
    simpl. rewrite !length_replicate. auto.
  - split; [constructor |].
    split; [repeat split; simpl; lia |].
    repeat split; trivial.
Qed.

(** Culling looks at the configuration, the device and the Hi-Z summaries
    of the tiles. *)
Lemma cluster_survives_tiles s s' p bv vc :
  r_cfg s' = r_cfg s -> r_dev s' = r_dev s ->
  Forall2 tile_ext (r_tiles s) (r_tiles s') ->
  cluster_survives s' p bv vc = cluster_survives s p bv vc.
Proof.
  intros Hc Hd Ht.
  set (s1 := mk_rasterizer (r_cfg s) (r_build s) (r_dev s) (r_clear_depth s)
               (r_clear_color s) (r_tiles s') (r_dispatches s) (r_clusters s)
               (r_num_strips s) (r_stats s)).
  assert (Hf : bin_frame s s1) by (repeat split; assumption).
  rewrite <- (cluster_survives_frame s s1 p bv vc Hf).
  unfold cluster_survives, occlusion_culled. simpl. rewrite Hc, Hd.
  reflexivity.
Qed.

(** A dispatch of a PSO with one cluster. *)
Lemma dispatch_pso_single s p (c : cluster (pso_vtx p)) s' :
  state_wf s -> pso_geometry p = [c] ->
  dispatch_pso s p = Ok s' ->
  (r_cfg s' = r_cfg s /\ r_build s' = r_build s /\ r_dev s' = r_dev s /\
   r_clear_depth s' = r_clear_depth s /\ r_clear_color s' = r_clear_color s) /\
  state_wf s' /\
  r_dispatches s' = r_dispatches s ++ [p] /\
  Forall2 tile_ext (r_tiles s) (r_tiles s') /\
  if cluster_survives s p (cl_bvol c) (cl_vcone c) then
    r_clusters s' = r_clusters s ++ [(length (r_dispatches s), 0%nat)] /\
    forall j, clusters_at s' j =
              clusters_at s j ++
              (if decide (j ∈ overlapped s p c)
               then [length (r_clusters s)] else [])
  else
    r_clusters s' = r_clusters s /\
    forall j, clusters_at s' j = clusters_at s j.
Proof.
  intros Hwf Hgeo Hrun. unfold dispatch_pso, capacity_check in Hrun.
  destruct (_ <? _)%nat; [| destruct (checks_enabled _); discriminate].
  rewrite Hgeo in Hrun. simpl in Hrun.
  set (s0 := set_dispatches s (r_dispatches s ++ [p])) in Hrun.
  destruct (bin_cluster (length (r_dispatches s)) p s0 (0%nat, c))
    as [s1 | |] eqn:H1; try discriminate.
  cbn [obind] in Hrun. injection Hrun as <-.
  apply (bin_cluster_Ok _ p s0) in H1 as (Hf & _ & _ & Hcase); [| exact Hwf].
  pose proof (state_wf_frame _ _ Hf Hwf) as Hwf1.
  destruct Hf as (Hcfg & Hb & Hdev & Hcd & Hcc & Hdis & _ & Ht).
  subst s0. simpl in Hcfg, Hb, Hdev, Hcd, Hcc, Hdis, Ht, Hcase.
  destruct (note_dispatch_fields p s1)
    as (Hn1 & Hn2 & Hn3 & Hn4 & Hn5 & Hn6 & Hn7 & Hn8 & Hn9).
  split; [repeat split; congruence |].
  split.
  { unfold state_wf in *. rewrite Hn1, Hn3, Hn6. exact Hwf1. }
  split; [rewrite Hn7; exact Hdis |].
  split; [rewrite Hn6; exact Ht |].
  change (cluster_survives (set_dispatches s (r_dispatches s ++ [p])) p
            (cl_bvol c) (cl_vcone c))
    with (cluster_survives s p (cl_bvol c) (cl_vcone c)) in Hcase.
  destruct (cluster_survives s p (cl_bvol c) (cl_vcone c)).
  - destruct Hcase as (_ & Hc1 & Hat).
    split; [rewrite Hn8; exact Hc1 |].
    intros j. rewrite clusters_at_note_dispatch. apply Hat.
  - subst s1. split; [rewrite Hn8; reflexivity |].
    intros j. rewrite clusters_at_note_dispatch. reflexivity.
Qed.

(** The strip entry of a one-triangle PSO rasterizes its triangle. *)
Lemma rasterize_cluster_triangle s tid t k d rs ts col v0 v1 v2 t' :
  r_clusters s !! k = Some (d, 0%nat) ->
  r_dispatches s !! d = Some (triangle_pso rs ts col v0 v1 v2) ->
  rasterize_cluster s tid t k = Ok t' ->
  t' = rasterize_triangle (r_cfg s) (r_dev s) tid
         (triangle_pso rs ts col v0 v1 v2)
         {| MultiDispatch.pc_pos := v0 |} {| MultiDispatch.pc_pos := v1 |}
         {| MultiDispatch.pc_pos := v2 |} 0 t.
Proof.
  intros Hk Hd. unfold rasterize_cluster. rewrite Hk, Hd. simpl.
  unfold rasterize_geometry, transform_cluster, capacity_check.
  destruct (_ <=? _)%nat; [| destruct (checks_enabled _); discriminate].
  simpl. unfold rasterize_indexed. simpl. intros [= <-]. reflexivity.
Qed.

(** A chain of strip entries, seen from one pixel. *)
Lemma rasterize_clusters_pixel s tid off ks (fs : list (P * Z -> P * Z)) :
  Forall2 (fun k f => forall t t',
             tile_wf (tile_pixels (r_cfg s)) t ->
             rasterize_cluster s tid t k = Ok t' ->
             tile_pixel t' off = f <$> tile_pixel t off) ks fs ->
  forall t t',
    tile_wf (tile_pixels (r_cfg s)) t ->
    ofold (rasterize_cluster s tid) ks t = Ok t' ->
    tile_pixel t' off = fold_left (fun cd f => f cd) fs <$> tile_pixel t off.
Proof.
  induction 1 as [| k f ks fs Hkf Hrest IH]; intros t t' Hwf Hrun;
    simpl in Hrun.
  - injection Hrun as <-. simpl. destruct (tile_pixel t off); reflexivity.
  - destruct (rasterize_cluster s tid t k) as [t1 | |] eqn:H1;
      try discriminate.
    cbn [obind] in Hrun.
    pose proof (Hkf t t1 Hwf H1) as Hp1.
    apply rasterize_cluster_wf in H1 as [Hwf1 _]; [| exact Hwf].
    rewrite (IH t1 t' Hwf1 Hrun), Hp1. simpl.
    destruct (tile_pixel t off); reflexivity.
Qed.

(** What the triangle of a one-triangle PSO does to a pixel. *)
Lemma triangle_pixel_spec (rs : render_state P) ts col v0 v1 v2 x y c d :
  triangle_pixel rs ts col v0 v1 v2 x y (c, d) =
    if covers rs (ts v0) (ts v1) (ts v2) x y then
      let fr := raster_fragment rs (export_rt0 col)
                  (depth_at (ts v0) (ts v1) (ts v2) x y) c d in
      (fr_color fr, fr_depth fr)
    else (c, d).
Proof.
  unfold triangle_pixel, pixel_after, fragment_at, covers, depth_at.
  cbn [triangle_pso pso_pos pso_rstate pso_pshader MultiDispatch.pc_pos
       fst snd].
  destruct (tri_edges (ts v0) (ts v1) (ts v2) x y) as [[e0 e1] e2].
  destruct (tri_cover _ e0 e1 e2); reflexivity.
Qed.

Lemma raster_fragment_opaque cfg (col : P) z c d :
  depth_format cfg <> depthfmt_none ->
  raster_fragment (rstate_opaque cfg) (export_rt0 col) z c d =
    if z <? d then mk_fragment_result col z true
    else mk_fragment_result c d false.
Proof.
  intros Hfmt. unfold raster_fragment, depth_pass, depth_test_enabled.
  cbn [rstate_opaque rasterizer_psc_base rs_depth_format rs_depth_func
       rs_depth_write rs_debug_disable_pixel_depth_test rs_blendfunc
       depth_cmp].
  destruct (depth_format cfg); try contradiction;
    destruct (z <? d); reflexivity.
Qed.

(** The pixel of a frame of two one-triangle PSOs, dispatched into a
    cleared frame. *)
Lemma two_dispatches_pixel (convert : P -> D) s0 cc d0
    rsa tsa cola a0 a1 a2 rsb tsb colb b0 b1 b2 s' x y :
  state_wf s0 -> r_dispatches s0 = [] -> r_clusters s0 = [] ->
  (forall j t, r_tiles s0 !! j = Some t ->
     t_rt0 t = replicate (tile_pixels (r_cfg s0)) cc /\
     t_depth t = replicate (tile_pixels (r_cfg s0)) d0 /\
     t_strips t = []) ->
  on_screen (r_dev s0) x y = true ->
  two_dispatches convert s0
    (triangle_pso rsa tsa cola a0 a1 a2)
    (triangle_pso rsb tsb colb b0 b1 b2) = Ok s' ->
  let j := tile_of_pixel (r_cfg s0) (r_dev s0) x y in
  let cd1 :=
    if triangle_reaches s0 j rsa tsa cola a0 a1 a2
    then triangle_pixel rsa tsa cola a0 a1 a2 x y (cc, d0) else (cc, d0) in
  let cd2 :=
    if triangle_reaches s0 j rsb tsb colb b0 b1 b2
    then triangle_pixel rsb tsb colb b0 b1 b2 x y cd1 else cd1 in
  fb_get (r_dev s') x y = Some (convert (fst cd2)).
Proof.
  intros Hwf0 Hd0 Hc0 Hclear Hon Hrun j cd1 cd2.
  set (pa := triangle_pso rsa tsa cola a0 a1 a2) in *.
  set (pb := triangle_pso rsb tsb colb b0 b1 b2) in *.
  set (ca := triangle_cluster a0 a1 a2) in *.
  set (cb := triangle_cluster b0 b1 b2) in *.
  unfold two_dispatches in Hrun.
  destruct (dispatch_pso s0 pa) as [s1 | |] eqn:H1; try discriminate.
  cbn [obind] in Hrun.
  destruct (dispatch_pso s1 pb) as [s2 | |] eqn:H2; try discriminate.
  cbn [obind] in Hrun.
  (* the first dispatch *)
  destruct (dispatch_pso_single s0 pa ca s1 Hwf0 eq_refl H1)
    as ((Hcfg1 & _ & Hdev1 & _) & Hwf1 & Hdis1 & Ht1 & Hcase1).
  (* the second dispatch *)
  destruct (dispatch_pso_single s1 pb cb s2 Hwf1 eq_refl H2)
    as ((Hcfg2 & _ & Hdev2 & _) & Hwf2 & Hdis2 & Ht2 & Hcase2).
  rewrite (cluster_survives_tiles s0 s1 pb _ _ Hcfg1 Hdev1 Ht1) in Hcase2.
  assert (Hov : overlapped s1 pb cb = overlapped s0 pb cb)
    by (unfold overlapped; rewrite Hcfg1, Hdev1; reflexivity).
  rewrite Hdis1, Hd0 in Hdis2. cbn [app] in Hdis2.
  rewrite Hd0 in Hcase1. rewrite Hdis1, Hd0 in Hcase2.
  cbn [app length] in Hcase1, Hcase2.
  (* the pixel, its tile and its offset *)
  pose proof Hwf0 as (Htw & Hth & (Hfw & Hfh & _) & Hlen0 & _).
  pose proof Hon as Hxy. apply on_screen_spec in Hxy as [Hx Hy].
  set (off := offset_of_pixel (r_cfg s0) x y).
  assert (Hoff : (off < tile_pixels (r_cfg s0))%nat)
    by (apply offset_of_pixel_lt; assumption).
  assert (Hj : (j < num_tiles (r_cfg s0) (r_dev s0))%nat)
    by (apply tile_of_pixel_lt; assumption).
  assert (Hpx : tile_px (r_cfg s0) (r_dev s0) j off = x)
    by (apply tile_px_of_pixel; assumption).
  assert (Hpy : tile_py (r_cfg s0) (r_dev s0) j off = y)
    by (apply tile_py_of_pixel; assumption).
  assert (Hcfg20 : r_cfg s2 = r_cfg s0) by congruence.
  assert (Hdev20 : r_dev s2 = r_dev s0) by congruence.
  (* commit *)
  apply commit_Ok in Hrun as (_ & _ & _ & _ & Hpix); [| exact Hwf2].
  assert (Hon2 : on_screen (r_dev s2) x y = true) by (rewrite Hdev20; exact Hon).
  destruct (Hpix x y Hon2) as (t' & (t2 & Ht2j & Hras) & Hget).
  rewrite Hcfg20, Hdev20 in Ht2j, Hras. rewrite Hcfg20 in Hget.
  fold j in Ht2j, Hras. fold off in Hget.
  rewrite Hget. clear Hget Hpix.
  (* the tile before rasterization: cleared, with the strips of binning *)
  destruct (lookup_lt_is_Some_2 (r_tiles s0) j) as (t0 & Ht0j); [lia |].
  destruct (Hclear j t0 Ht0j) as (Hrt0 & Hdp0 & Hst0).
  destruct (Forall2_lookup_l _ _ _ _ _ Ht1 Ht0j) as (t1 & Ht1j & Hext1).
  destruct (Forall2_lookup_l _ _ _ _ _ Ht2 Ht1j) as (t2' & Ht2j' & Hext2).
  assert (t2' = t2) as -> by congruence.
  destruct Hext1 as (Hr1 & Hdp1 & _). destruct Hext2 as (Hr2 & Hdp2 & _).
  assert (Hwft2 : tile_wf (tile_pixels (r_cfg s2)) t2)
    by (eapply state_wf_tile; eassumption).
  assert (Hpix2 : tile_pixel t2 off = Some (cc, d0)).
  { unfold tile_pixel. rewrite Hr2, Hr1, Hrt0, Hdp2, Hdp1, Hdp0.
    rewrite !lookup_replicate_2 by exact Hoff. reflexivity. }
  assert (Hat0 : clusters_at s0 j = []).
  { unfold clusters_at, tile_clusters. rewrite Ht0j, Hst0. reflexivity. }
  assert (Hks : tile_clusters t2 = clusters_at s2 j)
    by (unfold clusters_at; rewrite Ht2j; reflexivity).
  unfold rasterize_tile in Hras. rewrite Hks in Hras.
  (* one strip entry of each kind *)
  assert (Hstep : forall k d rs ts col v0 v1 v2,
    r_clusters s2 !! k = Some (d, 0%nat) ->
    r_dispatches s2 !! d = Some (triangle_pso rs ts col v0 v1 v2) ->
    forall t ta,
      tile_wf (tile_pixels (r_cfg s2)) t ->
      rasterize_cluster s2 j t k = Ok ta ->
      tile_pixel ta off = triangle_pixel rs ts col v0 v1 v2 x y <$> tile_pixel t off).
  { intros k d rs ts col v0 v1 v2 Hk Hd t ta Hwft Hrc.
    apply (rasterize_cluster_triangle s2 j t k d rs ts col v0 v1 v2 ta Hk Hd)
      in Hrc. subst ta.
    destruct (rasterize_triangle_spec (r_cfg s2) (r_dev s2) j
                (triangle_pso rs ts col v0 v1 v2)
                {| MultiDispatch.pc_pos := v0 |}
                {| MultiDispatch.pc_pos := v1 |}
                {| MultiDispatch.pc_pos := v2 |} 0 t Hwft) as (_ & _ & Hp).
    rewrite Hp by (rewrite Hcfg20; exact Hoff).
    rewrite Hcfg20, Hdev20, Hpx, Hpy. reflexivity. }
  (* the clusters and the strips of the tile after each dispatch *)
  set (wa := triangle_reaches s0 j rsa tsa cola a0 a1 a2) in *.
  set (wb := triangle_reaches s0 j rsb tsb colb b0 b1 b2) in *.
  match type of Hcase1 with (if ?b then _ else _) => set (sa := b) in * end.
  match type of Hcase2 with (if ?b then _ else _) => set (sb := b) in * end.
  assert (Hwa : wa = sa && bool_decide (j ∈ overlapped s0 pa ca)) by reflexivity.
  assert (Hwb : wb = sb && bool_decide (j ∈ overlapped s0 pb cb)) by reflexivity.
  clearbody wa wb sa sb.
  assert (Hu1 : r_clusters s1 = (if sa then [(0%nat, 0%nat)] else []) /\
                clusters_at s1 j = if wa then [0%nat] else []).
  { rewrite Hwa. destruct sa; destruct Hcase1 as [-> Hat]; rewrite Hat, Hat0, Hc0;
      [| split; reflexivity].
    split; [reflexivity |]. cbn [app length andb].
    destruct (decide (j ∈ overlapped s0 pa ca)) as [Hja | Hja];
      [rewrite (bool_decide_eq_true_2 _ Hja)
      | rewrite (bool_decide_eq_false_2 _ Hja)]; reflexivity. }
  destruct Hu1 as [Hc1 Hat1].
  assert (Hu2 : r_clusters s2 =
                  r_clusters s1 ++ (if sb then [(1%nat, 0%nat)] else []) /\
                clusters_at s2 j =
                  clusters_at s1 j ++
                  (if wb then [length (r_clusters s1)] else [])).
  { rewrite Hwb. destruct sb; destruct Hcase2 as [-> Hat]; rewrite Hat;
      [| rewrite !app_nil_r; split; reflexivity].
    split; [reflexivity |]. cbn [andb]. rewrite Hov.
    destruct (decide (j ∈ overlapped s0 pb cb)) as [Hjb | Hjb];
      [rewrite (bool_decide_eq_true_2 _ Hjb)
      | rewrite (bool_decide_eq_false_2 _ Hjb)]; reflexivity. }
  destruct Hu2 as [Hc2 Hat2].
  rewrite Hat2, Hat1 in Hras. rewrite Hc1 in Hc2, Hras.
  assert (Hsa : wa = true -> sa = true)
    by (rewrite Hwa; intros H; apply andb_prop in H; tauto).
  assert (Hsb : wb = true -> sb = true)
    by (rewrite Hwb; intros H; apply andb_prop in H; tauto).
  clear Hcase1 Hcase2 Hwa Hwb.
  unfold cd2, cd1, transfer_value.
  assert (Hend : forall ks fs,
    Forall2 (fun k f => forall t ta,
               tile_wf (tile_pixels (r_cfg s2)) t ->
               rasterize_cluster s2 j t k = Ok ta ->
               tile_pixel ta off = f <$> tile_pixel t off) ks fs ->
    ofold (rasterize_cluster s2 j) ks t2 = Ok t' ->
    convert <$> t_rt0 t' !! off =
      Some (convert (fold_left (fun cd f => f cd) fs (cc, d0)).1)).
  { intros ks fs Hall Hfold.
    pose proof (rasterize_clusters_pixel s2 j off ks fs Hall t2 t' Hwft2 Hfold)
      as Hp.
    rewrite Hpix2 in Hp. apply tile_pixel_rt0 in Hp as [-> | Hp];
      [reflexivity | discriminate]. }
  destruct wa, wb; cbn [app] in Hras.
  - specialize (Hsa eq_refl). specialize (Hsb eq_refl). subst sa sb.
    cbn [app length] in Hc2, Hras.
    apply (Hend [0%nat; 1%nat]
             [triangle_pixel rsa tsa cola a0 a1 a2 x y;
              triangle_pixel rsb tsb colb b0 b1 b2 x y]); [| exact Hras].
    repeat constructor.
    + apply (Hstep 0%nat 0%nat); [rewrite Hc2 | rewrite Hdis2]; reflexivity.
    + apply (Hstep 1%nat 1%nat); [rewrite Hc2 | rewrite Hdis2]; reflexivity.
  - specialize (Hsa eq_refl). subst sa. cbn [app length] in Hc2, Hras.
    apply (Hend [0%nat] [triangle_pixel rsa tsa cola a0 a1 a2 x y]);
      [| exact Hras].
    repeat constructor.
    apply (Hstep 0%nat 0%nat); [rewrite Hc2 | rewrite Hdis2]; reflexivity.
  - specialize (Hsb eq_refl). subst sb.
    apply (Hend [length (if sa then [(0%nat, 0%nat)] else [])]
             [triangle_pixel rsb tsb colb b0 b1 b2 x y]); [| exact Hras].
    repeat constructor.
    apply (Hstep _ 1%nat); [rewrite Hc2 | rewrite Hdis2; reflexivity].
    destruct sa; reflexivity.
  - apply (Hend [] []); [constructor | exact Hras].
Qed.

(** A triangle that covers a pixel of the display in front of the clear
    depth reaches the tile of that pixel in a cleared frame. *)
Lemma triangle_reaches_covered s ts (col : P) v0 v1 v2 x y :
  state_wf s ->
  (forall j t, r_tiles s !! j = Some t ->
     t_hiz t = (depth_max (depth_format (r_cfg s)),
                depth_max (depth_format (r_cfg s)))) ->
  on_screen (r_dev s) x y = true ->
  covers (@rstate_opaque P (r_cfg s)) (ts v0) (ts v1) (ts v2) x y = true ->
  0 <= depth_at (ts v0) (ts v1) (ts v2) x y
    < depth_max (depth_format (r_cfg s)) ->
  triangle_reaches s (tile_of_pixel (r_cfg s) (r_dev s) x y)
    (rstate_opaque (r_cfg s)) ts col v0 v1 v2 = true.
Proof.
  intros Hwf Hhiz Hon Hcov Hz.
  pose proof Hwf as (Htw & Hth & (Hfw & Hfh & _) & Hlen & _).
  pose proof Hon as Hxy. apply on_screen_spec in Hxy as [Hx Hy].
  unfold covers, depth_at in *.
  destruct (tri_edges (ts v0) (ts v1) (ts v2) x y) as [[e0 e1] e2] eqn:He.
  cbn [rstate_opaque rasterizer_psc_base rs_tbfc_mode] in Hcov.
  destruct (covered_in_bounds _ _ _ _ _ _ _ _ _ He Hcov) as [Hbx Hby].
  apply tri_cover_ccw in Hcov as (Ha & H0 & H1 & H2).
  pose proof (tri_depth_in_bounds (ts v0) (ts v1) (ts v2) e0 e1 e2 Ha H0 H1 H2)
    as Hbz. cbv zeta in Hbx, Hby, Hbz.
  set (b := tri_bounds (ts v0) (ts v1) (ts v2)) in *.
  set (z := tri_depth (ts v0) (ts v1) (ts v2) e0 e1 e2) in *.
  assert (Hin : In (tile_of_pixel (r_cfg s) (r_dev s) x y)
                   (tiles_overlapped (r_cfg s) (r_dev s) b)).
  { unfold tile_of_pixel. apply tiles_overlapped_complete; try assumption.
    - apply pixel_tile_x; assumption.
    - apply pixel_tile_y; assumption.
    - exists x, y. split; [exact Hbx |]. split; [exact Hby |].
      unfold in_tile.
      pose proof (Z.div_mod x (tile_width (r_cfg s)) ltac:(lia)).
      pose proof (Z.mod_pos_bound x (tile_width (r_cfg s)) Htw).
      pose proof (Z.div_mod y (tile_height (r_cfg s)) ltac:(lia)).
      pose proof (Z.mod_pos_bound y (tile_height (r_cfg s)) Hth).
      lia. }
  unfold triangle_reaches. apply andb_true_intro. split.
  - unfold cluster_survives.
    cbn [triangle_pso pso_project pso_rstate triangle_cluster cl_vcone].
    fold b.
    destruct (frustum_culled (r_cfg s) (r_dev s) b) eqn:Hf.
    { exfalso. apply frustum_culled_spec in Hf. apply (Hf x y z).
      - repeat split; lia.
      - repeat split; lia. }
    cbn [negb andb].
    destruct (occlusion_culled s (rstate_opaque (r_cfg s)) b) eqn:Hocc;
      [| reflexivity].
    exfalso. unfold occlusion_culled in Hocc.
    apply andb_prop in Hocc as [_ Hall].
    rewrite forallb_forall in Hall. specialize (Hall _ Hin).
    destruct (lookup_lt_is_Some_2 (r_tiles s)
                (tile_of_pixel (r_cfg s) (r_dev s) x y)) as (t & Ht).
    { rewrite Hlen. apply tile_of_pixel_lt; assumption. }
    rewrite Ht in Hall. unfold hiz_occludes in Hall.
    cbn [rstate_opaque rasterizer_psc_base rs_depth_func] in Hall.
    rewrite (Hhiz _ _ Ht) in Hall. cbn [snd] in Hall.
    apply Z.leb_le in Hall. lia.
  - apply bool_decide_eq_true_2. unfold overlapped.
    cbn [triangle_pso pso_project]. apply list_elem_of_In. exact Hin.
Qed.

(** C1. Two opaque triangles that overlap at a pixel of the display, drawn
    with depth testing enabled into a cleared frame: when the frame is
    dispatched far-then-near, the committed pixel shows the color of the near
    triangle, and it shows the same color when the two dispatches are
    swapped. *)
Theorem near_triangle_wins (convert : P -> D) cfg build
    (dev : graphics_device D) (cc : P)
    tsf colf f0 f1 f2 tsn coln n0 n1 n2 x y s1 s2 :
  let rs := @rstate_opaque P cfg in
  let far := triangle_pso rs tsf colf f0 f1 f2 in
  let near := triangle_pso rs tsn coln n0 n1 n2 in
  let zf := depth_at (tsf f0) (tsf f1) (tsf f2) x y in
  let zn := depth_at (tsn n0) (tsn n1) (tsn n2) x y in
  0 < tile_width cfg -> 0 < tile_height cfg -> device_wf dev ->
  depth_format cfg <> depthfmt_none ->
  on_screen dev x y = true ->
  covers rs (tsf f0) (tsf f1) (tsf f2) x y = true ->
  covers rs (tsn n0) (tsn n1) (tsn n2) x y = true ->
  zn < zf -> 0 <= zn < depth_max (depth_format cfg) ->
  two_dispatches convert (start_frame cfg build dev cc) far near = Ok s1 ->
  two_dispatches convert (start_frame cfg build dev cc) near far = Ok s2 ->
  fb_get (r_dev s1) x y = Some (convert coln) /\
  fb_get (r_dev s2) x y = Some (convert coln).
Proof.
  intros rs far near zf zn Htw Hth Hdev Hfmt Hon Hcf Hcn Hlt Hzn Hrun1 Hrun2.
  destruct (start_frame_spec cfg build dev cc Htw Hth Hdev)
    as (Hwf & _ & _ & Hcfg & _ & Hd & Hdis & Hcl & _ & _ & _ & Htiles).
  set (s0 := start_frame cfg build dev cc) in *.
  assert (Hpos : (0 < tile_pixels cfg)%nat).
  { unfold tile_pixels. lia. }
  assert (Hclear : forall j t, r_tiles s0 !! j = Some t ->
            t = cleared_tile cfg cc (depth_max (depth_format cfg))).
  { intros j t Ht. pose proof Hwf as (_ & _ & _ & Hlen & _).
    assert (Hj : (j < num_tiles cfg dev)%nat).
    { apply lookup_lt_Some in Ht. rewrite Hlen, Hcfg, Hd in Ht. exact Ht. }
    rewrite (Htiles j Hj) in Ht. congruence. }
  assert (Hreach : triangle_reaches s0 (tile_of_pixel (r_cfg s0) (r_dev s0) x y)
                     rs tsn coln n0 n1 n2 = true).
  { subst rs. rewrite <- Hcfg. apply triangle_reaches_covered.
    - exact Hwf.
    - intros j t Ht. rewrite (Hclear j t Ht), Hcfg. unfold cleared_tile.
      cbn [t_hiz]. apply hiz_of_replicate. exact Hpos.
    - rewrite Hd. exact Hon.
    - rewrite Hcfg. exact Hcn.
    - rewrite Hcfg. exact Hzn. }
  assert (Hcleared : forall j t, r_tiles s0 !! j = Some t ->
            t_rt0 t = replicate (tile_pixels (r_cfg s0)) cc /\
            t_depth t =
              replicate (tile_pixels (r_cfg s0)) (depth_max (depth_format cfg)) /\
            t_strips t = []).
  { intros j t Ht. rewrite (Hclear j t Ht), Hcfg. auto. }
  assert (Hon0 : on_screen (r_dev s0) x y = true) by (rewrite Hd; exact Hon).
  assert (Hnear : forall c d, zn < d ->
            triangle_pixel rs tsn coln n0 n1 n2 x y (c, d) = (coln, zn)).
  { intros c d Hd'. rewrite triangle_pixel_spec, Hcn. cbv zeta. fold zn.
    subst rs. rewrite raster_fragment_opaque by exact Hfmt.
    destruct (Z.ltb_spec zn d); [reflexivity | lia]. }
  assert (Hfar : forall c d,
            triangle_pixel rs tsf colf f0 f1 f2 x y (c, d) =
              if zf <? d then (colf, zf) else (c, d)).
  { intros c d. rewrite triangle_pixel_spec, Hcf. cbv zeta. fold zf.
    subst rs. rewrite raster_fragment_opaque by exact Hfmt.
    destruct (zf <? d); reflexivity. }
  split.
  - rewrite (two_dispatches_pixel convert s0 cc (depth_max (depth_format cfg))
               rs tsf colf f0 f1 f2 rs tsn coln n0 n1 n2 s1 x y
               Hwf Hdis Hcl Hcleared Hon0 Hrun1).
    rewrite Hreach.
    destruct (triangle_reaches s0 _ rs tsf colf f0 f1 f2).
    + rewrite Hfar. destruct (Z.ltb_spec zf (depth_max (depth_format cfg)));
        rewrite Hnear by lia; reflexivity.
    + rewrite Hnear by lia. reflexivity.
  - rewrite (two_dispatches_pixel convert s0 cc (depth_max (depth_format cfg))
               rs tsn coln n0 n1 n2 rs tsf colf f0 f1 f2 s2 x y
               Hwf Hdis Hcl Hcleared Hon0 Hrun2).
    rewrite Hreach. rewrite Hnear by lia.
    destruct (triangle_reaches s0 _ rs tsf colf f0 f1 f2); [| reflexivity].
    rewrite Hfar. destruct (Z.ltb_spec zf zn); [lia | reflexivity].
Qed.

End TwoTriangles.

(** ** Capacities *)

Section CapacityFacts.
Context {P D : Type}.
Implicit Types (s : rasterizer P D) (t : tile P) (p : pso P).

(** A fault ends whatever follows it. *)
Lemma capacity_fault_bind {A B} b l (k : A -> outcome B) :
  (do x <- capacity_fault b l; k x) = capacity_fault b l.
Proof. unfold capacity_fault. destruct (checks_enabled b); reflexivity. Qed.

Lemma capacity_fault_not_Ok {A} b l : ~ is_Ok (@capacity_fault A b l).
Proof. unfold capacity_fault. destruct (checks_enabled b); simpl; tauto. Qed.

(** A loop that returns has returned from every turn. *)
Lemma ofold_Ok_each {A B} (f : A -> B -> outcome A) l x :
  forall a a', ofold f l a = Ok a' -> In x l ->
  exists a1 a2, f a1 x = Ok a2.
Proof.
  induction l as [| b l IH]; intros a a' Hrun Hin; [destruct Hin |].
  simpl in Hrun. destruct (f a b) as [a1 | |] eqn:Hf; try discriminate.
  destruct Hin as [<- | Hin]; [eauto |].
  cbn [obind] in Hrun. eapply IH; eassumption.
Qed.

(** No strip is left in the pool and one of the tiles of the cluster has
    no strip yet. *)
Lemma bin_tiles_exhausted k tid tids : forall s t,
  Forall (fun j => (j < length (r_tiles s))%nat) tids ->
  In tid tids ->
  r_tiles s !! tid = Some t -> t_strips t = [] ->
  (max_cluster_strips (r_cfg s) <= r_num_strips s)%nat ->
  ofold (bin_to_tile k) tids s =
    capacity_fault (r_build s) limit_cluster_strips.
Proof.
  induction tids as [| j tids IH]; intros s t Hlt Hin Ht Hst Hfull;
    [destruct Hin |].
  inversion Hlt as [| ? ? Hj Hlt']; subst. cbn [ofold].
  destruct (decide (j = tid)) as [-> | Hne].
  - rewrite (bin_to_tile_exhausted k s tid t Ht); [| | exact Hfull].
    + apply capacity_fault_bind.
    + rewrite Hst. reflexivity.
  - destruct Hin as [Heq | Hin]; [contradiction |].
    destruct (lookup_lt_is_Some_2 (r_tiles s) j Hj) as (tj & Htj).
    unfold bin_to_tile at 1. rewrite Htj.
    destruct (strips_push _ k (t_strips tj)) as [strips fresh].
    destruct fresh.
    + unfold capacity_check.
      destruct (Nat.ltb_spec (r_num_strips s) (max_cluster_strips (r_cfg s)));
        [lia |].
      unfold capacity_fault.
      destruct (checks_enabled (r_build s)); reflexivity.
    + cbn [obind].
      set (s1 := set_tiles s (<[j := tile_with_strips tj strips]> (r_tiles s))).
      change (r_build s) with (r_build s1).
      apply (IH s1 t).
      * simpl. rewrite length_insert. exact Hlt'.
      * exact Hin.
      * simpl. rewrite list_lookup_insert_ne by exact Hne. exact Ht.
      * exact Hst.
      * exact Hfull.
Qed.

(** Too many cluster strips. *)
Lemma dispatch_pso_strips_exhausted s p c rest tid t :
  state_wf s -> pso_geometry p = c :: rest ->
  (length (r_dispatches s) < max_dispatches (r_cfg s))%nat ->
  (length (r_clusters s) < max_clusters (r_cfg s))%nat ->
  cluster_survives s p (cl_bvol c) (cl_vcone c) = true ->
  tid ∈ overlapped s p c ->
  r_tiles s !! tid = Some t -> t_strips t = [] ->
  (max_cluster_strips (r_cfg s) <= r_num_strips s)%nat ->
  dispatch_pso s p = capacity_fault (r_build s) limit_cluster_strips.
Proof.
  intros Hwf Hgeo Hd Hc Hsv Hin Ht Hst Hfull.
  pose proof Hwf as (Htw & Hth & (Hfw & Hfh & _) & Hlen & _).
  unfold dispatch_pso, capacity_check.
  destruct (Nat.ltb_spec (length (r_dispatches s)) (max_dispatches (r_cfg s)));
    [| lia].
  rewrite Hgeo. cbn [length seq zip zip_with ofold].
  set (s0 := set_dispatches s (r_dispatches s ++ [p])).
  assert (Hbin : bin_cluster (length (r_dispatches s)) p s0 (0%nat, c) =
                 capacity_fault (r_build s) limit_cluster_strips).
  { unfold bin_cluster.
    change (cluster_survives s0 p (cl_bvol c) (cl_vcone c))
      with (cluster_survives s p (cl_bvol c) (cl_vcone c)).
    rewrite Hsv. unfold capacity_check.
    destruct (Nat.ltb_spec (length (r_clusters s0)) (max_clusters (r_cfg s0)));
      [| simpl in *; lia].
    rewrite (bin_tiles_exhausted _ tid _ _ t); [reflexivity | | | | |].
    - apply Forall_forall. intros j Hj. simpl. rewrite Hlen.
      apply list_elem_of_In in Hj.
      apply (tiles_overlapped_lt (r_cfg s) (r_dev s)) in Hj; assumption.
    - apply list_elem_of_In. exact Hin.
    - exact Ht.
    - exact Hst.
    - exact Hfull. }
  rewrite Hbin. rewrite !capacity_fault_bind. reflexivity.
Qed.

(** The vertices of a cluster do not fit the PTV buffer. *)
Lemma rasterize_geometry_ptv_overflow s tid p (c : cluster (pso_vtx p)) t :
  (max_ptv_buffer_size (r_cfg s) < ptv_need p c)%nat ->
  rasterize_geometry s tid p c t =
    capacity_fault (r_build s) limit_ptv_buffer.
Proof.
  intros Hbig. unfold rasterize_geometry, transform_cluster, capacity_check.
  destruct (Nat.leb_spec (ptv_need p c) (max_ptv_buffer_size (r_cfg s)));
    [lia |].
  unfold capacity_fault. destruct (checks_enabled (r_build s)); reflexivity.
Qed.

Lemma rasterize_cluster_ptv_overflow s tid t k d ci p c :
  r_clusters s !! k = Some (d, ci) -> r_dispatches s !! d = Some p ->
  pso_geometry p !! ci = Some c ->
  (max_ptv_buffer_size (r_cfg s) < ptv_need p c)%nat ->
  rasterize_cluster s tid t k = capacity_fault (r_build s) limit_ptv_buffer.
Proof.
  intros Hk Hd Hci Hbig. unfold rasterize_cluster. rewrite Hk, Hd, Hci.
  apply rasterize_geometry_ptv_overflow. exact Hbig.
Qed.

(** A frame with such a cluster in a strip does not come back from
    [commit]. *)
Lemma commit_ptv_overflow (convert : P -> D) tsh s tid t k d ci p c :
  state_wf s ->
  r_tiles s !! tid = Some t -> k ∈ tile_clusters t ->
  r_clusters s !! k = Some (d, ci) -> r_dispatches s !! d = Some p ->
  pso_geometry p !! ci = Some c ->
  (max_ptv_buffer_size (r_cfg s) < ptv_need p c)%nat ->
  ~ is_Ok (commit convert s tsh).
Proof.
  intros Hwf Ht Hin Hk Hd Hci Hbig Hok.
  destruct (commit convert s tsh) as [s' | |] eqn:Hrun; try contradiction.
  apply commit_Ok in Hrun as (_ & _ & _ & Htiles & _); [| exact Hwf].
  pose proof Hwf as (_ & _ & _ & Hlen & _).
  destruct (Htiles tid) as (t' & (t0 & Ht0 & Hras) & _).
  { rewrite <- Hlen. eapply lookup_lt_Some. exact Ht. }
  rewrite Ht in Ht0. injection Ht0 as <-.
  unfold rasterize_tile in Hras.
  apply list_elem_of_In in Hin.
  destruct (ofold_Ok_each _ _ k _ _ Hras Hin) as (t1 & t2 & Hstep).
  rewrite (rasterize_cluster_ptv_overflow s tid t1 k d ci p c) in Hstep
    by assumption.
  apply (@capacity_fault_not_Ok (tile P) (r_build s) limit_ptv_buffer).
  rewrite Hstep. exact I.
Qed.

(** C5.  The four capacities of a frame.  A [dispatch_pso] beyond
    [max_dispatches], one whose surviving cluster finds the cluster table
    full, one whose cluster needs a strip when the pool is used up, and the
    rasterization of a cluster whose vertices do not fit the PTV buffer all
    end in the fault of that very limit; a frame with such a cluster does
    not come back from [commit].  The fault is [Fatal] with the limit in a
    debug and in a release build and [Undefined] in a retail build, where
    [dispatch_pso] never reports anything; in a build with checks
    [dispatch_pso] returns or reports.  Whatever follows a fault in the
    frame, the fault is the result; and a [dispatch_pso] that returns has
    stayed within the capacities. *)
Theorem capacity_exceeded_is_fatal (convert : P -> D) tsh s p :
  state_wf s ->
  ((max_dispatches (r_cfg s) <= length (r_dispatches s))%nat ->
   dispatch_pso s p = capacity_fault (r_build s) limit_dispatches) /\
  (forall ci c,
     (length (r_dispatches s) < max_dispatches (r_cfg s))%nat ->
     (max_clusters (r_cfg s) <= length (r_clusters s))%nat ->
     pso_geometry p !! ci = Some c ->
     cluster_survives s p (cl_bvol c) (cl_vcone c) = true ->
     dispatch_pso s p = capacity_fault (r_build s) limit_clusters) /\
  (forall c rest tid t,
     pso_geometry p = c :: rest ->
     (length (r_dispatches s) < max_dispatches (r_cfg s))%nat ->
     (length (r_clusters s) < max_clusters (r_cfg s))%nat ->
     cluster_survives s p (cl_bvol c) (cl_vcone c) = true ->
     tid ∈ overlapped s p c ->
     r_tiles s !! tid = Some t -> t_strips t = [] ->
     (max_cluster_strips (r_cfg s) <= r_num_strips s)%nat ->
     dispatch_pso s p = capacity_fault (r_build s) limit_cluster_strips) /\
  (forall tid t k d ci q c,
     r_clusters s !! k = Some (d, ci) -> r_dispatches s !! d = Some q ->
     pso_geometry q !! ci = Some c ->
     (max_ptv_buffer_size (r_cfg s) < ptv_need q c)%nat ->
     rasterize_cluster s tid t k =
       capacity_fault (r_build s) limit_ptv_buffer /\
     (r_tiles s !! tid = Some t -> k ∈ tile_clusters t ->
      ~ is_Ok (commit convert s tsh))) /\
  (forall l,
     @capacity_fault (rasterizer P D) EGL_DEBUG l = Fatal l /\
     @capacity_fault (rasterizer P D) EGL_RELEASE l = Fatal l /\
     @capacity_fault (rasterizer P D) EGL_RETAIL l = Undefined) /\
  (checks_enabled (r_build s) = true ->
   is_Ok (dispatch_pso s p) \/ exists l, dispatch_pso s p = Fatal l) /\
  (r_build s = EGL_RETAIL -> forall l, dispatch_pso s p <> Fatal l) /\
  (forall b l (rest : rasterizer P D -> outcome (rasterizer P D)),
     (do s' <- capacity_fault b l; rest s') = capacity_fault b l) /\
  (forall s', within_capacity s -> dispatch_pso s p = Ok s' ->
     within_capacity s').
Proof.
  intros Hwf.
  split; [apply dispatch_pso_too_many |].
  split; [intros ci c; apply dispatch_pso_table_full |].
  split; [intros c rest tid t Hgeo; eapply dispatch_pso_strips_exhausted;
          eassumption |].
  split.
  { intros tid t k d ci q c Hk Hd Hci Hbig. split.
    - eapply rasterize_cluster_ptv_overflow; eassumption.
    - intros Ht Hin. eapply commit_ptv_overflow; eassumption. }
  split; [intros l; repeat split |].
  split.
  { intros Hb.
    destruct (dispatch_pso_checked s p Hwf Hb) as [H | [H | [H | H]]];
      eauto. }
  split; [apply dispatch_pso_retail |].
  split; [intros b l rest; apply capacity_fault_bind |].
  intros s' (Hd & Hc & Hn) Hrun.
  apply dispatch_pso_Ok in Hrun
    as (Hlt & (Hcfg & _) & Hdis & _ & _ & Hn' & _ & Hc' & _); [| exact Hwf].
  unfold within_capacity. rewrite Hcfg, Hdis, length_app. simpl.
  split; [lia |]. split; [apply Hc', Hc | apply Hn', Hn].
Qed.
End CapacityFacts.

(** ** Determinism *)

Section DeterminismFacts.
Context {P D : Type}.
Implicit Types (s : rasterizer P D) (t : tile P) (p : pso P).

(** The grid reads the dimensions of the display only. *)
Lemma grid_dims cfg (dev dev' : graphics_device D) :
  fb_width dev = fb_width dev' -> fb_height dev = fb_height dev' ->
  (forall b, tiles_overlapped cfg dev b = tiles_overlapped cfg dev' b) /\
  (forall b, frustum_culled cfg dev b = frustum_culled cfg dev' b) /\
  tile_sequence cfg dev = tile_sequence cfg dev' /\
  (forall x y, tile_of_pixel cfg dev x y = tile_of_pixel cfg dev' x y) /\
  (forall x y, on_screen dev x y = on_screen dev' x y) /\
  (forall x y, fb_index dev x y = fb_index dev' x y).
Proof.
  destruct dev as [w h f], dev' as [w' h' f']. simpl.
  intros -> ->. repeat split.
Qed.

Lemma rasterize_triangle_dims cfg (dev dev' : graphics_device D) tid p
    (v0 v1 v2 : pso_psin p) prim t :
  fb_width dev = fb_width dev' -> fb_height dev = fb_height dev' ->
  rasterize_triangle cfg dev tid p v0 v1 v2 prim t =
  rasterize_triangle cfg dev' tid p v0 v1 v2 prim t.
Proof.
  destruct dev as [w h f], dev' as [w' h' f']. simpl.
  intros -> ->. reflexivity.
Qed.

Lemma same_inputs_refl s : same_inputs s s.
Proof. repeat split. Qed.

Lemma cluster_survives_inputs s s' p bv vc :
  same_inputs s s' ->
  cluster_survives s p bv vc = cluster_survives s' p bv vc.
Proof.
  intros (Hcfg & Hb & Hw & Hh & Hcd & Hcc & Ht & Hd & Hc & Hn).
  destruct (grid_dims (r_cfg s) _ _ Hw Hh) as (Hov & Hfr & _).
  unfold cluster_survives, occlusion_culled.
  rewrite <- Hcfg, <- Ht, <- Hfr, <- Hov. reflexivity.
Qed.

Lemma bin_to_tile_inputs k s s' tid :
  same_inputs s s' ->
  outcome_rel same_inputs (bin_to_tile k s tid) (bin_to_tile k s' tid).
Proof.
  intros (Hcfg & Hb & Hw & Hh & Hcd & Hcc & Ht & Hd & Hc & Hn).
  unfold bin_to_tile. rewrite <- Ht, <- Hcfg, <- Hb, <- Hn.
  destruct (r_tiles s !! tid) as [t |]; [| exact I].
  destruct (strips_push _ k (t_strips t)) as [strips fresh].
  destruct fresh; [apply capacity_check_rel |];
    simpl; repeat split; assumption.
Qed.

Lemma bin_cluster_inputs d p s s' ic :
  same_inputs s s' ->
  outcome_rel same_inputs (bin_cluster d p s ic) (bin_cluster d p s' ic).
Proof.
  intros H. pose proof H as (Hcfg & Hb & Hw & Hh & Hcd & Hcc & Ht & Hd & Hc & Hn).
  destruct (grid_dims (r_cfg s) _ _ Hw Hh) as (Hov & _).
  unfold bin_cluster. destruct ic as [ci c].
  rewrite <- (cluster_survives_inputs s s' p _ _ H).
  destruct (cluster_survives s p (cl_bvol c) (cl_vcone c)); [| exact H].
  rewrite <- Hb, <- Hc, <- Hcfg, <- Hov.
  apply capacity_check_rel. apply ofold_rel.
  - intros a a' tid Ha. apply bin_to_tile_inputs. exact Ha.
  - simpl. repeat split; assumption.
Qed.

Lemma dispatch_pso_inputs s s' p :
  same_inputs s s' ->
  outcome_rel same_inputs (dispatch_pso s p) (dispatch_pso s' p).
Proof.
  intros H. pose proof H as (Hcfg & Hb & Hw & Hh & Hcd & Hcc & Ht & Hd & Hc & Hn).
  unfold dispatch_pso. rewrite <- Hb, <- Hd, <- Hcfg.
  apply capacity_check_rel.
  pose proof (ofold_rel same_inputs
                (bin_cluster (length (r_dispatches s)) p)
                (bin_cluster (length (r_dispatches s)) p)
                (zip (seq 0 (length (pso_geometry p))) (pso_geometry p))
                (fun a a' ic Ha => bin_cluster_inputs _ p a a' ic Ha)
                (set_dispatches s (r_dispatches s ++ [p]))
                (set_dispatches s' (r_dispatches s ++ [p]))) as Hfold.
  destruct (ofold _ _ (set_dispatches s _)) as [a | l |];
    destruct (ofold _ _ (set_dispatches s' _)) as [a' | l' |];
    simpl in Hfold |- *;
    try (apply Hfold; repeat split; assumption).
  assert (Ha : same_inputs a a') by (apply Hfold; repeat split; assumption).
  destruct Ha as (Hcfg1 & Hb1 & Hw1 & Hh1 & Hcd1 & Hcc1 & Ht1 & Hd1 & Hc1 & Hn1).
  unfold note_dispatch. rewrite <- Hb1.
  destruct (checks_enabled (r_build a)); simpl; repeat split; assumption.
Qed.

Lemma rasterize_tile_inputs s s' tid t :
  same_inputs s s' -> rasterize_tile s tid t = rasterize_tile s' tid t.
Proof.
  intros (Hcfg & Hb & Hw & Hh & Hcd & Hcc & Ht & Hd & Hc & Hn).
  unfold rasterize_tile. apply ofold_ext. intros a k.
  unfold rasterize_cluster. rewrite <- Hc, <- Hd.
  destruct (r_clusters s !! k) as [[d ci] |]; [| reflexivity].
  destruct (r_dispatches s !! d) as [p |]; [| reflexivity].
  destruct (pso_geometry p !! ci) as [c |]; [| reflexivity].
  unfold rasterize_geometry, transform_cluster. rewrite <- Hb, <- Hcfg.
  destruct (capacity_check _ _ _ _) as [ptv | |]; [| reflexivity ..].
  cbn [obind]. apply ofold_ext. intros a' [prim [[i0 i1] i2]].
  unfold rasterize_indexed.
  destruct (ptv !! i0), (ptv !! i1), (ptv !! i2); try reflexivity.
  rewrite (rasterize_triangle_dims _ _ _ _ _ _ _ _ _ _ Hw Hh). reflexivity.
Qed.

Lemma commit_tile_inputs (convert : P -> D) tsh s s' tid :
  same_inputs s s' ->
  outcome_rel same_inputs
    (commit_tile convert tsh s tid) (commit_tile convert tsh s' tid).
Proof.
  intros H. pose proof H as (Hcfg & Hb & Hw & Hh & Hcd & Hcc & Ht & Hd & Hc & Hn).
  unfold commit_tile. rewrite <- Ht.
  destruct (r_tiles s !! tid) as [t |]; [| exact I].
  rewrite <- (rasterize_tile_inputs s s' tid t H).
  destruct (rasterize_tile s tid t) as [t' | l |]; simpl; trivial.
  destruct (transfer_tile_dims tsh convert (r_cfg s) tid t' (r_dev s))
    as (Hw1 & Hh1 & _).
  destruct (transfer_tile_dims tsh convert (r_cfg s) tid t' (r_dev s'))
    as (Hw2 & Hh2 & _).
  rewrite <- Hcfg, <- Hcd, <- Hcc.
  repeat split; simpl; try assumption; congruence.
Qed.

Lemma commit_inputs (convert : P -> D) tsh s s' :
  same_inputs s s' ->
  outcome_rel same_inputs (commit convert s tsh) (commit convert s' tsh).
Proof.
  intros H. pose proof H as (Hcfg & Hb & Hw & Hh & _).
  destruct (grid_dims (r_cfg s) _ _ Hw Hh) as (_ & _ & Hseq & _).
  unfold commit. rewrite <- Hcfg, <- Hseq.
  pose proof (ofold_rel same_inputs (commit_tile convert tsh)
                (commit_tile convert tsh)
                (tile_sequence (r_cfg s) (r_dev s))
                (fun a a' tid Ha => commit_tile_inputs convert tsh a a' tid Ha)
                s s' H) as Hfold.
  destruct (ofold _ _ s) as [a | l |];
    destruct (ofold _ _ s') as [a' | l' |]; simpl in Hfold |- *; trivial.
  destruct Hfold as (Hcfg1 & Hb1 & Hw1 & Hh1 & Hcd1 & Hcc1 & Ht1 & _).
  repeat split; assumption.
Qed.

(** Two displays of the same size with the same pixels are the same. *)
Lemma device_eq (dev dev' : graphics_device D) :
  device_wf dev -> device_wf dev' ->
  fb_width dev = fb_width dev' -> fb_height dev = fb_height dev' ->
  (forall x y, on_screen dev x y = true -> fb_get dev x y = fb_get dev' x y) ->
  dev = dev'.
Proof.
  destruct dev as [w h f], dev' as [w' h' f'].
  unfold device_wf. simpl.
  intros (Hw & Hh & Hlen) (_ & _ & Hlen') <- <- Hpix. f_equal.
  apply list_eq. intros i.
  destruct (decide (i < length f)%nat) as [Hi | Hi].
  - assert (Hwpos : 0 < w) by nia.
    set (x := Z.of_nat i mod w). set (y := Z.of_nat i / w).
    pose proof (Z.mod_pos_bound (Z.of_nat i) w Hwpos) as Hx. fold x in Hx.
    pose proof (Z.div_mod (Z.of_nat i) w ltac:(lia)) as Hdm.
    fold x y in Hdm.
    assert (Hy : 0 <= y < h).
    { split; [apply Z.div_pos; lia |].
      apply Z.div_lt_upper_bound; [lia |]. lia. }
    assert (Hon : on_screen (mk_device w h f) x y = true).
    { apply on_screen_spec. simpl. lia. }
    specialize (Hpix x y Hon). unfold fb_get in Hpix. rewrite Hon in Hpix.
    assert (Hon' : on_screen (mk_device w h f') x y = true).
    { apply on_screen_spec. simpl. lia. }
    rewrite Hon' in Hpix. unfold fb_index in Hpix. simpl in Hpix.
    replace (Z.to_nat (y * w + x)) with i in Hpix by lia. exact Hpix.
  - rewrite !lookup_ge_None_2 by lia. reflexivity.
Qed.

Lemma dispatch_pso_wf s p s' :
  state_wf s -> dispatch_pso s p = Ok s' -> state_wf s'.
Proof.
  intros Hwf Hrun. pose proof Hwf as (Htw & Hth & Hdev & Hlen & Hbuf).
  apply dispatch_pso_Ok in Hrun
    as (_ & (Hcfg & _ & Hd & _) & _ & Hext & _); [| exact Hwf].
  unfold state_wf. rewrite Hcfg, Hd.
  do 3 (split; [assumption |]).
  split; [rewrite <- (Forall2_length _ _ _ Hext); exact Hlen |].
  apply Forall_lookup_2. intros j t' Ht'.
  destruct (Forall2_lookup_r _ _ _ _ _ Hext Ht') as (t & Ht & (Hr & Hdp & _)).
  rewrite Hr, Hdp.
  exact (proj1 (Forall_lookup _ _) Hbuf j t Ht).
Qed.

(** C7.  One frame of a PSO, [dispatch_pso] then [commit], run from two
    engine states that agree on all a frame reads (two identical states
    among them), with the same PSO, the same format conversion and the
    same tile shader: the two runs end the same way, and where they
    return, the display and the tile buffers they leave are equal, pixel
    for pixel. *)
Theorem render_is_deterministic (convert : P -> D) tsh s s' p :
  state_wf s -> state_wf s' -> same_inputs s s' ->
  outcome_rel same_output (render convert tsh s p) (render convert tsh s' p).
Proof.
  intros Hwf Hwf' Hin. unfold render.
  pose proof (dispatch_pso_inputs s s' p Hin) as Hdis.
  destruct (dispatch_pso s p) as [a | l |] eqn:Ha;
    destruct (dispatch_pso s' p) as [a' | l' |] eqn:Ha';
    simpl in Hdis |- *; trivial; try contradiction.
  pose proof (dispatch_pso_wf _ _ _ Hwf Ha) as Hwfa.
  pose proof (dispatch_pso_wf _ _ _ Hwf' Ha') as Hwfa'.
  pose proof (commit_inputs convert tsh a a' Hdis) as Hcom.
  destruct (commit convert a tsh) as [b | l |] eqn:Hb;
    destruct (commit convert a' tsh) as [b' | l' |] eqn:Hb';
    simpl in Hcom |- *; trivial.
  destruct Hcom as (_ & _ & Hw & Hh & _ & _ & Ht & _).
  split; [| exact Ht].
  destruct (commit_Ok _ _ _ _ Hwfa Hb)
    as ((_ & _ & _ & _ & _ & Hwb & Hhb) & _ & Hwfb & _ & Hpix).
  destruct (commit_Ok _ _ _ _ Hwfa' Hb')
    as ((_ & _ & _ & _ & _ & Hwb' & Hhb') & _ & Hwfb' & _ & Hpix').
  pose proof Hdis as (Hcfg & _ & Hwa & Hha & _ & _ & Hta & _).
  destruct (grid_dims (r_cfg a) _ _ Hwa Hha) as (_ & _ & _ & Htile & Hon & _).
  apply device_eq; try assumption.
  - destruct Hwfb as (_ & _ & Hd & _). exact Hd.
  - destruct Hwfb' as (_ & _ & Hd & _). exact Hd.
  - intros x y Hxy.
    assert (Hxa : on_screen (r_dev a) x y = true).
    { apply on_screen_spec. apply on_screen_spec in Hxy. lia. }
    assert (Hxa' : on_screen (r_dev a') x y = true)
      by (rewrite <- Hon; exact Hxa).
    destruct (Hpix x y Hxa) as (t1 & (t0 & Ht0 & Hr0) & ->).
    destruct (Hpix' x y Hxa') as (t1' & (t0' & Ht0' & Hr0') & ->).
    rewrite <- Hcfg in Ht0', Hr0' |- *.
    rewrite <- Htile in Ht0', Hr0'. rewrite <- Hta in Ht0'.
    rewrite Ht0 in Ht0'. injection Ht0' as <-.
    rewrite <- (rasterize_tile_inputs a a' _ t0 Hdis) in Hr0'.
    rewrite Hr0 in Hr0'. injection Hr0' as <-. reflexivity.
Qed.
End DeterminismFacts.

(** The scene of the two triangles, at the pixel (2, 2), in both orders. *)
Lemma near_triangle_wins_witness :
  let far := triangle_pso (rstate_opaque Scene.cfg) Scene.to_screen 7
               (Scene.at_ 0 0 900) (Scene.at_ 7 0 900) (Scene.at_ 0 7 900) in
  let near := triangle_pso (rstate_opaque Scene.cfg) Scene.to_screen 3
                (Scene.at_ 1 1 100) (Scene.at_ 6 1 500) (Scene.at_ 1 6 100) in
  let s0 := start_frame Scene.cfg EGL_DEBUG Scene.dev 0 in
  exists s1 s2,
    two_dispatches (fun c : Z => c) s0 far near = Ok s1 /\
    two_dispatches (fun c : Z => c) s0 near far = Ok s2 /\
    fb_get (r_dev s1) 2 2 = Some 3 /\ fb_get (r_dev s2) 2 2 = Some 3.
Proof.
  intros far near s0.
  destruct (two_dispatches (fun c : Z => c) s0 far near)
    as [s1 | l |] eqn:H1; [| vm_compute in H1; discriminate ..].
  destruct (two_dispatches (fun c : Z => c) s0 near far)
    as [s2 | l |] eqn:H2; [| vm_compute in H2; discriminate ..].
  exists s1, s2. split; [reflexivity |]. split; [reflexivity |].
  apply (near_triangle_wins (fun c : Z => c) Scene.cfg EGL_DEBUG Scene.dev 0
           Scene.to_screen 7 (Scene.at_ 0 0 900) (Scene.at_ 7 0 900)
           (Scene.at_ 0 7 900)
           Scene.to_screen 3 (Scene.at_ 1 1 100) (Scene.at_ 6 1 500)
           (Scene.at_ 1 6 100) 2 2 s1 s2).
  - reflexivity.
  - reflexivity.
  - vm_compute. repeat split; discriminate.
  - discriminate.
  - vm_compute. reflexivity.
  - vm_compute. reflexivity.
  - vm_compute. reflexivity.
  - vm_compute. reflexivity.
  - vm_compute. split; [discriminate | reflexivity].
  - exact H1.
  - exact H2.
Defined.

(** The far triangle moved off the display is in no table and in no strip
    after its dispatch. *)
Lemma binning_excludes_clusters_outside_frustum_witness :
  exists s',
    dispatch_pso (Scene.start EGL_DEBUG) Scene.hidden_tri = Ok s' /\
    ((0%nat, 0%nat) ∉ r_clusters s') /\
    forall j k, k ∈ clusters_at s' j ->
      r_clusters s' !! k <> Some (0%nat, 0%nat).
Proof.
  destruct (dispatch_pso (Scene.start EGL_DEBUG) Scene.hidden_tri)
    as [s' | l |] eqn:Hrun; [| vm_compute in Hrun; discriminate ..].
  exists s'. split; [reflexivity |].
  destruct (start_frame_spec Scene.cfg EGL_DEBUG Scene.dev 0)
    as (Hwf & Htab & _); [reflexivity | reflexivity | |].
  { vm_compute. repeat split; discriminate. }
  destruct (binning_excludes_clusters_outside_frustum
              (Scene.start EGL_DEBUG) Scene.hidden_tri s' Hwf Htab Hrun)
    as [Hout _].
  apply (Hout 0%nat (triangle_cluster (Scene.at_ 20 0 900)
                       (Scene.at_ 27 0 900) (Scene.at_ 20 7 900)));
    [reflexivity |].
  apply frustum_culled_spec. vm_compute. reflexivity.
Defined.

(** The frame of the far triangle alone, committed. *)
Lemma commit_resets_frame_witness :
  exists s s',
    dispatch_pso (Scene.start EGL_DEBUG) Scene.far_tri = Ok s /\
    commit (fun c : Z => c) s None = Ok s' /\
    r_dispatches s' = [] /\ r_clusters s' = [] /\ r_num_strips s' = 0%nat /\
    forall p, dispatch_pso s' p <> Fatal limit_dispatches.
Proof.
  destruct (dispatch_pso (Scene.start EGL_DEBUG) Scene.far_tri)
    as [s | l |] eqn:Hrun; [| vm_compute in Hrun; discriminate ..].
  destruct (start_frame_spec Scene.cfg EGL_DEBUG Scene.dev 0)
    as (Hwf & _); [reflexivity | reflexivity | |].
  { vm_compute. repeat split; discriminate. }
  destruct (dispatch_pso_single (Scene.start EGL_DEBUG) Scene.far_tri
              _ s Hwf eq_refl Hrun) as ((Hcfg & _) & Hwfs & _).
  destruct (commit (fun c : Z => c) s None) as [s' | l |] eqn:Hcommit.
  - exists s, s'. split; [reflexivity |]. split; [exact Hcommit |].
    destruct (commit_resets_frame (fun c : Z => c) None s s' Hwfs Hcommit)
      as ((Hd & Hc & Hn) & _ & Hnext & _).
    do 3 (split; [assumption |]).
    apply Hnext.
    destruct (commit_Ok _ _ _ _ Hwfs Hcommit) as ((Hcfg' & _) & _).
    rewrite Hcfg', Hcfg. vm_compute. lia.
  - exfalso. revert Hcommit.
    assert (Hs : Ok s = dispatch_pso (Scene.start EGL_DEBUG) Scene.far_tri)
      by (symmetry; exact Hrun).
    vm_compute in Hs. injection Hs as ->. vm_compute. discriminate.
  - exfalso. revert Hcommit.
    assert (Hs : Ok s = dispatch_pso (Scene.start EGL_DEBUG) Scene.far_tri)
      by (symmetry; exact Hrun).
    vm_compute in Hs. injection Hs as ->. vm_compute. discriminate.
Defined.

(** The scene has room for two dispatches: the third one of a frame is
    reported in a debug build. *)
Lemma capacity_exceeded_is_fatal_witness :
  exists s1 s2,
    dispatch_pso (Scene.start EGL_DEBUG) Scene.far_tri = Ok s1 /\
    dispatch_pso s1 Scene.near_tri = Ok s2 /\
    dispatch_pso s2 Scene.far_tri = Fatal limit_dispatches.
Proof.
  destruct (dispatch_pso (Scene.start EGL_DEBUG) Scene.far_tri)
    as [s1 | l |] eqn:H1; [| vm_compute in H1; discriminate ..].
  destruct (start_frame_spec Scene.cfg EGL_DEBUG Scene.dev 0)
    as (Hwf & _ & _ & Hcfg0 & Hb0 & _ & Hdis0 & _);
    [reflexivity | reflexivity | |].
  { vm_compute. repeat split; discriminate. }
  destruct (dispatch_pso_single (Scene.start EGL_DEBUG) Scene.far_tri
              _ s1 Hwf eq_refl H1) as ((Hcfg1 & Hb1 & _) & Hwf1 & Hdis1 & _).
  destruct (dispatch_pso s1 Scene.near_tri) as [s2 | l |] eqn:H2.
  - destruct (dispatch_pso_single s1 Scene.near_tri _ s2 Hwf1 eq_refl H2)
      as ((Hcfg2 & Hb2 & _) & Hwf2 & Hdis2 & _).
    exists s1, s2. split; [reflexivity |]. split; [exact H2 |].
    destruct (capacity_exceeded_is_fatal (fun c : Z => c) None s2
                Scene.far_tri Hwf2) as (Hmany & _).
    rewrite Hmany.
    + rewrite Hb2, Hb1. fold (Scene.start EGL_DEBUG) in Hb0. rewrite Hb0.
      reflexivity.
    + rewrite Hcfg2, Hcfg1, Hdis2, Hdis1.
      fold (Scene.start EGL_DEBUG) in Hcfg0, Hdis0. rewrite Hcfg0, Hdis0.
      simpl. lia.
  - exfalso. revert H2.
    assert (Hs : Ok s1 = dispatch_pso (Scene.start EGL_DEBUG) Scene.far_tri)
      by (symmetry; exact H1).
    vm_compute in Hs. injection Hs as ->. vm_compute. discriminate.
  - exfalso. revert H2.
    assert (Hs : Ok s1 = dispatch_pso (Scene.start EGL_DEBUG) Scene.far_tri)
      by (symmetry; exact H1).
    vm_compute in Hs. injection Hs as ->. vm_compute. discriminate.
Defined.

(* ===================================================================== *)
(** * Part III: the sketches' own code                                    *)
(* ===================================================================== *)

(** ** 00_HelloRect: test_shader and loop *)

Section HelloRectFacts.
Import HelloRect.

(** One color channel of [test_shader::exec] for the offset [v] from the
    rectangle's corner. *)
Lemma gradient_channel v : to_uint8 (to_uint8 v * 2) = (2 * v) mod 256.
Proof.
  unfold to_uint8. rewrite Z.mul_mod_idemp_l by lia. f_equal. lia.
Qed.

Lemma gradient_channel_even v :
  0 <= (2 * v) mod 256 <= 254 /\ Z.even ((2 * v) mod 256) = true.
Proof.
  assert (Hm : (2 * v) mod 256 = 2 * (v mod 128)).
  { replace 256 with (2 * 128) by reflexivity.
    rewrite Z.mul_mod_distr_l by lia. reflexivity. }
  rewrite Hm. pose proof (Z.mod_pos_bound v 128 ltac:(lia)) as Hb.
  split; [lia |]. rewrite Z.even_mul. reflexivity.
Qed.

(** X1.  [test_shader::exec] inside a rectangle of at most 128 by 128
    pixels: at the offset (dx, dy) from the rectangle's corner, with both
    below 128, the pixel is (2 dx, 2 dy, frame, 0), so red and green rise by
    two from pixel to pixel and no narrowing to [uint8_t] cuts anything
    off. *)
Theorem test_shader_exec_gradient (sh : test_shader) (x_ y_ : Z) :
  0 <= x_ - x sh < 128 -> 0 <= y_ - y sh < 128 ->
  test_shader_exec sh x_ y_ =
    mk_rgba8 (2 * (x_ - x sh)) (2 * (y_ - y sh)) (frame sh) 0.
Proof.
  intros Hx Hy. unfold test_shader_exec.
  rewrite !gradient_channel, !Z.mod_small by lia. reflexivity.
Qed.

(** X2.  The narrowing in [test_shader::exec]: red and green are always
    even values between 0 and 254, and the pixel is the same 128 pixels
    further right or further down, so a rectangle wider or taller than 128
    pixels shows the gradient again from its start. *)
Theorem test_shader_exec_wraps (sh : test_shader) (x_ y_ : Z) :
  test_shader_exec sh (x_ + 128) y_ = test_shader_exec sh x_ y_ /\
  test_shader_exec sh x_ (y_ + 128) = test_shader_exec sh x_ y_ /\
  (0 <= r8 (test_shader_exec sh x_ y_) <= 254 /\
   Z.even (r8 (test_shader_exec sh x_ y_)) = true) /\
  (0 <= g8 (test_shader_exec sh x_ y_) <= 254 /\
   Z.even (g8 (test_shader_exec sh x_ y_)) = true).
Proof.
  unfold test_shader_exec. cbn [r8 g8]. rewrite !gradient_channel.
  assert (Hp : forall v w, (2 * (v + 128 - w)) mod 256 = (2 * (v - w)) mod 256).
  { intros v w. replace (2 * (v + 128 - w)) with (2 * (v - w) + 1 * 256) by lia.
    apply Z_mod_plus_full. }
  rewrite !Hp.
  repeat split; try reflexivity; apply gradient_channel_even.
Qed.
End HelloRectFacts.

Section HelloRectLoopFacts.
Import HelloRect HelloRectLoop.

Lemma to_int16_small v : -32768 <= v < 32768 -> to_int16 v = v.
Proof. intros Hv. unfold to_int16. rewrite Z.mod_small by lia. lia. Qed.

(** The corner [loop()] computes along one axis of a display that has
    [fb] pixels there. *)
Lemma loop_corner fb :
  0 <= fb < 65536 ->
  to_int16 (Z.quot fb 2 - Z.quot 128 2) = fb / 2 - 64.
Proof.
  intros Hfb. rewrite Z.quot_div_nonneg by lia.
  change (Z.quot 128 2) with 64.
  apply to_int16_small.
  pose proof (Z.div_le_upper_bound fb 2 32768 ltac:(lia) ltac:(lia)).
  pose proof (Z.div_pos fb 2 ltac:(lia) ltac:(lia)). lia.
Qed.

(** X3.  The rectangle [loop()] hands to [draw_rect], on a display whose
    dimensions fit 16 bits: it lies within the display exactly when the
    display is at least 128 pixels wide and 128 pixels high (the condition
    under which the sketch says [fast_draw_rect] may take the place of
    [draw_rect]); it is centred, the right and lower margins being at most
    one pixel larger than the left and upper ones; and the shader is given
    the corner of that same rectangle. *)
Theorem loop_rect_within_display (fb_width fb_height s_frame : Z) :
  0 <= fb_width < 65536 -> 0 <= fb_height < 65536 ->
  let c := fst (loop fb_width fb_height s_frame) in
  ((0 <= dc_x c /\ dc_x c + dc_width c <= fb_width /\
    0 <= dc_y c /\ dc_y c + dc_height c <= fb_height)
   <-> (128 <= fb_width /\ 128 <= fb_height)) /\
  (0 <= (fb_width - (dc_x c + dc_width c)) - dc_x c <= 1 /\
   0 <= (fb_height - (dc_y c + dc_height c)) - dc_y c <= 1) /\
  (x (dc_shader c) = dc_x c /\ y (dc_shader c) = dc_y c /\
   frame (dc_shader c) = s_frame).
Proof.
  intros Hw Hh c. subst c. unfold loop.
  cbn [fst dc_x dc_y dc_width dc_height dc_shader x y frame].
  unfold rect_width, rect_height.
  rewrite !loop_corner by assumption.
  pose proof (Z.div_mod fb_width 2 ltac:(lia)) as Hdw.
  pose proof (Z.mod_pos_bound fb_width 2 ltac:(lia)) as Hmw.
  pose proof (Z.div_mod fb_height 2 ltac:(lia)) as Hdh.
  pose proof (Z.mod_pos_bound fb_height 2 ltac:(lia)) as Hmh.
  split; [| split; [| auto]]; lia.
Qed.

(** The counter of [loop()] after [k] passes. *)
Lemma frames_lookup fb_width fb_height n : forall s_frame k,
  (k < n)%nat ->
  frames fb_width fb_height n s_frame !! k =
    Some (fst (loop fb_width fb_height
                 (if k is O then s_frame
                  else (s_frame + Z.of_nat k) mod 256))).
Proof.
  induction n as [| n IH]; intros s_frame k Hk; [lia |].
  destruct k as [| k]; [reflexivity |].
  cbn [frames loop lookup list_lookup]. rewrite IH by lia. do 3 f_equal.
  unfold to_uint8. destruct k as [| k].
  - f_equal; lia.
  - rewrite Z.add_mod_idemp_l by lia. f_equal; lia.
Qed.

(** X4.  The passes of [loop()] one after the other, the counter starting
    as a [uint8_t] value: pass number [k] draws the same rectangle with
    the shader's frame at (s_frame + k) mod 256, so the pixel at an offset
    (dx, dy) inside the rectangle is (2 dx, 2 dy, (s_frame + k) mod 256, 0),
    and pass [k + 256] makes the very call of pass [k]: the animation
    repeats every 256 frames. *)
Theorem loop_frames_cycle (fb_width fb_height : Z) (n : nat) (s_frame : Z)
    (k : nat) :
  0 <= s_frame < 256 -> (k < n)%nat ->
  let c := fst (loop fb_width fb_height ((s_frame + Z.of_nat k) mod 256)) in
  frames fb_width fb_height n s_frame !! k = Some c /\
  (forall px py,
     0 <= px - dc_x c < dc_width c -> 0 <= py - dc_y c < dc_height c ->
     test_shader_exec (dc_shader c) px py =
       mk_rgba8 (2 * (px - dc_x c)) (2 * (py - dc_y c))
                ((s_frame + Z.of_nat k) mod 256) 0) /\
  ((k + 256 < n)%nat ->
   frames fb_width fb_height n s_frame !! (k + 256)%nat = Some c).
Proof.
  intros Hs Hk c. split; [| split].
  - rewrite frames_lookup by exact Hk. subst c. destruct k as [| k].
    + rewrite Z.add_0_r, Z.mod_small by lia. reflexivity.
    + reflexivity.
  - intros px py Hpx Hpy. subst c. unfold loop in *.
    cbn [fst dc_x dc_y dc_width dc_height dc_shader] in *.
    unfold rect_width, rect_height in *. unfold test_shader_exec.
    cbn [x y frame].
    rewrite !gradient_channel, !Z.mod_small by lia. reflexivity.
  - intros Hk'. rewrite frames_lookup by exact Hk'. subst c.
    replace (k + 256)%nat with (S (k + 255)) by lia.
    do 3 f_equal.
    replace (s_frame + Z.of_nat (S (k + 255)))
      with (s_frame + Z.of_nat k + 1 * 256) by lia.
    apply Z_mod_plus_full.
Qed.
End HelloRectLoopFacts.

(** The lower right pixel of the rectangle of [loop()] on a 240 by 320
    display. *)
Lemma test_shader_exec_gradient_witness :
  HelloRect.test_shader_exec
    {| HelloRect.x := 56; HelloRect.y := 96; HelloRect.frame := 7 |} 183 223
  = HelloRect.mk_rgba8 254 254 7 0.
Proof.
  apply (test_shader_exec_gradient
           {| HelloRect.x := 56; HelloRect.y := 96; HelloRect.frame := 7 |}
           183 223); simpl; lia.
Defined.

(** A 240 by 320 display holds the rectangle; a 96 by 64 one does not. *)
Lemma loop_rect_within_display_witness :
  (let c := fst (HelloRectLoop.loop 240 320 0) in
   0 <= HelloRectLoop.dc_x c /\
   HelloRectLoop.dc_x c + HelloRectLoop.dc_width c <= 240 /\
   0 <= HelloRectLoop.dc_y c /\
   HelloRectLoop.dc_y c + HelloRectLoop.dc_height c <= 320) /\
  ~ (let c := fst (HelloRectLoop.loop 96 64 0) in
     0 <= HelloRectLoop.dc_x c /\
     HelloRectLoop.dc_x c + HelloRectLoop.dc_width c <= 96 /\
     0 <= HelloRectLoop.dc_y c /\
     HelloRectLoop.dc_y c + HelloRectLoop.dc_height c <= 64).
Proof.
  split.
  - apply (proj1 (loop_rect_within_display 240 320 0
                    ltac:(lia) ltac:(lia))). lia.
  - intros Hin.
    apply (proj1 (loop_rect_within_display 96 64 0
                    ltac:(lia) ltac:(lia))) in Hin. lia.
Defined.

(** Pass 300 of a run of 400 passes shows frame 44, as pass 44 does. *)
Lemma loop_frames_cycle_witness :
  HelloRectLoop.frames 240 320 400 0 !! 300%nat =
    Some (fst (HelloRectLoop.loop 240 320 44)) /\
  HelloRectLoop.frames 240 320 400 0 !! 44%nat =
    Some (fst (HelloRectLoop.loop 240 320 44)).
Proof.
  destruct (loop_frames_cycle 240 320 400 0 44 ltac:(lia) ltac:(lia))
    as (H44 & _ & H300).
  split; [apply H300; lia | exact H44].
Defined.

(** ** 02_RotoMonkey: loop *)

Section RotoMonkeyFacts.
Import RotoMonkeyLoop.

Lemma passes_logged n : forall c, c <> 0 -> passes n c = replicate n false.
Proof.
  induction n as [| n IH]; intros c Hc; [reflexivity |].
  cbn [passes]. unfold loop_log.
  destruct (Z.eqb_spec c 0) as [-> | _]; [contradiction |].
  cbn [replicate]. f_equal. apply IH. exact Hc.
Qed.

(** X9.  The statistics log of [loop()]: the counter starting at 0, the
    first pass logs the rasterizer statistics and sets the counter to 100,
    and no later pass logs again, the counter never being counted down
    (the comment in the sketch announces a log every 100 frames). *)
Theorem loop_logs_once (n : nat) :
  passes (S n) 0 = true :: replicate n false.
Proof.
  cbn [passes]. change (loop_log 0) with (true, 100).
  f_equal. apply passes_logged. discriminate.
Qed.
End RotoMonkeyFacts.

(** ** 05_Speedometer: the needle *)

Section SpeedometerFacts.
Context {F : Type} `{Float F}.

Lemma needle_indices_length : length Speedometer.s_needle_indices = 12%nat.
Proof. reflexivity. Qed.


(** The index table, triangle by triangle. *)
Lemma triangle_indices_cases prim a b c :
  SpeedometerNeedle.triangle_indices prim = Some (a, b, c) ->
  (prim = 0%nat /\ (a, b, c) = (0, 1, 2)) \/
  (prim = 1%nat /\ (a, b, c) = (1, 3, 2)) \/
  (prim = 2%nat /\ (a, b, c) = (4, 5, 6)) \/
  (prim = 3%nat /\ (a, b, c) = (5, 7, 6)).
Proof.
  unfold SpeedometerNeedle.triangle_indices.
  destruct prim as [| [| [| [| prim]]]].
  - intros [= <- <- <-]. auto.
  - intros [= <- <- <-]. auto.
  - intros [= <- <- <-]. auto 6.
  - intros [= <- <- <-]. auto 6.
  - rewrite (lookup_ge_None_2 Speedometer.s_needle_indices
               (3 * S (S (S (S prim))))%nat)
      by (rewrite needle_indices_length; lia).
    discriminate.
Qed.

(** X6.  [s_needle_indices] against [ps_gauge_needle::exec]: every
    triangle of the index list names three of the eight vertices; the
    triangles 0 and 1 name vertices of the current needle (0 to 3) only,
    the triangles 2 and 3 copies of the previous frame (4 to 7) only; and
    for a triangle that names a previous-frame vertex the pixel shader
    exports nothing and hands the pixel output back as it got it. *)
Theorem previous_frame_triangles_discarded {texture : Type}
    (sample : texture -> vec2 F -> Speedometer.pixel_r5g5b5a1)
    (tex : texture)
    (psout : rasterizer_pixel_out Speedometer.pixel_r5g5b5a1)
    (v0 v1 v2 : @Speedometer.psin F) (bc : vec3 F)
    (prim : nat) (a b c : Z) :
  SpeedometerNeedle.triangle_indices prim = Some (a, b, c) ->
  (prim < 4)%nat /\
  (0 <= a < 8 /\ 0 <= b < 8 /\ 0 <= c < 8) /\
  ((prim < 2)%nat <-> a < 4 /\ b < 4 /\ c < 4) /\
  ((2 <= prim)%nat <-> 4 <= a /\ 4 <= b /\ 4 <= c) /\
  (4 <= a \/ 4 <= b \/ 4 <= c ->
   Speedometer.ps_gauge_needle_exec sample tex psout v0 v1 v2 bc
     (Z.of_nat prim) = psout).
Proof.
  intros Hidx.
  apply triangle_indices_cases in Hidx
    as [(-> & [= -> -> ->]) | [(-> & [= -> -> ->])
       | [(-> & [= -> -> ->]) | (-> & [= -> -> ->])]]];
    (split; [lia |]); (split; [lia |]); (split; [lia |]); (split; [lia |]);
    intros Hprev; try lia; reflexivity.
Qed.

Section Update.
Context (fsub : F -> F -> F) (fneg : F -> F) (fcos fsin : F -> F).
Context (lerp : F -> F -> F -> F) (f_lit : Q -> F).
Context (bg_width bg_height needle_width needle_height : Z).

#[local] Abbreviation update :=
  (SpeedometerNeedle.update_gauge_needle fsub fneg fcos fsin lerp f_lit
     bg_width bg_height needle_width needle_height).
#[local] Abbreviation quad :=
  (SpeedometerNeedle.needle_quad fsub fneg fcos fsin lerp f_lit
     bg_width bg_height needle_width needle_height).

(** What [update_gauge_needle] leaves in an array of eight vertices. *)
Lemma update_gauge_needle_array speed
    (vs : list (@Speedometer.vertex_needle F)) :
  length vs = 8%nat ->
  update speed vs = quad speed ++ take 4 vs.
Proof.
  intros Hlen.
  destruct vs as [| w0 [| w1 [| w2 [| w3 [| w4 [| w5 [| w6 [| w7 [| w8 vs]]]]]]]]];
    try discriminate.
  reflexivity.
Qed.

(** X7.  Two calls of [update_gauge_needle] in a row, on the array of
    eight vertices: after the second call the array still has eight
    vertices, the vertices 0 to 3 are the needle for the second speed, the
    vertices 4 to 7 are the vertices 0 to 3 the first call left, and so
    the triangles 2 and 3 (which the pixel shader discards) are, vertex by
    vertex, the triangles 0 and 1 that the frame before drew: the wiped
    region is the previous needle.  After the first call on an array of
    eight equal vertices (as [setup()] zeroes it) the triangles 2 and 3
    have their three vertices in one point. *)
Theorem update_gauge_needle_previous_quad (speed1 speed2 : F)
    (vs : list (@Speedometer.vertex_needle F)) (prim : nat) :
  length vs = 8%nat -> (prim < 2)%nat ->
  let vs1 := update speed1 vs in
  let vs2 := update speed2 vs1 in
  length vs2 = 8%nat /\
  (forall i, (i < 4)%nat ->
     vs2 !! i = quad speed2 !! i /\ vs2 !! (4 + i)%nat = vs1 !! i) /\
  (exists t,
     SpeedometerNeedle.needle_triangle vs1 prim = Some t /\
     SpeedometerNeedle.needle_triangle vs2 (prim + 2) = Some t) /\
  (forall z, vs = replicate 8 z ->
     SpeedometerNeedle.needle_triangle vs1 (prim + 2) = Some (z, z, z)).
Proof.
  intros Hlen Hprim vs1 vs2.
  assert (H1 : vs1 = quad speed1 ++ take 4 vs)
    by (apply update_gauge_needle_array; exact Hlen).
  assert (Hlen1 : length vs1 = 8%nat).
  { rewrite H1, length_app, length_take, Hlen. reflexivity. }
  assert (H2 : vs2 = quad speed2 ++ take 4 vs1)
    by (apply update_gauge_needle_array; exact Hlen1).
  split; [rewrite H2, length_app, length_take, Hlen1; reflexivity |].
  split.
  - intros i Hi. rewrite H2. split.
    + apply lookup_app_l. simpl. lia.
    + rewrite lookup_app_r by (simpl; lia).
      replace (4 + i - length (quad speed2))%nat with i by (simpl; lia).
      apply lookup_take_lt. exact Hi.
  - split.
    + rewrite H2, H1.
      destruct prim as [| [| prim]]; [| | lia]; eexists; split; reflexivity.
    + intros z ->. rewrite H1.
      destruct prim as [| [| prim]]; [| | lia]; reflexivity.
Qed.
End Update.

Section Display.
Context {texture D : Type}.
Context (sample : texture -> vec2 F -> Speedometer.pixel_r5g5b5a1).
Context (tex : texture).
Context (of_r5g5b5a1 : Speedometer.pixel_r5g5b5a1 -> D).
Context (bg_sample : texture -> vec2 F -> D) (bg_tex : texture).
Context (fb_width fb_height : Z).

(** X8.  [ps_gauge_needle::exec] followed by [tshader_gauge::exec] on a
    tile pixel that starts with alpha 0, the exported color replacing the
    pixel: the display gets the needle texel when the triangle is one of the
    current needle and the texel's alpha is set, and otherwise, for a
    triangle of the previous frame or a texel with alpha 0, the background
    texture sampled at the pixel centre.  No texel with alpha 0 reaches
    the display. *)
Theorem needle_or_background (blend : Speedometer.pixel_r5g5b5a1 ->
                              Speedometer.pixel_r5g5b5a1 ->
                              Speedometer.pixel_r5g5b5a1)
    (dst : Speedometer.pixel_r5g5b5a1) (rt0 : list Speedometer.pixel_r5g5b5a1)
    (off : nat) (v0 v1 v2 : @Speedometer.psin F) (bc : vec3 F)
    (prim x y : Z) (res : D) :
  (forall src d, blend src d = src) ->
  Speedometer.c_a dst = 0 ->
  rt0 !! off =
    Some (po_rt0 (Speedometer.ps_gauge_needle_exec sample tex
                    (pixel_out_begin blend dst) v0 v1 v2 bc prim)) ->
  let texel :=
    sample tex (interp2 (Speedometer.uv v0) (Speedometer.uv v1)
                        (Speedometer.uv v2) bc) in
  let half := fdiv (f_of_Z 1) (f_of_Z 2) in
  Speedometer.tshader_gauge_exec of_r5g5b5a1 bg_sample bg_tex
    fb_width fb_height rt0 off x y res =
    if (prim <? 2) && negb (Speedometer.c_a texel =? 0)
    then of_r5g5b5a1 texel
    else bg_sample bg_tex
           (mk_vec2 (fdiv (fadd (f_of_Z x) half) (f_of_Z fb_width))
                    (fdiv (fadd (f_of_Z y) half) (f_of_Z fb_height))).
Proof.
  intros Hblend Hclear Hrt texel half.
  unfold Speedometer.tshader_gauge_exec. rewrite Hrt.
  unfold Speedometer.ps_gauge_needle_exec. fold texel.
  destruct (prim <? 2); cbn [andb].
  - destruct (negb (Speedometer.c_a texel =? 0)) eqn:Ha.
    + cbn [export_rt0 pixel_out_begin po_rt0 po_blendfunc].
      rewrite Hblend, Ha. reflexivity.
    + cbn [pixel_out_begin po_rt0]. rewrite Hclear. reflexivity.
  - cbn [pixel_out_begin po_rt0]. rewrite Hclear. reflexivity.
Qed.
End Display.
End SpeedometerFacts.



(** Triangle 3 names the vertices 5, 7 and 6, and is discarded whatever
    the texture holds. *)
Lemma previous_frame_triangles_discarded_witness :
  let sample := fun (_ : unit) (_ : vec2 Q) =>
                  Speedometer.mk_r5g5b5a1 31 0 0 1 in
  let v := {| Speedometer.pos := mk_vec2 0%Q 0%Q;
              Speedometer.uv := mk_vec2 0%Q 0%Q |} in
  let psout := pixel_out_begin (fun src _ => src)
                 (Speedometer.mk_r5g5b5a1 0 0 0 0) in
  SpeedometerNeedle.triangle_indices 3 = Some (5, 7, 6) /\
  Speedometer.ps_gauge_needle_exec sample tt psout v v v
    (mk_vec3 (1 # 3)%Q (1 # 3)%Q (1 # 3)%Q) 3 = psout.
Proof.
  intros sample v psout. split; [reflexivity |].
  apply (previous_frame_triangles_discarded sample tt psout v v v
           (mk_vec3 (1 # 3)%Q (1 # 3)%Q (1 # 3)%Q) 3 5 7 6 eq_refl).
  lia.
Defined.

(** The array as [setup()] zeroes it, updated twice; sine, cosine and
    [lerp] are stand-ins, the statement does not look into them. *)
Lemma update_gauge_needle_previous_quad_witness :
  let update :=
    SpeedometerNeedle.update_gauge_needle Qminus Qopp (fun a => a)
      (fun a => a) (fun a b t => Qplus a (Qmult (Qminus b a) t))
      (fun q => q) 320 240 16 100 in
  let zero := {| Speedometer.vn_pos := mk_vec2 0%Q 0%Q |} in
  let vs1 := update (1 # 4)%Q (replicate 8 zero) in
  let vs2 := update (1 # 2)%Q vs1 in
  length vs2 = 8%nat /\
  exists t,
    SpeedometerNeedle.needle_triangle vs1 1 = Some t /\
    SpeedometerNeedle.needle_triangle vs2 3 = Some t.
Proof.
  intros update zero vs1 vs2.
  destruct (update_gauge_needle_previous_quad Qminus Qopp (fun a => a)
              (fun a => a) (fun a b t => Qplus a (Qmult (Qminus b a) t))
              (fun q => q) 320 240 16 100 (1 # 4)%Q (1 # 2)%Q
              (replicate 8 zero) 1 eq_refl ltac:(lia))
    as (Hlen & _ & Htri & _).
  split; [exact Hlen | exact Htri].
Defined.

(** A pixel of a previous-frame triangle on a cleared tile shows the
    background. *)
Lemma needle_or_background_witness :
  let sample := fun (_ : unit) (_ : vec2 Q) =>
                  Speedometer.mk_r5g5b5a1 31 0 0 1 in
  let bg := fun (_ : unit) (uv : vec2 Q) => 7 in
  let v := {| Speedometer.pos := mk_vec2 0%Q 0%Q;
              Speedometer.uv := mk_vec2 0%Q 0%Q |} in
  let dst := Speedometer.mk_r5g5b5a1 0 0 0 0 in
  Speedometer.tshader_gauge_exec (fun p => Speedometer.c_r p) bg tt 320 240
    [dst] 0 10 20 0 = 7.
Proof.
  intros sample bg v dst.
  apply (needle_or_background sample tt (fun p => Speedometer.c_r p) bg tt
           320 240 (fun src _ => src) dst [dst] 0 v v v
           (mk_vec3 (1 # 3)%Q (1 # 3)%Q (1 # 3)%Q) 3 10 20 0).
  - reflexivity.
  - reflexivity.
  - reflexivity.
Defined.

(** ** 01_TexturedRects: test_shader and loop *)

Section TexturedRectsFacts.
Context {F : Type} `{Float F} (f_lit : Q -> F).
Context {texture color_rgbaf D : Type}.
Context (rgbaf : F -> F -> F -> F -> color_rgbaf).
Context (color_mul : color_rgbaf -> color_rgbaf -> color_rgbaf).
Context (sampler_sample :
           TexturedRects.e_texaddr -> texture -> vec2 F -> color_rgbaf).
Context (to_pixel : color_rgbaf -> D).
Context (s_tex_smiley : texture).

#[local] Abbreviation exec :=
  (TexturedRects.test_shader_exec color_mul sampler_sample to_pixel).
#[local] Abbreviation the_loop :=
  (TexturedRects.loop f_lit rgbaf s_tex_smiley).

(** X10.  [test_shader::exec] of 01_TexturedRects looks at a pixel only
    through its offset to the point the shader was constructed with: a
    shader constructed [dx, dy] further on gives the pixel [dx, dy] further
    on the color the first one gives the pixel itself, so a rectangle moved
    together with its shader shows the same image. *)
Theorem textured_rect_moves_with_shader
    (sh : @TexturedRects.test_shader F texture color_rgbaf)
    (dx dy x_ y_ : Z) :
  exec (TexturedRects.mk_test_shader
          (TexturedRects.sampler sh) (TexturedRects.tex sh)
          (TexturedRects.x sh + dx) (TexturedRects.y sh + dy)
          (TexturedRects.scale_x sh) (TexturedRects.scale_y sh)
          (TexturedRects.tint sh))
       (x_ + dx) (y_ + dy)
  = exec sh x_ y_.
Proof.
  unfold TexturedRects.test_shader_exec.
  cbn [TexturedRects.x TexturedRects.y TexturedRects.scale_x
       TexturedRects.scale_y TexturedRects.tint TexturedRects.tex
       TexturedRects.sampler].
  replace (x_ + dx - (TexturedRects.x sh + dx))
    with (x_ - TexturedRects.x sh) by lia.
  replace (y_ + dy - (TexturedRects.y sh + dy))
    with (y_ - TexturedRects.y sh) by lia.
  reflexivity.
Qed.

(** X11.  The five rectangles of [loop()] of 01_TexturedRects: no pixel
    lies in two of them, so no draw paints over an earlier one; all of
    them lie within the first 214 columns and 164 rows; and every shader
    is constructed with the left edge of its rectangle and with its upper
    edge, but for the third one, the flipped one, which is constructed
    with the lower edge. *)
Theorem loop_rectangles_disjoint (i j : nat)
    (ci cj : @TexturedRects.draw_call F texture color_rgbaf) (px py : Z) :
  the_loop !! i = Some ci -> the_loop !! j = Some cj ->
  in_rect (TexturedRects.dc_x ci) (TexturedRects.dc_y ci)
          (TexturedRects.dc_width ci) (TexturedRects.dc_height ci) px py ->
  (in_rect (TexturedRects.dc_x cj) (TexturedRects.dc_y cj)
           (TexturedRects.dc_width cj) (TexturedRects.dc_height cj) px py ->
   i = j) /\
  (0 <= px < 214 /\ 0 <= py < 164) /\
  TexturedRects.x (TexturedRects.dc_shader ci) = TexturedRects.dc_x ci /\
  TexturedRects.y (TexturedRects.dc_shader ci) =
    (if Nat.eqb i 2
     then TexturedRects.dc_y ci + TexturedRects.dc_height ci
     else TexturedRects.dc_y ci).
Proof.
  intros Hi Hj. unfold in_rect.
  destruct i as [| [| [| [| [| i]]]]]; try discriminate;
    injection Hi as <-;
    cbn [TexturedRects.dc_x TexturedRects.dc_y TexturedRects.dc_width
         TexturedRects.dc_height TexturedRects.dc_shader
         TexturedRects.x TexturedRects.y Nat.eqb];
    intros Hin; (split; [| split; [lia | split; reflexivity]]);
    destruct j as [| [| [| [| [| j]]]]]; try discriminate;
    injection Hj as <-;
    cbn [TexturedRects.dc_x TexturedRects.dc_y TexturedRects.dc_width
         TexturedRects.dc_height];
    intros Hin'; first [reflexivity | lia].
Qed.
End TexturedRectsFacts.

(** The second rectangle of [loop()] holds the pixel (60, 10), the first
    one does not. *)
Lemma loop_rectangles_disjoint_witness :
  let loop := TexturedRects.loop (fun q : Q => q)
                (fun r g b a : Q => (r, g, b, a)) tt in
  exists c, loop !! 1%nat = Some c /\
    0 <= 60 < 214 /\ 0 <= 10 < 164 /\ TexturedRects.x (TexturedRects.dc_shader c) = 50.
Proof.
  intros loop.
  eexists. split; [reflexivity |].
  destruct (loop_rectangles_disjoint (fun q : Q => q)
              (fun r g b a : Q => (r, g, b, a)) tt 1 0 _ _ 60 10
              eq_refl eq_refl) as (_ & (Hx & Hy) & Hsx & _).
  - unfold in_rect. simpl. lia.
  - split; [exact Hx |]. split; [exact Hy |]. exact Hsx.
Defined.
